(** * The Harvey agent: credential pool, input synthesizer, reply parser
      and control loop, embedded from [api_manager.py] and [harvey.py].

    Conventions of the embedding.
    - A Python [str] is a [string]; every character is read as a code
      point below 256.
    - A Python [float] is a rational [Q].  The values the properties below
      depend on (0.5, 959.5, 0.8^k, small integers) are either exact in
      binary64 or far away from the thresholds they are compared with.
    - A Python [int] is a [Z]; [None] where a value is expected is the
      [None] of [option].
    - A dict read in insertion order is the list of its items; a dict
      used as a map is a [gmap].
    - A call of [re.search] is a matcher for its one pattern, tried at
      every position from the left.
    - Statements thread a [world]: the module globals, the pointer of the
      host and the trace of what the process did (input events, sleeps,
      printed lines as structured diagnostics).
    - The clock, the environment, the display and the two collaborators
      are inputs. *)

From Stdlib Require Import ZArith QArith Qround String Ascii List Bool Lia Lqa.
From Stdlib Require Import DecimalString DecimalNat DecimalZ.
From stdpp Require Import gmap strings.
Import ListNotations.

Local Open Scope string_scope.

(** ** Python primitives *)

Module Py.

(** The double quote and the line feed, as one-character strings. *)
Definition dquote : string := String "034"%char EmptyString.
Definition newline : string := String "010"%char EmptyString.

(** Outcome of a call that may raise. *)
Inductive result (A : Type) : Type :=
| Returns (a : A)
| Raises (exc : string).
Arguments Returns {A} a.
Arguments Raises {A} exc.

(** Truthiness of a [str]: [bool(s)]. *)
Definition truthy (s : string) : bool :=
  match s with EmptyString => false | String _ _ => true end.

(** [str.isspace] on one code point below 256. *)
Definition isspace (c : ascii) : bool :=
  let n := N_of_ascii c in
  ((9 <=? n) && (n <=? 13) || (28 <=? n) && (n <=? 32)
   || (n =? 133) || (n =? 160))%N.

(** ASCII digits: the class [[0-9]], and [\d] below code point 256. *)
Definition isdigit (c : ascii) : bool :=
  let n := N_of_ascii c in ((48 <=? n) && (n <=? 57))%N.

Fixpoint lstrip (s : string) : string :=
  match s with
  | EmptyString => EmptyString
  | String c r => if isspace c then lstrip r else s
  end.

Fixpoint rstrip (s : string) : string :=
  match s with
  | EmptyString => EmptyString
  | String c r =>
      match rstrip r with
      | EmptyString => if isspace c then EmptyString else String c EmptyString
      | r' => String c r'
      end
  end.

(** [s.strip()] *)
Definition strip (s : string) : string := rstrip (lstrip s).

(** [s.startswith(p)] *)
Definition startswith (p s : string) : bool := String.prefix p s.

(** [sub in s] *)
Fixpoint contains (sub s : string) : bool :=
  startswith sub s
  || match s with
     | EmptyString => false
     | String _ r => contains sub r
     end.

(** [s[n:]] *)
Fixpoint drop (n : nat) (s : string) : string :=
  match n, s with
  | O, _ => s
  | S n', String _ r => drop n' r
  | S _, EmptyString => EmptyString
  end.

(** [s.split('\n')] *)
Fixpoint split_lines (s : string) : list string :=
  match s with
  | EmptyString => [EmptyString]
  | String c r =>
      if Ascii.eqb c "010"%char then EmptyString :: split_lines r
      else match split_lines r with
           | h :: t => String c h :: t
           | [] => [String c EmptyString]
           end
  end.

(** [s.replace(c, '')] for a one-character [c]. *)
Fixpoint remove_char (c : ascii) (s : string) : string :=
  match s with
  | EmptyString => EmptyString
  | String d r =>
      if Ascii.eqb c d then remove_char c r else String d (remove_char c r)
  end.

(** [s.lower()] on code points below 256. *)
Definition lower_char (c : ascii) : ascii :=
  let n := N_of_ascii c in
  if ((65 <=? n) && (n <=? 90)
      || (192 <=? n) && (n <=? 222) && negb (n =? 215))%N
  then ascii_of_N (n + 32) else c.

Fixpoint lower (s : string) : string :=
  match s with
  | EmptyString => EmptyString
  | String c r => String (lower_char c) (lower r)
  end.

(** Longest prefix of [s] whose characters satisfy [p], and the rest:
    a greedy [[class]*]. *)
Fixpoint span (p : ascii -> bool) (s : string) : string * string :=
  match s with
  | EmptyString => (EmptyString, EmptyString)
  | String c r =>
      if p c then let '(a, b) := span p r in (String c a, b)
      else (EmptyString, s)
  end.

(** Value of a string of ASCII digits read in base ten. *)
Fixpoint digits_value (acc : Z) (s : string) : Z :=
  match s with
  | EmptyString => acc
  | String c r => digits_value (10 * acc + (Z.of_N (N_of_ascii c) - 48)) r
  end.

Fixpoint pow10 (n : nat) : positive :=
  match n with
  | O => 1%positive
  | S k => (10 * pow10 k)%positive
  end.

(** [float(s)] for [s] over the alphabet [[0-9.]]: the decimal it
    denotes, [ValueError] when [s] has no digit or more than one dot. *)
Definition float_of_decimal (s : string) : result Q :=
  let '(ip, rest) := span isdigit s in
  match rest with
  | EmptyString =>
      if truthy ip then Returns (inject_Z (digits_value 0 ip))
      else Raises "ValueError"
  | String c fp0 =>
      let '(fp, tail) := span isdigit fp0 in
      if Ascii.eqb c "."%char && negb (truthy tail)
         && (truthy ip || truthy fp)
      then Returns (Qmake (digits_value 0 (ip ++ fp))
                          (pow10 (String.length fp)))
      else Raises "ValueError"
  end.

(** [re.search]: the leftmost position at which [match_here] succeeds. *)
Fixpoint search {A : Type} (match_here : string -> option A) (s : string)
  : option A :=
  match match_here s with
  | Some a => Some a
  | None =>
      match s with
      | EmptyString => None
      | String _ r => search match_here r
      end
  end.

(** One literal character of a pattern. *)
Definition expect (c : ascii) (s : string) : option string :=
  match s with
  | String d r => if Ascii.eqb c d then Some r else None
  | EmptyString => None
  end.

(** A literal word of a pattern. *)
Fixpoint expect_word (word s : string) : option string :=
  match word with
  | EmptyString => Some s
  | String c word' =>
      match expect c s with
      | Some r => expect_word word' r
      | None => None
      end
  end.

(** [a < b] on floats. *)
Definition flt (a b : Q) : bool := negb (Qle_bool b a).

(** [min(a, b)] and [max(a, b)] as the builtins decide them: the first
    argument unless the second is strictly smaller (larger). *)
Definition py_min (a b : Q) : Q := if flt b a then b else a.
Definition py_max (a b : Q) : Q := if flt a b then b else a.

(** [round(q)] with one argument: to the nearest integer, ties to the
    even one. *)
Definition py_round (q : Q) : Z :=
  let f := Qfloor q in
  match Qcompare (q - inject_Z f) (1 # 2) with
  | Lt => f
  | Gt => (f + 1)%Z
  | Eq => if Z.even f then f else (f + 1)%Z
  end.

(** [int(q)] on a float: truncation toward zero. *)
Definition py_int (q : Q) : Z := Z.quot (Qnum q) (Z.pos (Qden q)).

End Py.

(** ** api_manager.py: the credential pool *)

Module ApiManager.
Import Py.

(** Lines written to standard output, by the statement that prints them. *)
Inductive diagnostic : Type :=
| NoKeysFound                                (* "No API keys found! ..." and the five set-up lines *)
| Loaded (n : nat) (names : list string)     (* "Loaded {n} API keys: {names}" *)
| MarkedRateLimited (retry_after : Q)        (* "API key marked as rate limited for {retry_after}s" *)
| AllRateLimited.                            (* "All API keys are rate limited!" *)

(** [os.getenv]: the process environment. *)
Definition environ : Type := string -> option string.

(** One entry of [usage_tracker]. *)
Record usage : Type := { rate_limited : bool; retry_after : Q }.

(** The instance attributes.  [api_keys] is a dict read in insertion
    order, kept as the list of its items; [usage_tracker] is a dict
    keyed by credential value. *)
Record APIKeyManager : Type := {
  api_keys : list (string * string);
  usage_tracker : gmap string usage;
  current_key_index : nat
}.

(** [d[k]] / [k in d] on a dict kept as its item list. *)
Fixpoint dict_get (k : string) (d : list (string * string)) : option string :=
  match d with
  | [] => None
  | (k', v) :: rest => if String.eqb k k' then Some v else dict_get k rest
  end.

Definition dict_keys (d : list (string * string)) : list string := map fst d.
Definition dict_values (d : list (string * string)) : list string := map snd d.

(** The dict literal of [load_api_keys], before filtering. *)
Definition configured (getenv : environ) : list (string * option string) :=
  [ ("voice", getenv "GOOGLE_API_KEY_VOICE");
    ("flash", getenv "GOOGLE_API_KEY_FLASH");
    ("completion1", getenv "GOOGLE_API_KEY_1");
    ("completion2", getenv "GOOGLE_API_KEY_2");
    ("completion3", getenv "GOOGLE_API_KEY_3") ].

(** [{k: v for k, v in self.api_keys.items() if v}] *)
Fixpoint filter_set (d : list (string * option string)) : list (string * string) :=
  match d with
  | [] => []
  | (k, Some v) :: rest =>
      if truthy v then (k, v) :: filter_set rest else filter_set rest
  | (_, None) :: rest => filter_set rest
  end.

(** [load_api_keys]: the pool and what is printed.  With no key set it
    prints and returns; nothing is raised. *)
Definition load_api_keys (getenv : environ)
  : list (string * string) * list diagnostic :=
  let keys := filter_set (configured getenv) in
  match keys with
  | [] => (keys, [NoKeysFound])
  | _ :: _ => (keys, [Loaded (length keys) (dict_keys keys)])
  end.

(** [APIKeyManager()]: what the constructor hands to its caller, and the
    lines printed meanwhile.  No statement of [__init__] or of
    [load_api_keys] raises. *)
Definition init (getenv : environ) : result APIKeyManager * list diagnostic :=
  let '(keys, out) := load_api_keys getenv in
  (Returns {| api_keys := keys; usage_tracker := ∅; current_key_index := 0 |},
   out).

(** The global instance [api_manager = APIKeyManager()]. *)
Definition api_manager (getenv : environ) : result APIKeyManager * list diagnostic :=
  init getenv.

(** [[k for k in self.api_keys.keys() if k.startswith('completion')]] *)
Definition completion_keys (m : APIKeyManager) : list string :=
  List.filter (startswith "completion") (dict_keys (api_keys m)).

(** The last two statements of [get_key_for_service]. *)
Definition fallback_key (m : APIKeyManager) : option string :=
  match dict_values (api_keys m) with
  | v :: _ => Some v
  | [] => None
  end.

(** [get_key_for_service]: the key returned ([None] for Python's [None])
    and the manager afterwards. *)
Definition get_key_for_service (service_type : string) (m : APIKeyManager)
  : option string * APIKeyManager :=
  match String.eqb service_type "voice", dict_get "voice" (api_keys m) with
  | true, Some v => (Some v, m)
  | _, _ =>
    match String.eqb service_type "flash", dict_get "flash" (api_keys m) with
    | true, Some v => (Some v, m)
    | _, _ =>
      if String.eqb service_type "completion" then
        match completion_keys m with
        | [] => (fallback_key m, m)
        | names =>
            match nth_error names (current_key_index m mod length names) with
            | Some key_name =>
                (dict_get key_name (api_keys m),
                 {| api_keys := api_keys m;
                    usage_tracker := usage_tracker m;
                    current_key_index := current_key_index m + 1 |})
            | None => (None, m)       (* index below the length: not taken *)
            end
        end
      else (fallback_key m, m)
    end
  end.

(** [mark_rate_limited(api_key, retry_after=60)] at clock reading [now]. *)
Definition mark_rate_limited (now : Q) (api_key : string) (retry : Q)
    (m : APIKeyManager) : APIKeyManager * list diagnostic :=
  ({| api_keys := api_keys m;
      usage_tracker :=
        <[ api_key := {| rate_limited := true; retry_after := now + retry |} ]>
          (usage_tracker m);
      current_key_index := current_key_index m |},
   [MarkedRateLimited retry]).

Definition default_retry_after : Q := 60.

(** [is_key_available(api_key)] at clock reading [now]. *)
Definition is_key_available (now : Q) (api_key : string) (m : APIKeyManager)
  : bool :=
  match usage_tracker m !! api_key with
  | None => true
  | Some tracker =>
      if rate_limited tracker && flt now (retry_after tracker) then false
      else true
  end.

(** The [for key in self.api_keys.values()] scan. *)
Fixpoint first_available (now : Q) (m : APIKeyManager) (values : list string)
  : option string :=
  match values with
  | [] => None
  | key :: rest =>
      if is_key_available now key m then Some key
      else first_available now m rest
  end.

(** [get_available_key(service_type)].  One clock reading [now] stands
    for the readings of [time.time()] made during the call. *)
Definition get_available_key (now : Q) (service_type : string)
    (m : APIKeyManager) : option string * APIKeyManager * list diagnostic :=
  let '(preferred_key, m') := get_key_for_service service_type m in
  let preferred_ok :=
    match preferred_key with
    | Some k => truthy k && is_key_available now k m'
    | None => false
    end in
  if preferred_ok then (preferred_key, m', [])
  else match first_available now m' (dict_values (api_keys m')) with
       | Some key => (Some key, m', [])
       | None => (None, m', [AllRateLimited])
       end.

(** [n] calls of [get_available_key] in a row, at the clock readings
    [nows]: the keys returned, in call order, and the final manager. *)
Fixpoint acquire_many (nows : list Q) (service_type : string)
    (m : APIKeyManager) : list (option string) * APIKeyManager :=
  match nows with
  | [] => ([], m)
  | now :: later =>
      let '(k, m', _) := get_available_key now service_type m in
      let '(ks, m'') := acquire_many later service_type m' in
      (k :: ks, m'')
  end.

End ApiManager.

(** ** harvey.py: input synthesizer, reply parser and control loop *)

Module Harvey.
Import Py.

(** *** Host, collaborators and mutable state *)

(** What the module reads from its host and from the environment. *)
Record host : Type := {
  QUARTZ_AVAILABLE : bool;
  MOUSE_TRAIL_ENABLED : bool;
  display_bounds : Z * Z;         (* CGDisplayBounds size, after int(): points *)
  display_pixel_width : Z;        (* CGDisplayModeGetPixelWidth, or the logical width *)
  spotlight_frontmost : bool;     (* the frontmost process is named Spotlight *)
  HARVEY_X_OFFSET : result Q;     (* float(os.getenv("HARVEY_X_OFFSET", "0")) *)
  HARVEY_Y_OFFSET : result Q      (* float(os.getenv("HARVEY_Y_OFFSET", "0")) *)
}.

(** The external collaborators, by the number of calls made before.
    [generate_content n task image] stands for the whole [try] block of
    [think] up to and including [response.text]: [Raises e] is any
    exception raised there, [e] being [str(e)]. *)
Record collaborators : Type := {
  capture_to_bytes : nat -> option string;
  generate_content : nat -> string -> string -> result string
}.

Record trail_point : Type := { x : Z; y : Z; opacity : Q; size : Q }.

(** Lines printed by [run], by [think] on failure and by [execute]. *)
Inductive diagnostic : Type :=
| Starting (task : string)          (* "Harvey starting: {task}" *)
| TakingScreenshot                  (* "Taking screenshot to analyze current state..." *)
| CaptureFailed                     (* "Failed to capture screenshot" *)
| TaskComplete                      (* "Task complete!" *)
| Finished                          (* "Harvey finished" *)
| HarveySees (see : string)         (* "Harvey sees: {see_line}" *)
| LLMError (e : string)             (* "LLM Error: {e}" *)
| RateLimitHit                      (* "Rate limit hit - waiting before retry..." *)
| Waiting (delay : Q)               (* "Waiting {delay:.1f} seconds..." *)
| Executing (action : string)       (* "Harvey: {action_text}" *)
| TaskCompletedSuccessfully         (* "   -> Task completed successfully" *)
| ActionError (e : string).         (* "Action error: {e}" *)

(** Everything the process does to the outside, in order. *)
Inductive event : Type :=
| MouseMoved (px py : Z)            (* CGEventPost of a kCGEventMouseMoved at (px, py) *)
| LeftMouseDown (px py : Z)
| LeftMouseUp (px py : Z)
| CallHotkey (key_combo : string)   (* hotkey(key_combo) *)
| CallTypeText (text : string)      (* type_text(text) *)
| Sleep (seconds : Q)               (* time.sleep(seconds) *)
| Print (d : diagnostic)
| SpeakRationale (action see task : string)
| SaveDebugScreenshot.              (* harvey_debug.jpg written, first step only *)

(** The module globals, the attributes of the [Harvey] instance that
    [run] touches, the pointer of the host and the trace. *)
Record world : Type := {
  TRAIL_POINTS : list trail_point;
  cursor : Z * Z;
  last_see : string;
  captures : nat;                   (* calls of capture_to_bytes so far *)
  model_calls : nat;                (* calls of generate_content so far *)
  trace : list event
}.

Definition initial_world (pointer : Z * Z) : world :=
  {| TRAIL_POINTS := []; cursor := pointer; last_see := EmptyString;
     captures := 0; model_calls := 0; trace := [] |}.

(** A statement: it returns a value and leaves a world. *)
Definition M (A : Type) : Type := world -> A * world.

Definition ret {A : Type} (a : A) : M A := fun w => (a, w).

Definition bind {A B : Type} (m : M A) (k : A -> M B) : M B :=
  fun w => let '(a, w') := m w in k a w'.

Declare Scope stmt_scope.
Delimit Scope stmt_scope with stmt.
Notation "v <- m ;; k" := (bind m (fun v => k))
  (at level 100, m at next level, right associativity) : stmt_scope.
Notation "m ;; k" := (bind m (fun _ => k))
  (at level 100, right associativity) : stmt_scope.
Local Open Scope Q_scope.
Local Open Scope stmt_scope.

Definition emit (e : event) : M unit :=
  fun w =>
    (tt, {| TRAIL_POINTS := TRAIL_POINTS w; cursor := cursor w;
            last_see := last_see w; captures := captures w;
            model_calls := model_calls w; trace := (trace w ++ [e])%list |}).

Definition print (d : diagnostic) : M unit := emit (Print d).
(** Durations are recorded in lowest terms. *)
Definition sleep (seconds : Q) : M unit := emit (Sleep (Qred seconds)).

(** The keyboard synthesizer is recorded at its entry points. *)
Definition hotkey (key_combo : string) : M unit := emit (CallHotkey key_combo).
Definition type_text (text : string) : M unit := emit (CallTypeText text).

Section WithHost.
Variable H : host.

(** *** Screen geometry and coordinate conversion *)

Definition get_screen_info : Z * Z * Q :=
  if QUARTZ_AVAILABLE H then
    let '(logical_width, logical_height) := display_bounds H in
    let scale :=
      if (logical_width =? 0)%Z then 1
      else inject_Z (display_pixel_width H) / inject_Z logical_width in
    (logical_width, logical_height, scale)
  else (1920%Z, 1080%Z, 1).

Definition _transform_coords (x_ratio y_ratio : Q) : Z * Z :=
  let '(width, height, scale) := get_screen_info in
  let x_ratio := py_max 0 (py_min 1 x_ratio) in
  let y_ratio := py_max 0 (py_min 1 y_ratio) in
  let x := py_round (x_ratio * inject_Z (width - 1)) in
  let y := py_round (y_ratio * inject_Z (height - 1)) in
  (x, y).

Definition calibrate_click_position (x y : Z) : Z * Z :=
  let '(offset_x, offset_y) :=
    match HARVEY_X_OFFSET H, HARVEY_Y_OFFSET H with
    | Returns ox, Returns oy => (ox, oy)
    | _, _ => (0, 0)
    end in
  (py_int (inject_Z x + offset_x), py_int (inject_Z y + offset_y)).

(** *** The pointer trail *)

Definition _MAX_TRAIL_POINTS : nat := 15.
Definition _TRAIL_FADE_SPEED : Q := 8 # 10.

Definition fade (p : trail_point) : trail_point :=
  {| x := x p; y := y p;
     opacity := opacity p * _TRAIL_FADE_SPEED;
     size := size p * (95 # 100) |}.

(** [for point in _TRAIL_POINTS[:-1]: ...]: the slice shares its
    records with the list, so every point but the last is faded in
    place. *)
Fixpoint fade_existing (points : list trail_point) : list trail_point :=
  match points with
  | [] => []
  | [newest] => [newest]
  | p :: rest => fade p :: fade_existing rest
  end.

(** [points[-n:]] for [n > 0]. *)
Definition last_n (n : nat) (points : list trail_point) : list trail_point :=
  skipn (length points - n) points.

(** The body of [_add_trail_point] below its guard. *)
Definition insert_trail_point (px py : Z) (points : list trail_point)
  : list trail_point :=
  let points :=
    (points ++ [{| x := px; y := py; opacity := 1; size := 8 |}])%list in
  let points := List.filter (fun p => flt (1 # 10) (opacity p)) points in
  let points :=
    if (_MAX_TRAIL_POINTS <? length points)%nat
    then last_n _MAX_TRAIL_POINTS points else points in
  fade_existing points.

Definition _add_trail_point (px py : Z) : M unit :=
  fun w =>
    if negb (MOUSE_TRAIL_ENABLED H) || negb (QUARTZ_AVAILABLE H) then (tt, w)
    else
      (tt, {| TRAIL_POINTS := insert_trail_point px py (TRAIL_POINTS w);
              cursor := cursor w; last_see := last_see w;
              captures := captures w; model_calls := model_calls w;
              trace := trace w |}).

Definition clear_mouse_trail : M unit :=
  fun w =>
    (tt, {| TRAIL_POINTS := []; cursor := cursor w; last_see := last_see w;
            captures := captures w; model_calls := model_calls w;
            trace := trace w |}).

(** *** Pointer motion *)

(** Posting a move event.  Modelled host: the pointer follows every
    posted move, so a later [CGEventGetLocation] reads it back. *)
Definition post_mouse_moved (px py : Z) : M unit :=
  fun w =>
    (tt, {| TRAIL_POINTS := TRAIL_POINTS w; cursor := (px, py);
            last_see := last_see w; captures := captures w;
            model_calls := model_calls w;
            trace := (trace w ++ [MouseMoved px py])%list |}).

Definition get_current_mouse_position : M (Z * Z) :=
  if QUARTZ_AVAILABLE H then
    fun w =>
      let '(px, py) := cursor w in
      let '(_, w') := _add_trail_point px py w in
      ((px, py), w')
  else ret (100%Z, 100%Z).

(** One iteration of the loop of [smooth_move_mouse]. *)
Definition smooth_step (start_x start_y end_x end_y steps i : Z) : M unit :=
  let t := inject_Z i / inject_Z steps in
  let t_smooth := t * t * (3 - 2 * t) in
  let control_x :=
    inject_Z (start_x + end_x) / 2 + inject_Z (end_y - start_y) * (1 # 10) in
  let control_y :=
    inject_Z (start_y + end_y) / 2 - inject_Z (end_x - start_x) * (1 # 10) in
  let px := py_int ((1 - t_smooth) ^ 2 * inject_Z start_x
                    + 2 * (1 - t_smooth) * t_smooth * control_x
                    + t_smooth ^ 2 * inject_Z end_x) in
  let py := py_int ((1 - t_smooth) ^ 2 * inject_Z start_y
                    + 2 * (1 - t_smooth) * t_smooth * control_y
                    + t_smooth ^ 2 * inject_Z end_y) in
  _add_trail_point px py ;;
  post_mouse_moved px py ;;
  sleep (1 # 100).

Fixpoint for_each (indices : list nat) (body : Z -> M unit) : M unit :=
  match indices with
  | [] => ret tt
  | i :: later => body (Z.of_nat i) ;; for_each later body
  end.

(** [distance < 5] is decided on the squared distance, and
    [int(distance / 15)] is the integer square root divided by 15. *)
Definition smooth_move_mouse (start_x start_y end_x end_y : Z) : M unit :=
  if negb (QUARTZ_AVAILABLE H) then ret tt
  else
    let d2 := ((end_x - start_x) ^ 2 + (end_y - start_y) ^ 2)%Z in
    if (d2 <? 25)%Z then ret tt
    else
      let steps := Z.max 10 (Z.sqrt d2 / 15) in
      for_each (seq 0 (Z.to_nat steps + 1))
               (smooth_step start_x start_y end_x end_y steps).

Definition move_mouse (x_ratio y_ratio : Q) : M unit :=
  if negb (QUARTZ_AVAILABLE H) then ret tt
  else
    let '(px, py) := _transform_coords x_ratio y_ratio in
    position <- get_current_mouse_position ;;
    let '(current_x, current_y) := position in
    smooth_move_mouse current_x current_y px py.

Definition ultra_precise_click (x_ratio y_ratio : Q) : M unit :=
  if negb (QUARTZ_AVAILABLE H) then ret tt
  else if spotlight_frontmost H then hotkey "return"
  else
    let '(px, py) := _transform_coords x_ratio y_ratio in
    let '(px, py) := calibrate_click_position px py in
    position <- get_current_mouse_position ;;
    let '(current_x, current_y) := position in
    smooth_move_mouse current_x current_y px py ;;
    sleep (15 # 100) ;;
    position <- get_current_mouse_position ;;
    let '(final_x, final_y) := position in
    (if (5 <? Z.abs (final_x - px))%Z || (5 <? Z.abs (final_y - py))%Z
     then smooth_move_mouse final_x final_y px py ;; sleep (5 # 100)
     else ret tt) ;;
    position <- get_current_mouse_position ;;
    let '(click_x, click_y) := position in
    emit (LeftMouseDown click_x click_y) ;;
    sleep (5 # 100) ;;
    emit (LeftMouseUp click_x click_y).

Definition left_click (x_ratio y_ratio : Q) : M unit :=
  ultra_precise_click x_ratio y_ratio.

Definition press_twice (px py : Z) : M unit :=
  emit (LeftMouseDown px py) ;; sleep (5 # 100) ;;
  emit (LeftMouseUp px py) ;; sleep (1 # 10) ;;
  emit (LeftMouseDown px py) ;; sleep (5 # 100) ;;
  emit (LeftMouseUp px py) ;; sleep (1 # 10).

Definition double_click (x_ratio y_ratio : Q) : M unit :=
  if negb (QUARTZ_AVAILABLE H) then ret tt
  else
    let '(px, py) := _transform_coords x_ratio y_ratio in
    let '(px, py) := calibrate_click_position px py in
    position <- get_current_mouse_position ;;
    let '(current_x, current_y) := position in
    smooth_move_mouse current_x current_y px py ;;
    sleep (2 # 10) ;;
    position <- get_current_mouse_position ;;
    let '(final_x, final_y) := position in
    (if (2 <? Z.abs (final_x - px))%Z || (2 <? Z.abs (final_y - py))%Z
     then smooth_move_mouse final_x final_y px py ;; sleep (1 # 10)
     else ret tt) ;;
    press_twice px py.

Definition hover (x_ratio y_ratio : Q) : M unit :=
  if negb (QUARTZ_AVAILABLE H) then ret tt
  else
    let '(px, py) := _transform_coords x_ratio y_ratio in
    position <- get_current_mouse_position ;;
    let '(current_x, current_y) := position in
    smooth_move_mouse current_x current_y px py ;;
    sleep (5 # 10).

(** *** Argument extraction *)

Definition isratiochar (c : ascii) : bool :=
  isdigit c || Ascii.eqb c "."%char.

Definition nonempty (s : string) : option string :=
  if truthy s then Some s else None.

(** The pattern [\(([0-9.]+),\s*([0-9.]+)\)] tried at one position.
    Each repetition is followed by a character outside its class, so
    the greedy choice is the only one that can succeed. *)
Definition coords_here (s : string) : option (string * string) :=
  match expect "("%char s with
  | None => None
  | Some s1 =>
      let '(group1, s2) := span isratiochar s1 in
      match nonempty group1, expect ","%char s2 with
      | Some _, Some s3 =>
          let '(_, s4) := span isspace s3 in
          let '(group2, s5) := span isratiochar s4 in
          match nonempty group2, expect ")"%char s5 with
          | Some _, Some _ => Some (group1, group2)
          | _, _ => None
          end
      | _, _ => None
      end
  end.

(** [_extract_coords]: [Returns None] for no match, [Raises] when
    [float] rejects a matched group. *)
Definition _extract_coords (text : string) : result (option (Q * Q)) :=
  match search coords_here text with
  | None => Returns None
  | Some (group1, group2) =>
      match float_of_decimal group1 with
      | Raises e => Raises e
      | Returns ratio_x =>
          match float_of_decimal group2 with
          | Raises e => Raises e
          | Returns ratio_y =>
              let ratio_x := py_max 0 (py_min 1 ratio_x) in
              let ratio_y := py_max 0 (py_min 1 ratio_y) in
              Returns (Some (ratio_x, ratio_y))
          end
      end
  end.

(** The pattern of [_extract_text] tried at one position: a double
    quote, the longest run free of double quotes, a double quote. *)
Definition text_here (s : string) : option string :=
  match expect "034"%char s with
  | None => None
  | Some s1 =>
      let '(group, s2) := span (fun c => negb (Ascii.eqb c "034"%char)) s1 in
      match expect "034"%char s2 with
      | Some _ => Some group
      | None => None
      end
  end.

Definition _extract_text (text : string) : option string :=
  search text_here text.

(** The pattern [\((\d+)\)] tried at one position. *)
Definition number_here (s : string) : option string :=
  match expect "("%char s with
  | None => None
  | Some s1 =>
      let '(group, s2) := span isdigit s1 in
      match nonempty group, expect ")"%char s2 with
      | Some _, Some _ => Some group
      | _, _ => None
      end
  end.

Definition _extract_number (text : string) : option Z :=
  match search number_here text with
  | Some group => Some (digits_value 0 group)
  | None => None
  end.

(** *** The reply parser of [think] *)

Definition fallback_commands : list string :=
  ["left_click"; "type_text"; "bulk_type"; "hotkey"; "done"; "wait"; "scroll"].

(** The [for line in lines] loop, on the lines still to read and the
    current values of [see_line] and [action]; a [break] returns. *)
Fixpoint scan_lines (lines : list string) (see_line action : string)
  : string * string :=
  match lines with
  | [] => (see_line, action)
  | line :: later =>
      let line := strip line in
      if startswith "See:" line then
        scan_lines later (strip (drop 4 line)) action
      else if startswith "Action:" line then
        (see_line, strip (drop 7 line))
      else if startswith "**See:**" line then
        scan_lines later (strip (drop 8 line)) action
      else if startswith "**Action:**" line then
        (see_line, strip (drop 11 line))
      else if negb (truthy see_line) && negb (truthy action)
              && truthy line && negb (startswith "**" line) then
        if existsb (fun cmd => contains cmd line) fallback_commands
        then (see_line, line)
        else scan_lines later see_line action
      else scan_lines later see_line action
  end.

(** From [response.text] to the observation and the action returned:
    lines 615 to 650 of [think]. *)
Definition parse_reply (response_text : string) : string * string :=
  let response_text := strip response_text in
  let lines := split_lines response_text in
  let '(see_line, action) := scan_lines lines EmptyString EmptyString in
  let action :=
    if truthy action then strip (remove_char "`"%char action) else action in
  (see_line, if truthy action then action else "wait(1000)").

(** The retry pattern tried at one position: the words
    [Please retry in ], then the group (digits, at least one; an
    optional dot; digits), then the letter [s].  After the greedy
    digits, optional dot and digits, no shorter choice can be followed
    by [s]. *)
Definition retry_here (s : string) : option string :=
  match expect_word "Please retry in " s with
  | None => None
  | Some s1 =>
      let '(whole, s2) := span isdigit s1 in
      match nonempty whole with
      | None => None
      | Some _ =>
          let '(dot, s3) :=
            match expect "."%char s2 with
            | Some r => (".", r)
            | None => (EmptyString, s2)
            end in
          let '(fraction, s4) := span isdigit s3 in
          match expect "s"%char s4 with
          | Some _ => Some (whole ++ dot ++ fraction)
          | None => None
          end
      end
  end.

Variable C : collaborators.

Definition set_last_see (see_line : string) : M unit :=
  fun w =>
    (tt, {| TRAIL_POINTS := TRAIL_POINTS w; cursor := cursor w;
            last_see := see_line; captures := captures w;
            model_calls := model_calls w; trace := trace w |}).

Definition call_model (task screenshot_data : string) : M (result string) :=
  fun w =>
    (generate_content C (model_calls w) task screenshot_data,
     {| TRAIL_POINTS := TRAIL_POINTS w; cursor := cursor w;
        last_see := last_see w; captures := captures w;
        model_calls := S (model_calls w); trace := trace w |}).

(** The [except] branch of [think]. *)
Definition on_model_failure (task error_str : string) : M string :=
  print (LLMError error_str) ;;
  if contains "429" error_str || contains "RESOURCE_EXHAUSTED" error_str then
    print RateLimitHit ;;
    (match search retry_here error_str with
     | Some group =>
         match float_of_decimal group with
         | Returns delay => print (Waiting delay) ;; sleep (delay + 1)
         | Raises _ => ret tt       (* the group is a decimal: not taken *)
         end
     | None => sleep 10
     end) ;;
    if (contains "safari" (lower task) || contains "browser" (lower task))
       && contains "search" (lower task)
    then ret ("hotkey(" ++ dquote ++ "cmd+t" ++ dquote ++ ")")
    else ret "done()"
  else ret "done()".

Definition think (task screenshot_data : string) : M string :=
  response <- call_model task screenshot_data ;;
  match response with
  | Returns response_text =>
      let '(see_line, action) := parse_reply response_text in
      (if truthy see_line then print (HarveySees see_line) else ret tt) ;;
      set_last_see see_line ;;
      ret action
  | Raises error_str => on_model_failure task error_str
  end.

(** *** The executor *)

Definition scroll (direction : string) : M unit :=
  if negb (QUARTZ_AVAILABLE H) then ret tt
  else if String.eqb (lower direction) "down" then
    hotkey "space" ;; sleep (5 # 10)
  else if String.eqb (lower direction) "up" then
    hotkey "shift+space" ;; sleep (5 # 10)
  else if String.eqb (lower direction) "left" then
    hotkey "left" ;; sleep (5 # 10)
  else if String.eqb (lower direction) "right" then
    hotkey "right" ;; sleep (5 # 10)
  else ret tt.

(** [_bulk_type_text], on the lines still to type. *)
Fixpoint bulk_type_lines (lines : list string) : M unit :=
  match lines with
  | [] => ret tt
  | line :: later =>
      (if truthy (strip line) then type_text line else ret tt) ;;
      match later with
      | [] => ret tt
      | _ :: _ => hotkey "enter" ;; sleep (1 # 10) ;; bulk_type_lines later
      end
  end.

Definition _bulk_type_text (text : string) : M unit :=
  bulk_type_lines (split_lines text).

(** A pointer action of [execute]: extract, then act when coordinates
    were found.  A [ValueError] of the extraction is caught by the
    [except] of [execute]. *)
Definition with_coords (action_text : string) (act : Q -> Q -> M unit)
  : M bool :=
  match _extract_coords action_text with
  | Raises e => print (ActionError e) ;; ret false
  | Returns (Some (ratio_x, ratio_y)) => act ratio_x ratio_y ;; ret false
  | Returns None => ret false
  end.

Definition with_text (action_text : string) (act : string -> M unit)
  : M bool :=
  match _extract_text action_text with
  | Some text => if truthy text then act text ;; ret false else ret false
  | None => ret false
  end.

Definition execute (action_text : string) : M bool :=
  print (Executing action_text) ;;
  if startswith "move_mouse" action_text then with_coords action_text move_mouse
  else if startswith "left_click" action_text then with_coords action_text left_click
  else if startswith "double_click" action_text then with_coords action_text double_click
  else if startswith "hover" action_text then with_coords action_text hover
  else if startswith "bulk_type" action_text then with_text action_text _bulk_type_text
  else if startswith "type_text" action_text then with_text action_text type_text
  else if startswith "scroll" action_text then with_text action_text scroll
  else if startswith "hotkey" action_text then with_text action_text hotkey
  else if startswith "wait" action_text then
    match _extract_number action_text with
    | Some ms =>
        if (ms =? 0)%Z then ret false
        else sleep (inject_Z ms / 1000) ;; ret false
    | None => ret false
    end
  else if startswith "focus_address_bar" action_text then
    hotkey "cmd+l" ;; sleep (3 # 10) ;; ret false
  else if startswith "done" action_text then
    print TaskCompletedSuccessfully ;; ret true
  else ret false.

(** *** The control loop *)

Definition capture_screenshot : M (option string) :=
  fun w =>
    (capture_to_bytes C (captures w),
     {| TRAIL_POINTS := TRAIL_POINTS w; cursor := cursor w;
        last_see := last_see w; captures := S (captures w);
        model_calls := model_calls w; trace := trace w |}).

Definition get_last_see : M string := fun w => (last_see w, w).

(** [_speak_rationale]: best-effort narration; it swallows its own
    exceptions and assigns no attribute. *)
Definition _speak_rationale (action_text see_line task : string) : M unit :=
  emit (SpeakRationale action_text see_line task).

(** The body of [for step in range(20)] on the steps still to run; a
    [break] returns. *)
Fixpoint run_steps (steps : list nat) (task : string) : M unit :=
  match steps with
  | [] => ret tt
  | step :: later =>
      print TakingScreenshot ;;
      captured <- capture_screenshot ;;
      match captured with
      | None => print CaptureFailed
      | Some screenshot_data =>
          if negb (truthy screenshot_data) then print CaptureFailed
          else
            (if (step =? 0)%nat then emit SaveDebugScreenshot else ret tt) ;;
            action <- think task screenshot_data ;;
            see <- get_last_see ;;
            _speak_rationale action see task ;;
            done <- execute action ;;
            if done then print TaskComplete
            else sleep 1 ;; run_steps later task
      end
  end.

(** [Harvey.run]: no [return] statement, so the caller receives
    [None] on every path. *)
Definition run (task : string) : M unit :=
  print (Starting task) ;;
  run_steps (seq 0 20) task ;;
  print Finished.

End WithHost.
End Harvey.

(** ** Vocabulary of the properties *)

Module Props.
Import Py.

(** *** Coordinates *)

(** Ratio to point, then calibration: what [ultra_precise_click] and
    [double_click] compute before they move. *)
Definition calibrated_point (H : Harvey.host) (x_ratio y_ratio : Q) : Z * Z :=
  let '(px, py) := Harvey._transform_coords H x_ratio y_ratio in
  Harvey.calibrate_click_position H px py.

(** A 1920 by 1080 display with the offsets [(dx, dy)] in the
    environment. *)
Definition full_hd (dx dy : Z) : Harvey.host :=
  {| Harvey.QUARTZ_AVAILABLE := true;
     Harvey.MOUSE_TRAIL_ENABLED := true;
     Harvey.display_bounds := (1920, 1080)%Z;
     Harvey.display_pixel_width := 1920%Z;
     Harvey.spotlight_frontmost := false;
     Harvey.HARVEY_X_OFFSET := Returns (inject_Z dx);
     Harvey.HARVEY_Y_OFFSET := Returns (inject_Z dy) |}.

(** The coordinates of the last pointer event of a trace. *)
Fixpoint last_pointer_event (events : list Harvey.event) (seen : option (Z * Z))
  : option (Z * Z) :=
  match events with
  | [] => seen
  | Harvey.MouseMoved px py :: later => last_pointer_event later (Some (px, py))
  | Harvey.LeftMouseDown px py :: later => last_pointer_event later (Some (px, py))
  | Harvey.LeftMouseUp px py :: later => last_pointer_event later (Some (px, py))
  | _ :: later => last_pointer_event later seen
  end.

(** *** Credential pool *)

(** The five variables [load_api_keys] reads. *)
Definition pool_variables : list string :=
  ["GOOGLE_API_KEY_VOICE"; "GOOGLE_API_KEY_FLASH"; "GOOGLE_API_KEY_1";
   "GOOGLE_API_KEY_2"; "GOOGLE_API_KEY_3"].

(** No credential value is configured: every variable is unset or empty. *)
Definition no_credentials (getenv : ApiManager.environ) : Prop :=
  forall name, In name pool_variables ->
    getenv name = None \/ getenv name = Some EmptyString.

(** The rotation group: the values stored under a name that starts with
    [completion], in insertion order. *)
Definition members (m : ApiManager.APIKeyManager) : list string :=
  ApiManager.dict_values
    (List.filter (fun kv => startswith "completion" (fst kv))
                 (ApiManager.api_keys m)).

(** What [load_api_keys] guarantees of the dict: distinct names, no
    empty value. *)
Definition well_formed (m : ApiManager.APIKeyManager) : Prop :=
  List.NoDup (ApiManager.dict_keys (ApiManager.api_keys m))
  /\ Forall (fun v => truthy v = true)
            (ApiManager.dict_values (ApiManager.api_keys m)).

(** The manager with its cursor moved to [c]. *)
Definition with_cursor (c : nat) (m : ApiManager.APIKeyManager)
  : ApiManager.APIKeyManager :=
  {| ApiManager.api_keys := ApiManager.api_keys m;
     ApiManager.usage_tracker := ApiManager.usage_tracker m;
     ApiManager.current_key_index := c |}.

(** A pool of one voice key and two completion keys, and the same pool
    after the first completion key was reported throttled at time 0. *)
Definition sample_pool : ApiManager.APIKeyManager :=
  {| ApiManager.api_keys :=
       [("voice", "V"); ("completion1", "A"); ("completion2", "B")];
     ApiManager.usage_tracker := ∅;
     ApiManager.current_key_index := 0 |}.

Definition throttled_pool : ApiManager.APIKeyManager :=
  fst (ApiManager.mark_rate_limited 0 "A" ApiManager.default_retry_after
                                    sample_pool).

(** *** Pointer trail *)




(** The opacity floor of the filter, and a fresh point. *)
Definition above_floor (p : Harvey.trail_point) : bool :=
  flt (1 # 10) (Harvey.opacity p).

Definition fresh_point (px py : Z) : Harvey.trail_point :=
  {| Harvey.x := px; Harvey.y := py; Harvey.opacity := 1; Harvey.size := 8 |}.

(** The world after the pointer visited [points] in order, each visit
    recorded by [_add_trail_point]. *)
Fixpoint insert_all (H : Harvey.host) (points : list (Z * Z)) (w : Harvey.world)
  : Harvey.world :=
  match points with
  | [] => w
  | (px, py) :: later =>
      insert_all H later (snd (Harvey._add_trail_point H px py w))
  end.


(** *** Reply parser *)

(** A stripped line carries the action label. *)
Definition labelled_action (line : string) : bool :=
  startswith "Action:" line || startswith "**Action:**" line.

(** The reply has no labelled action line. *)
Definition no_labelled_action (reply : string) : Prop :=
  Forall (fun raw => labelled_action (strip raw) = false)
         (split_lines (strip reply)).

(** The text of an observation line, [None] for any other line. *)
Definition observation (line : string) : option string :=
  if startswith "See:" line then Some (strip (drop 4 line))
  else if startswith "**See:**" line then Some (strip (drop 8 line))
  else None.

(** A stripped line contains one of the seven command names. *)
Definition names_command (line : string) : bool :=
  existsb (fun cmd => contains cmd line) Harvey.fallback_commands.

(** The first line of the reply that contains a command name: what the
    fallback accepts according to the spec. *)
Definition first_command_line (reply : string) : option string :=
  List.find names_command (map strip (split_lines (strip reply))).

(** The line the fallback accepts, read off the guard of the code: the
    first line that is non-empty, does not start with two asterisks and
    contains a command name, among the lines read while the observation
    in force, [see], is empty.  An observation line replaces [see]. *)
Fixpoint fallback_choice (lines : list string) (see : string) : option string :=
  match lines with
  | [] => None
  | raw :: later =>
      let line := strip raw in
      match observation line with
      | Some see' => fallback_choice later see'
      | None =>
          if negb (truthy see) && truthy line
             && negb (startswith "**" line) && names_command line
          then Some line
          else fallback_choice later see
      end
  end.

(** The world [w] after the events [added]. *)
Definition after_events (added : list Harvey.event) (w : Harvey.world)
  : Harvey.world :=
  {| Harvey.TRAIL_POINTS := Harvey.TRAIL_POINTS w;
     Harvey.cursor := Harvey.cursor w;
     Harvey.last_see := Harvey.last_see w;
     Harvey.captures := Harvey.captures w;
     Harvey.model_calls := Harvey.model_calls w;
     Harvey.trace := (Harvey.trace w ++ added)%list |}.

(** The character [c] occurs in [s]. *)
Fixpoint occurs (c : ascii) (s : string) : Prop :=
  match s with
  | EmptyString => False
  | String d r => c = d \/ occurs c r
  end.

(** *** Action texts *)

(** Every character of [s] satisfies [p]. *)
Fixpoint all_chars (p : ascii -> bool) (s : string) : bool :=
  match s with
  | EmptyString => true
  | String c r => p c && all_chars p r
  end.

(** [s] is empty or begins with a character outside [p]. *)
Definition stops (p : ascii -> bool) (s : string) : bool :=
  match s with
  | EmptyString => true
  | String c _ => negb (p c)
  end.






(** *** Control loop *)

(** The host [H] with other calibration offsets in its environment. *)
Definition with_offsets (offset_x offset_y : result Q) (H : Harvey.host)
  : Harvey.host :=
  {| Harvey.QUARTZ_AVAILABLE := Harvey.QUARTZ_AVAILABLE H;
     Harvey.MOUSE_TRAIL_ENABLED := Harvey.MOUSE_TRAIL_ENABLED H;
     Harvey.display_bounds := Harvey.display_bounds H;
     Harvey.display_pixel_width := Harvey.display_pixel_width H;
     Harvey.spotlight_frontmost := Harvey.spotlight_frontmost H;
     Harvey.HARVEY_X_OFFSET := offset_x;
     Harvey.HARVEY_Y_OFFSET := offset_y |}.

(** The world after a model call that answered with the observation
    [see]. *)
Definition thought (see : string) (w : Harvey.world) : Harvey.world :=
  {| Harvey.TRAIL_POINTS := Harvey.TRAIL_POINTS w;
     Harvey.cursor := Harvey.cursor w;
     Harvey.last_see := see;
     Harvey.captures := Harvey.captures w;
     Harvey.model_calls := S (Harvey.model_calls w);
     Harvey.trace :=
       if truthy see
       then (Harvey.trace w ++ [Harvey.Print (Harvey.HarveySees see)])%list
       else Harvey.trace w |}.

(** The screen capture never fails. *)
Definition always_captures (C : Harvey.collaborators) : Prop :=
  forall n, exists image,
    Harvey.capture_to_bytes C n = Some image /\ truthy image = true.

(** A reply in which the parser finds no action at all. *)
Definition unparsable (reply : string) : Prop :=
  no_labelled_action reply
  /\ fallback_choice (split_lines (strip reply)) EmptyString = None.

(** The model answers every call, and never with an action. *)
Definition always_unparsable (C : Harvey.collaborators) : Prop :=
  forall n task image, exists reply,
    Harvey.generate_content C n task image = Returns reply /\ unparsable reply.

(** The line that opens an iteration, and the line printed on Done. *)
Definition opens_iteration (e : Harvey.event) : bool :=
  match e with
  | Harvey.Print Harvey.TakingScreenshot => true
  | _ => false
  end.

Definition announces_completion (e : Harvey.event) : bool :=
  match e with
  | Harvey.Print Harvey.TaskComplete => true
  | _ => false
  end.

(** Iterations started in a stretch of trace. *)
Definition iterations (events : list Harvey.event) : nat :=
  length (List.filter opens_iteration events).

(** From [w] to [w'] the loop ran [n] iterations, each with one capture
    and one model call, and never announced completion. *)
Definition idle_progress (n : nat) (w w' : Harvey.world) : Prop :=
  Harvey.captures w' = (Harvey.captures w + n)%nat
  /\ Harvey.model_calls w' = (Harvey.model_calls w + n)%nat
  /\ exists added,
       Harvey.trace w' = (Harvey.trace w ++ added)%list
       /\ iterations added = n
       /\ existsb announces_completion added = false.

(** A model that hits the rate limit on every call, one that never
    finds an action, and one that reports completion at once. *)
Definition rate_limited_model : Harvey.collaborators :=
  {| Harvey.capture_to_bytes := fun _ => Some "image";
     Harvey.generate_content :=
       fun _ _ _ => Raises "429 RESOURCE_EXHAUSTED. Please retry in 12.5s." |}.

Definition puzzled_model : Harvey.collaborators :=
  {| Harvey.capture_to_bytes := fun _ => Some "image";
     Harvey.generate_content :=
       fun _ _ _ => Returns "I am not sure what to do next." |}.

Definition done_model : Harvey.collaborators :=
  {| Harvey.capture_to_bytes := fun _ => Some "image";
     Harvey.generate_content := fun _ _ _ => Returns "Action: done()" |}.

End Props.

(** ** harvey.py: the keyboard synthesizer and the offsets file *)

(** [hotkey] and [type_text] are functions from their argument to the
    events they post and the pauses between them; the calls into Quartz
    are taken to raise nothing, and what is printed is left out.
    [_write_env_offsets] is a function from the old text of the file to
    its new text. *)

Module Keyboard.
Import Py.

(** What [hotkey] and [type_text] post, in order.  [flags] is [None]
    where the code leaves the flags of the event as Quartz created it. *)
Inductive keystroke : Type :=
| KeyDown (code : Z) (flags : option Z)
| KeyUp (code : Z) (flags : option Z)
| Pause (seconds : Q).

(** [s.split(c)] for a one-character separator. *)
Fixpoint split_char (c : ascii) (s : string) : list string :=
  match s with
  | EmptyString => [EmptyString]
  | String d r =>
      if Ascii.eqb c d then EmptyString :: split_char c r
      else match split_char c r with
           | h :: t => String d h :: t
           | [] => [String d EmptyString]
           end
  end.

(** [c in s] for one character. *)
Fixpoint has_char (c : ascii) (s : string) : bool :=
  match s with
  | EmptyString => false
  | String d r => Ascii.eqb c d || has_char c r
  end.

(** [d.get(k)] on a dict literal kept as its items. *)
Fixpoint table_get {V : Type} (k : string) (d : list (string * V)) : option V :=
  match d with
  | [] => None
  | (k', v) :: rest => if String.eqb k k' then Some v else table_get k rest
  end.

(** The letters and digits both tables share. *)
Definition letter_and_digit_codes : list (string * Z) :=
  [ ("a", 0); ("b", 11); ("c", 8); ("d", 2); ("e", 14); ("f", 3); ("g", 5);
    ("h", 4); ("i", 34); ("j", 38); ("k", 40); ("l", 37); ("m", 46); ("n", 45);
    ("o", 31); ("p", 35); ("q", 12); ("r", 15); ("s", 1); ("t", 17); ("u", 32);
    ("v", 9); ("w", 13); ("x", 7); ("y", 16); ("z", 6);
    ("1", 18); ("2", 19); ("3", 20); ("4", 21); ("5", 23); ("6", 22); ("7", 26);
    ("8", 28); ("9", 25); ("0", 29) ]%Z.

(** [key_codes] of [hotkey]. *)
Definition key_codes : list (string * Z) :=
  ([ ("space", 49); ("return", 36); ("enter", 36); ("tab", 48) ]%Z
   ++ letter_and_digit_codes)%list.

(** [key_map] of [type_text]: [None] stands for the value [None] of the
    three characters the table lists as not typable. *)
Definition key_map : list (string * option Z) :=
  ([ (" ", Some 49) ]%Z
   ++ map (fun kv => (fst kv, Some (snd kv))) letter_and_digit_codes
   ++ [ (".", Some 47); ("/", Some 44); ("-", Some 27); ("=", Some 24);
        (",", Some 43); ("(", None); (")", None); ("+", None); (";", Some 41);
        ("'", Some 39); ("[", Some 33); ("]", Some 30);
        (String "092"%char EmptyString, Some 42); ("`", Some 50) ]%Z)%list.

(** [x in modifiers], on the list of strings. *)
Definition listed (x : string) (modifiers : list string) : bool :=
  existsb (String.eqb x) modifiers.

Section WithMask.
(** The mask Quartz exports as [kCGEventFlagMaskCommand]. *)
Variable kCGEventFlagMaskCommand : Z.

(** The flags [hotkey] collects from the modifier names. *)
Definition modifier_flags (modifiers : list string) : Z :=
  let flags := 0%Z in
  let flags :=
    if listed "cmd" modifiers || listed "command" modifiers
    then Z.lor flags kCGEventFlagMaskCommand else flags in
  let flags := if listed "shift" modifiers then Z.lor flags 131072 else flags in
  let flags :=
    if listed "alt" modifiers || listed "option" modifiers
    then Z.lor flags 524288 else flags in
  let flags :=
    if listed "ctrl" modifiers || listed "control" modifiers
    then Z.lor flags 262144 else flags in
  flags.

(** [hotkey(key_combo)]: the events it posts and the pause between them. *)
Definition hotkey (quartz_available : bool) (key_combo : string) : list keystroke :=
  if negb quartz_available then []
  else if has_char "+"%char key_combo then
    let parts := split_char "+"%char key_combo in
    let modifiers := removelast parts in
    let key := lower (List.last parts EmptyString) in
    match table_get key key_codes with
    | Some key_code =>
        let flags := modifier_flags modifiers in
        if (flags =? 0)%Z
        then [KeyDown key_code None; Pause (2 # 100); KeyUp key_code None]
        else [KeyDown key_code (Some flags); Pause (2 # 100);
              KeyUp key_code (Some 0%Z)]
    | None => []
    end
  else
    match table_get (lower key_combo) key_codes with
    | Some key_code =>
        [KeyDown key_code None; Pause (2 # 100); KeyUp key_code None]
    | None => []
    end.

End WithMask.

(** [c.isupper() and c.isalpha()] on one code point below 256. *)
Definition isupper_alpha (c : ascii) : bool :=
  let n := N_of_ascii c in
  ((65 <=? n) && (n <=? 90)
   || (192 <=? n) && (n <=? 222) && negb (n =? 215))%N.

(** The body of the loop of [type_text] for one character: a character
    the table maps to [None] is skipped by [continue], before the pause
    that ends every other iteration. *)
Definition type_char (c : ascii) : list keystroke :=
  let char_lower := String (lower_char c) EmptyString in
  match table_get char_lower key_map with
  | Some None => []
  | Some (Some key_code) =>
      [ KeyDown key_code (Some (if isupper_alpha c then 131072 else 0)%Z);
        Pause (2 # 100); KeyUp key_code (Some 0%Z); Pause (3 # 100);
        Pause (2 # 100) ]
  | None => [Pause (2 # 100)]
  end.

Fixpoint type_chars (text : string) : list keystroke :=
  match text with
  | EmptyString => []
  | String c rest => (type_char c ++ type_chars rest)%list
  end.

(** [type_text(text)]. *)
Definition type_text (quartz_available : bool) (text : string) : list keystroke :=
  if negb quartz_available then [] else type_chars text.

(** What the keyboard posts for one event of the trace of [Harvey]: the
    calls recorded there, carried out. *)
Definition keystrokes_of (mask : Z) (H : Harvey.host) (e : Harvey.event)
  : list keystroke :=
  match e with
  | Harvey.CallHotkey key_combo => hotkey mask (Harvey.QUARTZ_AVAILABLE H) key_combo
  | Harvey.CallTypeText text => type_text (Harvey.QUARTZ_AVAILABLE H) text
  | _ => []
  end.

End Keyboard.

Module EnvFile.
Import Py.

(** [str(z)] for an [int]. *)
Definition str_of_int (z : Z) : string := NilEmpty.string_of_int (Z.to_int z).

(** A line boundary of [str.splitlines], below code point 256 (the pair
    carriage return, line feed is one boundary). *)
Definition isbreak (c : ascii) : bool :=
  let n := N_of_ascii c in
  ((10 <=? n) && (n <=? 13) || (28 <=? n) && (n <=? 30) || (n =? 133))%N.

(** [s.splitlines()] *)
Fixpoint splitlines (s : string) : list string :=
  match s with
  | EmptyString => []
  | String c r =>
      if isbreak c then
        EmptyString ::
          match r with
          | String d r' =>
              if Ascii.eqb c "013"%char && Ascii.eqb d "010"%char
              then splitlines r' else splitlines r
          | EmptyString => []
          end
      else match splitlines r with
           | h :: t => String c h :: t
           | [] => [String c EmptyString]
           end
  end.

(** The separator-joined lines: [sep.join(lines)]. *)
Fixpoint join (sep : string) (lines : list string) : string :=
  match lines with
  | [] => EmptyString
  | [line] => line
  | line :: rest => line ++ sep ++ join sep rest
  end.

(** The test of [set_or_replace]: [line.strip().startswith(key + "=")]. *)
Definition defines (key line : string) : bool :=
  startswith (key ++ "=") (strip line).

(** [set_or_replace(lines, key, value)]: the first defining line is
    replaced, or the definition is appended. *)
Fixpoint set_or_replace (lines : list string) (key value : string) : list string :=
  match lines with
  | [] => [key ++ "=" ++ value]
  | line :: rest =>
      if defines key line then (key ++ "=" ++ value) :: rest
      else line :: set_or_replace rest key value
  end.

(** [_write_env_offsets(offset_x, offset_y)] when reading and writing
    raise nothing: the new text of [.env], from its old text ([None] when
    the file does not exist). *)
Definition _write_env_offsets (existing : option string) (offset_x offset_y : Z)
  : string :=
  let lines :=
    match existing with
    | Some text => splitlines text
    | None => []
    end in
  let lines := set_or_replace lines "HARVEY_X_OFFSET" (str_of_int offset_x) in
  let lines := set_or_replace lines "HARVEY_Y_OFFSET" (str_of_int offset_y) in
  join newline lines ++ newline.

End EnvFile.

(** ** Vocabulary of the further properties *)

Module More.
Import Py.

(** The role names of the pool and the variables they are read from. *)
Definition role_variables : list (string * string) :=
  [ ("voice", "GOOGLE_API_KEY_VOICE"); ("flash", "GOOGLE_API_KEY_FLASH");
    ("completion1", "GOOGLE_API_KEY_1"); ("completion2", "GOOGLE_API_KEY_2");
    ("completion3", "GOOGLE_API_KEY_3") ].

(** The value of a variable when it is set and not empty. *)
Definition usable (value : option string) : option string :=
  match value with
  | Some v => if truthy v then Some v else None
  | None => None
  end.

(** An environment with three of the five variables set, one to the
    empty string. *)
Definition sample_environ : ApiManager.environ :=
  fun name =>
    if String.eqb name "GOOGLE_API_KEY_VOICE" then Some "V"
    else if String.eqb name "GOOGLE_API_KEY_1" then Some "A"
    else if String.eqb name "GOOGLE_API_KEY_2" then Some EmptyString
    else None.

(** *** Frames of statements *)

(** Every run of the statement [m] takes a world to one related by [R]. *)
Definition preserves {A : Type} (R : Harvey.world -> Harvey.world -> Prop)
    (m : Harvey.M A) : Prop :=
  forall w, R w (snd (m w)).

(** The two collaborator counters stand still and the trace only grows. *)
Definition steady (w w' : Harvey.world) : Prop :=
  Harvey.captures w' = Harvey.captures w
  /\ Harvey.model_calls w' = Harvey.model_calls w
  /\ exists added, Harvey.trace w' = (Harvey.trace w ++ added)%list.

(** A pointer event of the trace. *)
Definition is_pointer_event (e : Harvey.event) : bool :=
  match e with
  | Harvey.MouseMoved _ _ | Harvey.LeftMouseDown _ _ | Harvey.LeftMouseUp _ _ => true
  | _ => false
  end.

(** A host without the Quartz bindings. *)
Definition no_quartz (H : Harvey.host) : Prop := Harvey.QUARTZ_AVAILABLE H = false.

Definition simulated_host : Harvey.host :=
  {| Harvey.QUARTZ_AVAILABLE := false;
     Harvey.MOUSE_TRAIL_ENABLED := true;
     Harvey.display_bounds := (0, 0)%Z;
     Harvey.display_pixel_width := 0%Z;
     Harvey.spotlight_frontmost := false;
     Harvey.HARVEY_X_OFFSET := Returns 0%Q;
     Harvey.HARVEY_Y_OFFSET := Returns 0%Q |}.

(** *** The control loop, counted *)

(** From [w] to [w'] the loop made [c] captures and [m] model calls, no
    model call without the capture before it, and at most [n] captures. *)
Definition spends (n : nat) (w w' : Harvey.world) : Prop :=
  exists c m,
    Harvey.captures w' = (Harvey.captures w + c)%nat
    /\ Harvey.model_calls w' = (Harvey.model_calls w + m)%nat
    /\ (m <= c)%nat /\ (c <= n)%nat.

(** *** The trail, by age *)

(** The opacity of a point that was faded [n] times. *)
Fixpoint fade_power (n : nat) : Q :=
  match n with
  | O => 1
  | S k => fade_power k * Harvey._TRAIL_FADE_SPEED
  end.

(** Every point is at most as opaque as the fadings it went through
    allow: one fading for each point that follows it. *)
Fixpoint aged (points : list Harvey.trail_point) : Prop :=
  match points with
  | [] => True
  | p :: rest => (Harvey.opacity p <= fade_power (length rest))%Q /\ aged rest
  end.

(** *** A host that is not reached *)

(** [w'] is [w] after some events, none of which reaches the host: no
    pointer event among them, and no keystroke posted for them. *)
Definition silent_extension (mask : Z) (H : Harvey.host) (w w' : Harvey.world)
  : Prop :=
  exists added,
    w' = Props.after_events added w
    /\ Forall (fun e => is_pointer_event e = false
                        /\ Keyboard.keystrokes_of mask H e = []) added.

(** *** Motions and clicks *)

(** A press or a release of the button. *)
Definition is_press (e : Harvey.event) : bool :=
  match e with
  | Harvey.LeftMouseDown _ _ | Harvey.LeftMouseUp _ _ => true
  | _ => false
  end.

(** The events of a press and release at one point. *)
Definition click_at (p : Z * Z) : list Harvey.event :=
  [ Harvey.LeftMouseDown (fst p) (snd p); Harvey.Sleep (1 # 20);
    Harvey.LeftMouseUp (fst p) (snd p) ].

(** The test [distance < 5] of [smooth_move_mouse] between two points. *)
Definition nearby (a b : Z * Z) : bool :=
  ((fst b - fst a) ^ 2 + (snd b - snd a) ^ 2 <? 25)%Z.

(** A host with the Quartz bindings on which Spotlight is not frontmost. *)
Definition clickable (H : Harvey.host) : Prop :=
  Harvey.QUARTZ_AVAILABLE H = true /\ Harvey.spotlight_frontmost H = false.

(** The number of steps [smooth_move_mouse] takes between two points. *)
Definition steps_between (start_x start_y end_x end_y : Z) : Z :=
  Z.max 10 (Z.sqrt ((end_x - start_x) ^ 2 + (end_y - start_y) ^ 2) / 15).

(** The point posted at step [i] of [steps]: the eased parameter on the
    curve through the control point, as [smooth_move_mouse] computes it. *)
Definition waypoint (start_x start_y end_x end_y steps i : Z) : Z * Z :=
  let t := (inject_Z i / inject_Z steps)%Q in
  let t_smooth := (t * t * (3 - 2 * t))%Q in
  let control_x :=
    (inject_Z (start_x + end_x) / 2 + inject_Z (end_y - start_y) * (1 # 10))%Q in
  let control_y :=
    (inject_Z (start_y + end_y) / 2 - inject_Z (end_x - start_x) * (1 # 10))%Q in
  (py_int ((1 - t_smooth) ^ 2 * inject_Z start_x
           + 2 * (1 - t_smooth) * t_smooth * control_x
           + t_smooth ^ 2 * inject_Z end_x)%Q,
   py_int ((1 - t_smooth) ^ 2 * inject_Z start_y
           + 2 * (1 - t_smooth) * t_smooth * control_y
           + t_smooth ^ 2 * inject_Z end_y)%Q).

(** A posted move and the pause after it. *)
Definition move_to (p : Z * Z) : list Harvey.event :=
  [Harvey.MouseMoved (fst p) (snd p); Harvey.Sleep (1 # 100)].

(** The moves of a trajectory of [steps] steps. *)
Definition trajectory (start_x start_y end_x end_y steps : Z) : list Harvey.event :=
  flat_map
    (fun i => move_to (waypoint start_x start_y end_x end_y steps (Z.of_nat i)))
    (seq 0 (Z.to_nat steps + 1)).

(** *** Keys *)

(** The key name [hotkey] looks up: the part after the last plus sign,
    in lower case. *)
Definition key_of (key_combo : string) : string :=
  lower (List.last (Keyboard.split_char "+"%char key_combo) EmptyString).

(** The names before the last plus sign. *)
Definition modifiers_of (key_combo : string) : list string :=
  removelast (Keyboard.split_char "+"%char key_combo).

(** One press and release of [code], [flags] held during the press. *)
Definition stroke (code flags : Z) : list Keyboard.keystroke :=
  if (flags =? 0)%Z
  then [Keyboard.KeyDown code None; Keyboard.Pause (2 # 100);
        Keyboard.KeyUp code None]
  else [Keyboard.KeyDown code (Some flags); Keyboard.Pause (2 # 100);
        Keyboard.KeyUp code (Some 0%Z)].








(** *** Directives *)

(** A character other than the line feed, and one other than the
    backtick. *)
Definition notnewline (c : ascii) : bool := negb (Ascii.eqb c "010"%char).
Definition notbacktick (c : ascii) : bool := negb (Ascii.eqb "`"%char c).

(** A directive as [think] hands it to [execute]: one line, not empty,
    with no blank at either end and no backtick. *)
Definition clean_line (s : string) : Prop :=
  truthy s = true
  /\ strip s = s
  /\ Props.all_chars notnewline s = true
  /\ Props.all_chars notbacktick s = true.

(** The names [execute] dispatches on, in the order it tests them. *)
Definition dispatched : list string :=
  ["move_mouse"; "left_click"; "double_click"; "hover"; "bulk_type";
   "type_text"; "scroll"; "hotkey"; "wait"; "focus_address_bar"; "done"].

(** *** Runs *)

(** The model answers call number [n] with a reply, and the directive
    parsed from it begins with done ([ends = true]) or does not
    ([ends = false]), whatever the screenshot. *)
Definition answers (C : Harvey.collaborators) (n : nat) (task : string)
    (ends : bool) : Prop :=
  forall image, exists reply,
    Harvey.generate_content C n task image = Returns reply
    /\ startswith "done" (snd (Harvey.parse_reply reply)) = ends.

(** The capture with number [n] fails: no data, or empty data. *)
Definition capture_fails (C : Harvey.collaborators) (n : nat) : Prop :=
  Harvey.capture_to_bytes C n = None
  \/ Harvey.capture_to_bytes C n = Some EmptyString.

(** From [w] to [w'] the loop ran [n] iterations to their end. *)
Definition advanced (n : nat) (w w' : Harvey.world) : Prop :=
  Harvey.captures w' = (Harvey.captures w + n)%nat
  /\ Harvey.model_calls w' = (Harvey.model_calls w + n)%nat
  /\ exists added, Harvey.trace w' = (Harvey.trace w ++ added)%list.

(** A model that reports completion at its third call, and a screen
    capture that fails at once. *)
Definition third_time_done : Harvey.collaborators :=
  {| Harvey.capture_to_bytes := fun _ => Some "image";
     Harvey.generate_content :=
       fun n _ _ =>
         if (n =? 2)%nat then Returns "Action: done()"
         else Returns "Action: wait(10)" |}.

Definition blind : Harvey.collaborators :=
  {| Harvey.capture_to_bytes := fun _ => None;
     Harvey.generate_content := fun _ _ _ => Returns "Action: done()" |}.

(** *** The offsets file *)

(** The line [set_or_replace] writes for a key. *)
Definition definition_line (key value : string) : string :=
  (key ++ "=" ++ value)%string.

(** A character that is no line boundary. *)
Definition nobreak (c : ascii) : bool := negb (EnvFile.isbreak c).

(** The lines that do not define [key]. *)
Definition others (key : string) (lines : list string) : list string :=
  List.filter (fun line => negb (EnvFile.defines key line)) lines.

(** *** Replies in the format of the prompt *)




(** *** Ratios *)

(** The clamp of [_extract_coords] and [_transform_coords]. *)
Definition clamp (ratio : Q) : Q := py_max 0 (py_min 1 ratio).

End More.

(** ** Properties *)

Import Py.
Local Open Scope list_scope.

(** *** Coordinate conversion and calibration *)

Lemma py_int_inject_Z_plus (a b : Z) : py_int (inject_Z a + inject_Z b) = (a + b)%Z.
Proof.
  unfold py_int, Qplus, inject_Z. cbn [Qnum Qden].
  rewrite !Z.mul_1_r. change (Z.pos (1 * 1)) with 1%Z. apply Z.quot_1_r.
Qed.

(** C1, as the code has it: for every integer calibration offset
    [(dx, dy)], the ratio pair (0.5, 0.5) on a 1920 by 1080 logical screen
    converts and calibrates to [(960 + dx, 540 + dy)]: 0.5 * 1919 is 959.5
    and [round] takes the tie to the even neighbour.  (Binary64 carries
    the sum exactly for offsets below 2^52 in magnitude.) *)
Theorem C1_center_is_960_540 (H : Harvey.host) (dx dy : Z) :
  fst (Harvey.get_screen_info H) = (1920, 1080)%Z ->
  Harvey.HARVEY_X_OFFSET H = Returns (inject_Z dx) ->
  Harvey.HARVEY_Y_OFFSET H = Returns (inject_Z dy) ->
  Props.calibrated_point H (1 # 2) (1 # 2) = (960 + dx, 540 + dy)%Z.
Proof.
  intros Hscreen Hx Hy.
  unfold Props.calibrated_point, Harvey._transform_coords.
  destruct (Harvey.get_screen_info H) as [[width height] scale].
  cbn in Hscreen. injection Hscreen as -> ->.
  change (py_round (py_max 0 (py_min 1 (1 # 2)) * inject_Z (1920 - 1))) with 960%Z.
  change (py_round (py_max 0 (py_min 1 (1 # 2)) * inject_Z (1080 - 1))) with 540%Z.
  unfold Harvey.calibrate_click_position. rewrite Hx, Hy.
  now rewrite !py_int_inject_Z_plus.
Qed.

Lemma C1_center_is_960_540_witness :
  Props.calibrated_point (Props.full_hd 7 (-3)) (1 # 2) (1 # 2) = (967, 537)%Z.
Proof.
  apply (C1_center_is_960_540 (Props.full_hd 7 (-3)) 7 (-3)); reflexivity.
Defined.

(** C1, as the spec words it, fails with no offset at all: the centre is
    (960, 540), not (959, 539). *)
Lemma C1_counterexample :
  Props.calibrated_point (Props.full_hd 0 0) (1 # 2) (1 # 2) <> (959 + 0, 539 + 0)%Z.
Proof. vm_compute. discriminate. Qed.

(** *** Where a motion ends *)

Section Motion.
Import Harvey.
Variable H : host.

Lemma py_int_of_integer (q : Q) (z : Z) : (q == inject_Z z)%Q -> py_int q = z.
Proof.
  destruct q as [n d]. unfold Qeq, py_int. cbn. rewrite Z.mul_1_r. intros ->.
  apply Z.quot_mul. discriminate.
Qed.

Lemma for_each_app (first second : list nat) (body : Z -> M unit) (w : world) :
  for_each (first ++ second) body w
  = for_each second body (snd (for_each first body w)).
Proof.
  revert w. induction first as [| i first IH]; intros w; [reflexivity |].
  cbn [app for_each]. unfold bind.
  destruct (body (Z.of_nat i) w) as [[] w1]. apply IH.
Qed.

(** The last step of a trajectory posts the target itself. *)
Lemma smooth_step_last (start_x start_y end_x end_y steps : Z) (w : world) :
  (0 < steps)%Z ->
  cursor (snd (smooth_step H start_x start_y end_x end_y steps steps w))
  = (end_x, end_y).
Proof.
  intros Hsteps. unfold smooth_step, bind.
  destruct (_add_trail_point H _ _ w) as [[] w1].
  unfold post_mouse_moved, sleep, emit. cbn [snd cursor].
  assert (Hone : (inject_Z steps / inject_Z steps == 1)%Q).
  { apply Qmult_inv_r. unfold Qeq. cbn. lia. }
  f_equal; apply py_int_of_integer; rewrite Hone; ring.
Qed.

(** A motion of five points or more leaves the pointer on its target. *)
Lemma smooth_move_mouse_reaches (start_x start_y end_x end_y : Z) (w : world) :
  QUARTZ_AVAILABLE H = true ->
  (25 <= (end_x - start_x) ^ 2 + (end_y - start_y) ^ 2)%Z ->
  cursor (snd (smooth_move_mouse H start_x start_y end_x end_y w)) = (end_x, end_y).
Proof.
  intros Hquartz Hfar. unfold smooth_move_mouse. rewrite Hquartz. cbn [negb].
  destruct (Z.ltb_spec ((end_x - start_x) ^ 2 + (end_y - start_y) ^ 2) 25) as [Hnear |_];
    [lia |].
  set (steps := Z.max 10 (Z.sqrt ((end_x - start_x) ^ 2 + (end_y - start_y) ^ 2) / 15)).
  assert (Hsteps : (10 <= steps)%Z) by (subst steps; lia).
  rewrite Nat.add_1_r, seq_S, for_each_app. cbn [for_each plus].
  unfold bind at 1. rewrite Z2Nat.id by lia.
  destruct (smooth_step H start_x start_y end_x end_y steps steps _) as [[] w1] eqn:Hlast.
  change w1 with (snd (tt, w1)). rewrite <- Hlast.
  apply smooth_step_last. lia.
Qed.

(** [hover] and [move_mouse] leave the pointer on the uncalibrated point
    whenever they move it at all. *)
Lemma hover_reaches_uncalibrated_point (x_ratio y_ratio : Q) (w : world) :
  QUARTZ_AVAILABLE H = true ->
  let '(px, py) := _transform_coords H x_ratio y_ratio in
  (25 <= (px - fst (cursor w)) ^ 2 + (py - snd (cursor w)) ^ 2)%Z ->
  cursor (snd (hover H x_ratio y_ratio w)) = (px, py)
  /\ cursor (snd (move_mouse H x_ratio y_ratio w)) = (px, py).
Proof.
  intros Hquartz. destruct (_transform_coords H x_ratio y_ratio) as [px py] eqn:Hpoint.
  intros Hfar. unfold hover, move_mouse. rewrite Hquartz, Hpoint. cbn [negb].
  unfold bind, get_current_mouse_position. rewrite Hquartz.
  destruct (cursor w) as [cx cy] eqn:Hcursor. cbn [fst snd] in Hfar.
  destruct (_add_trail_point H cx cy w) as [[] w1].
  pose proof (smooth_move_mouse_reaches cx cy px py w1 Hquartz Hfar) as Hreach.
  destruct (smooth_move_mouse H cx cy px py w1) as [[] w2]. cbn [snd] in Hreach.
  split; [| exact Hreach].
  unfold sleep, emit. cbn. exact Hreach.
Qed.

Lemma last_pointer_event_app (first second : list event) (seen : option (Z * Z)) :
  Props.last_pointer_event (first ++ second) seen
  = Props.last_pointer_event second (Props.last_pointer_event first seen).
Proof.
  revert seen. induction first as [| e first IH]; intros seen; [reflexivity |].
  destruct e; cbn; apply IH.
Qed.

Lemma press_twice_trace (px py : Z) (w : world) :
  trace (snd (press_twice px py w))
  = trace w ++ [ LeftMouseDown px py; Sleep (1 # 20); LeftMouseUp px py;
                 Sleep (1 # 10); LeftMouseDown px py; Sleep (1 # 20);
                 LeftMouseUp px py; Sleep (1 # 10) ].
Proof.
  unfold press_twice, bind, sleep, emit. cbn. now rewrite <- !app_assoc.
Qed.

(** [double_click] presses at the calibrated point, wherever the pointer
    was. *)
Lemma double_click_presses_calibrated_point (x_ratio y_ratio : Q) (w : world) :
  QUARTZ_AVAILABLE H = true ->
  Props.last_pointer_event (trace (snd (double_click H x_ratio y_ratio w))) None
  = Some (Props.calibrated_point H x_ratio y_ratio).
Proof.
  intros Hquartz. unfold double_click, Props.calibrated_point.
  rewrite Hquartz. cbn [negb].
  destruct (_transform_coords H x_ratio y_ratio) as [px0 py0].
  destruct (calibrate_click_position H px0 py0) as [px py].
  unfold bind at 1. destruct (get_current_mouse_position H w) as [[cx cy] w1].
  unfold bind at 1. destruct (smooth_move_mouse H cx cy px py w1) as [[] w2].
  unfold bind at 1. destruct (sleep (2 # 10) w2) as [[] w3].
  unfold bind at 1. destruct (get_current_mouse_position H w3) as [[fx fy] w4].
  unfold bind at 1.
  destruct ((if (2 <? Z.abs (fx - px))%Z || (2 <? Z.abs (fy - py))%Z
             then _ else ret tt) w4) as [[] w5].
  now rewrite press_twice_trace, last_pointer_event_app.
Qed.

End Motion.

(** *** Calibration across the pointer operations *)

(** C4 at a failing input.  [hover] and [move_mouse] never read the
    calibration offsets: they run alike under any two settings of them
    (and leave the pointer on the uncalibrated point,
    [hover_reaches_uncalibrated_point], where [double_click] presses on
    the calibrated one, [double_click_presses_calibrated_point]).  On a
    1920 by 1080 screen with offset (10, -3) and the pointer at the
    origin, both end their motion at the uncalibrated point (960, 540),
    where [left_click] and [double_click] end at (970, 537). *)
Theorem C4_hover_and_move_skip_calibration :
  (forall H offset_x offset_y x_ratio y_ratio w,
      Harvey.hover (Props.with_offsets offset_x offset_y H) x_ratio y_ratio w
      = Harvey.hover H x_ratio y_ratio w
      /\ Harvey.move_mouse (Props.with_offsets offset_x offset_y H) x_ratio y_ratio w
         = Harvey.move_mouse H x_ratio y_ratio w)
  /\ let H := Props.full_hd 10 (-3) in
     let w := Harvey.initial_world (0, 0)%Z in
     let final op := Props.last_pointer_event (Harvey.trace (snd (op H (1 # 2) (1 # 2) w))) None in
     Props.calibrated_point H (1 # 2) (1 # 2) = (970, 537)%Z
     /\ final Harvey.hover = Some (960, 540)%Z
     /\ final Harvey.move_mouse = Some (960, 540)%Z
     /\ final Harvey.left_click = Some (970, 537)%Z
     /\ final Harvey.double_click = Some (970, 537)%Z.
Proof.
  split.
  - intros H offset_x offset_y x_ratio y_ratio w. split; reflexivity.
  - vm_compute. repeat split.
Qed.

(** *** Credential pool *)

Section CredentialPool.
Import ApiManager.

Lemma filter_set_no_credentials (getenv : environ) :
  Props.no_credentials getenv -> filter_set (configured getenv) = [].
Proof.
  intros Hnone. unfold configured.
  assert (Hstep : forall name rest k,
             In name Props.pool_variables ->
             filter_set ((k, getenv name) :: rest) = filter_set rest).
  { intros name rest k Hin. destruct (Hnone name Hin) as [-> | ->]; reflexivity. }
  rewrite !Hstep; [reflexivity | unfold Props.pool_variables; cbn; tauto ..].
Qed.

Lemma empty_pool_unavailable (now : Q) (service_type : string) (m : APIKeyManager) :
  api_keys m = [] ->
  get_available_key now service_type m = (None, m, [AllRateLimited]).
Proof.
  intros Hempty. unfold get_available_key, get_key_for_service, completion_keys,
    fallback_key. rewrite Hempty. cbn.
  destruct (String.eqb service_type "voice"),
           (String.eqb service_type "flash"),
           (String.eqb service_type "completion"); cbn; now rewrite ?Hempty.
Qed.

End CredentialPool.

(** C3, as the code has it: with no credential value configured the pool
    is constructed all the same, empty, after one printed diagnostic; the
    caller first observes the condition when an acquire returns [None]. *)
Theorem C3_empty_pool_is_constructed (getenv : ApiManager.environ) :
  Props.no_credentials getenv ->
  exists m,
    ApiManager.api_manager getenv = (Returns m, [ApiManager.NoKeysFound])
    /\ ApiManager.api_keys m = []
    /\ forall now service_type,
         ApiManager.get_available_key now service_type m
         = (None, m, [ApiManager.AllRateLimited]).
Proof.
  intros Hnone.
  unfold ApiManager.api_manager, ApiManager.init, ApiManager.load_api_keys.
  rewrite (filter_set_no_credentials getenv Hnone).
  eexists. split; [reflexivity |]. split; [reflexivity |].
  intros now service_type. now apply empty_pool_unavailable.
Qed.

Lemma C3_empty_pool_is_constructed_witness :
  exists m,
    ApiManager.api_manager (fun _ => None) = (Returns m, [ApiManager.NoKeysFound])
    /\ ApiManager.api_keys m = []
    /\ forall now service_type,
         ApiManager.get_available_key now service_type m
         = (None, m, [ApiManager.AllRateLimited]).
Proof.
  apply (C3_empty_pool_is_constructed (fun _ => None)).
  intros name _. left. reflexivity.
Defined.

(** C3, as the spec words it, fails on the empty environment: the
    constructor raises nothing. *)
Lemma C3_counterexample :
  Props.no_credentials (fun _ => None)
  /\ ~ exists exc, fst (ApiManager.api_manager (fun _ => None)) = Raises exc.
Proof.
  split.
  - intros name _. now left.
  - intros [exc Hexc]. cbn in Hexc. discriminate Hexc.
Qed.

Section Rotation.
Import ApiManager.

Lemma dict_get_In (d : list (string * string)) (k v : string) :
  List.NoDup (dict_keys d) -> In (k, v) d -> dict_get k d = Some v.
Proof.
  induction d as [| [k' v'] d IH]; intros Hnodup Hin; [destruct Hin |].
  cbn in Hnodup. apply NoDup_cons_iff in Hnodup as [Hfresh Hnodup].
  cbn. destruct Hin as [Heq | Hin].
  - injection Heq as -> ->. now rewrite String.eqb_refl.
  - destruct (String.eqb_spec k k') as [-> | Hne]; [| now apply IH].
    exfalso. apply Hfresh. unfold dict_keys.
    change k' with (fst (k', v)). now apply in_map.
Qed.

Lemma filter_dict_keys (P : string -> bool) (d : list (string * string)) :
  List.filter P (dict_keys d) = dict_keys (List.filter (fun kv => P (fst kv)) d).
Proof.
  unfold dict_keys. induction d as [| [k v] d IH]; [reflexivity |].
  cbn. destruct (P k); cbn; now rewrite IH.
Qed.

Lemma completion_keys_members (m : APIKeyManager) :
  length (completion_keys m) = length (Props.members m).
Proof.
  unfold completion_keys, Props.members. rewrite filter_dict_keys.
  unfold dict_keys, dict_values. now rewrite !length_map.
Qed.

(** The name under the cursor leads to the member under the cursor. *)
Lemma member_under_cursor (m : APIKeyManager) (i : nat) :
  List.NoDup (dict_keys (api_keys m)) ->
  (i < length (Props.members m))%nat ->
  exists key_name,
    nth_error (completion_keys m) i = Some key_name
    /\ dict_get key_name (api_keys m) = Some (nth i (Props.members m) EmptyString).
Proof.
  intros Hnodup Hi. unfold completion_keys, Props.members in *.
  rewrite filter_dict_keys. unfold dict_keys, dict_values in *.
  set (group := List.filter (fun kv => startswith "completion" (fst kv)) (api_keys m)) in *.
  rewrite length_map in Hi.
  destruct (nth_error group i) as [[k v] |] eqn:Hnth.
  2:{ apply nth_error_None in Hnth. lia. }
  exists k. split.
  - now rewrite nth_error_map, Hnth.
  - rewrite (nth_indep _ EmptyString (snd (EmptyString, EmptyString))).
    2:{ now rewrite length_map. }
    rewrite map_nth. rewrite (nth_error_nth _ _ _ Hnth). cbn.
    apply dict_get_In; [exact Hnodup |].
    apply nth_error_In in Hnth. subst group.
    now apply filter_In in Hnth as [Hin _].
Qed.

Lemma get_key_for_completion (m : APIKeyManager) :
  List.NoDup (dict_keys (api_keys m)) ->
  Props.members m <> [] ->
  get_key_for_service "completion" m
  = (Some (nth (current_key_index m mod length (Props.members m))
               (Props.members m) EmptyString),
     Props.with_cursor (current_key_index m + 1) m).
Proof.
  intros Hnodup Hgroup.
  assert (Hk : (0 < length (Props.members m))%nat).
  { destruct (Props.members m); [congruence | cbn; lia]. }
  pose proof (completion_keys_members m) as Hlen.
  destruct (member_under_cursor m
              (current_key_index m mod length (Props.members m)) Hnodup)
    as (key_name & Hname & Hvalue).
  { apply Nat.mod_upper_bound. lia. }
  unfold get_key_for_service.
  change (String.eqb "completion" "voice") with false.
  change (String.eqb "completion" "flash") with false.
  change (String.eqb "completion" "completion") with true. cbv iota.
  destruct (completion_keys m) as [| name names] eqn:Hkeys.
  { cbn in Hlen. lia. }
  rewrite Hlen, Hname, Hvalue. reflexivity.
Qed.

Lemma members_in_values (m : APIKeyManager) (v : string) :
  In v (Props.members m) -> In v (dict_values (api_keys m)).
Proof.
  unfold Props.members, dict_values. rewrite !in_map_iff.
  intros (kv & <- & Hin). exists kv. split; [reflexivity |].
  now apply filter_In in Hin as [Hin _].
Qed.

(** One acquire for the rotation group when the member under the cursor
    is available. *)
Lemma acquire_member (now : Q) (m : APIKeyManager) :
  Props.well_formed m ->
  Props.members m <> [] ->
  let selected := nth (current_key_index m mod length (Props.members m))
                      (Props.members m) EmptyString in
  is_key_available now selected m = true ->
  get_available_key now "completion" m
  = (Some selected, Props.with_cursor (current_key_index m + 1) m, []).
Proof.
  intros [Hnodup Htruthy] Hgroup selected Havailable.
  unfold get_available_key. rewrite (get_key_for_completion m Hnodup Hgroup).
  fold selected.
  assert (Hin : In selected (Props.members m)).
  { apply nth_In. apply Nat.mod_upper_bound.
    destruct (Props.members m); [congruence | cbn; lia]. }
  apply members_in_values in Hin.
  rewrite List.Forall_forall in Htruthy. rewrite (Htruthy _ Hin).
  change (is_key_available now selected (Props.with_cursor (current_key_index m + 1) m))
    with (is_key_available now selected m).
  now rewrite Havailable.
Qed.

(** One acquire for the rotation group when the member under the cursor
    is throttled: the scan of the whole pool decides. *)
Lemma acquire_throttled_member (now : Q) (m : APIKeyManager) :
  Props.well_formed m ->
  Props.members m <> [] ->
  let selected := nth (current_key_index m mod length (Props.members m))
                      (Props.members m) EmptyString in
  is_key_available now selected m = false ->
  fst (get_available_key now "completion" m)
  = (first_available now m (dict_values (api_keys m)),
     Props.with_cursor (current_key_index m + 1) m).
Proof.
  intros [Hnodup Htruthy] Hgroup selected Hthrottled.
  unfold get_available_key. rewrite (get_key_for_completion m Hnodup Hgroup).
  fold selected.
  change (is_key_available now selected (Props.with_cursor (current_key_index m + 1) m))
    with (is_key_available now selected m).
  rewrite Hthrottled, andb_false_r.
  change (api_keys (Props.with_cursor (current_key_index m + 1) m)) with (api_keys m).
  assert (Hscan : forall values,
             first_available now (Props.with_cursor (current_key_index m + 1) m) values
             = first_available now m values).
  { induction values as [| v values IH]; [reflexivity |]. cbn.
    change (is_key_available now v (Props.with_cursor (current_key_index m + 1) m))
      with (is_key_available now v m).
    now rewrite IH. }
  rewrite Hscan. now destruct (first_available now m (dict_values (api_keys m))).
Qed.

Lemma rotate_nat_add_mod (c i k : nat) :
  rotate_nat_add c i k = ((c + i) mod k)%nat.
Proof.
  unfold rotate_nat_add.
  now rewrite <- Nat2Z.inj_add, <- Nat2Z.inj_mod, Nat2Z.id.
Qed.

(** [n] acquires in a row, every member being available throughout:
    call [i] returns the member at [(c + i) mod k]. *)
Lemma acquire_many_members (nows : list Q) (m : APIKeyManager) :
  Props.well_formed m ->
  Props.members m <> [] ->
  (forall now v, In now nows -> In v (Props.members m) ->
                 is_key_available now v m = true) ->
  acquire_many nows "completion" m
  = (map (fun i => Some (nth ((current_key_index m + i) mod length (Props.members m))
                             (Props.members m) EmptyString))
         (seq 0 (length nows)),
     Props.with_cursor (current_key_index m + length nows) m).
Proof.
  revert m. induction nows as [| now later IH]; intros m Hwf Hgroup Havailable.
  - cbn. rewrite Nat.add_0_r. now destruct m.
  - cbn [acquire_many length].
    assert (Hk : (0 < length (Props.members m))%nat).
    { destruct (Props.members m); [congruence | cbn; lia]. }
    rewrite (acquire_member now m Hwf Hgroup).
    2:{ apply Havailable; [now left |]. apply nth_In.
        apply Nat.mod_upper_bound. lia. }
    rewrite (IH (Props.with_cursor (current_key_index m + 1) m)); try assumption.
    2:{ intros now' v Hnow Hv. change (is_key_available now' v m = true).
        apply Havailable; [now right | exact Hv]. }
    change (Props.members (Props.with_cursor (current_key_index m + 1) m))
      with (Props.members m).
    cbn [current_key_index Props.with_cursor seq map].
    rewrite Nat.add_0_r. f_equal.
    + f_equal. rewrite <- seq_shift, map_map.
      apply map_ext. intros i. do 3 f_equal. lia.
    + unfold Props.with_cursor. cbn. f_equal. lia.
Qed.

(** The pool [load_api_keys] builds is well formed, and no operation
    changes the dict afterwards. *)
Lemma filter_set_keys (d : list (string * option string)) (k : string) :
  In k (dict_keys (filter_set d)) -> In k (map fst d).
Proof.
  induction d as [| [k' [v |]] d IH]; cbn; [tauto | |].
  - destruct (truthy v); cbn; tauto.
  - tauto.
Qed.

Lemma filter_set_well_formed (d : list (string * option string)) :
  List.NoDup (map fst d) ->
  List.NoDup (dict_keys (filter_set d))
  /\ List.Forall (fun v => truthy v = true) (dict_values (filter_set d)).
Proof.
  induction d as [| [k [v |]] d IH]; cbn; intros Hnodup.
  - split; constructor.
  - apply NoDup_cons_iff in Hnodup as [Hfresh Hnodup].
    destruct (IH Hnodup) as [Hkeys Hvalues].
    destruct (truthy v) eqn:Hv; [| now split].
    split; cbn; constructor; try assumption.
    intros Hin. apply Hfresh. now apply filter_set_keys.
  - apply NoDup_cons_iff in Hnodup as [_ Hnodup]. now apply IH.
Qed.

Lemma loaded_pool_well_formed (getenv : environ) (m : APIKeyManager)
    (out : list diagnostic) :
  init getenv = (Returns m, out) -> Props.well_formed m.
Proof.
  unfold init, load_api_keys.
  destruct (filter_set_well_formed (configured getenv)) as [Hkeys Hvalues].
  { cbn. repeat constructor; cbn; intuition discriminate. }
  destruct (filter_set (configured getenv)) as [| item items];
    intros [= <- _]; now split.
Qed.

Lemma get_available_key_keeps_pool (now : Q) (service_type : string)
    (m : APIKeyManager) :
  api_keys (snd (fst (get_available_key now service_type m))) = api_keys m
  /\ usage_tracker (snd (fst (get_available_key now service_type m)))
     = usage_tracker m.
Proof.
  unfold get_available_key.
  assert (Hkeep : api_keys (snd (get_key_for_service service_type m)) = api_keys m
                  /\ usage_tracker (snd (get_key_for_service service_type m))
                     = usage_tracker m).
  { unfold get_key_for_service.
    destruct (String.eqb service_type "voice"), (dict_get "voice" (api_keys m)),
      (String.eqb service_type "flash"), (dict_get "flash" (api_keys m)),
      (String.eqb service_type "completion"); try (now split);
      destruct (completion_keys m) as [| name names]; try (now split);
      now destruct (nth_error _ _). }
  destruct (get_key_for_service service_type m) as [preferred m']. cbn [snd] in Hkeep.
  destruct (match preferred with Some k => _ | None => false end); [exact Hkeep |].
  now destruct (first_available now m' (dict_values (api_keys m'))).
Qed.

End Rotation.

(** C5, as the code has it: for a rotation group of size [k >= 1] whose
    cursor is [c], an acquire for the role selects the member at
    [c mod k] and moves the cursor to [c + 1] whether or not that member
    is available; it returns the selected member when it is available,
    and otherwise the first available value of the whole pool in
    insertion order; and [k] acquires in a row, no member being
    throttled, return the group rotated by [c], each member once, and
    leave the cursor at [c + k]. *)
Theorem C5_rotation_is_cyclic (m : ApiManager.APIKeyManager) (nows : list Q) :
  Props.well_formed m ->
  Props.members m <> [] ->
  let group := Props.members m in
  let c := ApiManager.current_key_index m in
  let selected := nth (c mod length group) group EmptyString in
  ApiManager.get_key_for_service "completion" m
    = (Some selected, Props.with_cursor (c + 1) m)
  /\ (forall now,
        ApiManager.is_key_available now selected m = true ->
        ApiManager.get_available_key now "completion" m
        = (Some selected, Props.with_cursor (c + 1) m, []))
  /\ (forall now,
        ApiManager.is_key_available now selected m = false ->
        fst (ApiManager.get_available_key now "completion" m)
        = (ApiManager.first_available now m
             (ApiManager.dict_values (ApiManager.api_keys m)),
           Props.with_cursor (c + 1) m))
  /\ (length nows = length group ->
      (forall now v, In now nows -> In v group ->
                     ApiManager.is_key_available now v m = true) ->
      ApiManager.acquire_many nows "completion" m
        = (Some <$> rotate c group, Props.with_cursor (c + length group) m)
      /\ Permutation (rotate c group) group).
Proof.
  intros Hwf Hgroup group c selected. split; [| split; [| split]].
  - apply get_key_for_completion; [apply Hwf | exact Hgroup].
  - intros now Havailable. now apply acquire_member.
  - intros now Hthrottled. now apply acquire_throttled_member.
  - intros Hlength Havailable. split.
    + rewrite (acquire_many_members nows m Hwf Hgroup Havailable).
      rewrite Hlength. fold group c. f_equal.
      apply list_eq. intros i. rewrite !list_lookup_fmap.
      destruct (decide (i < length group)%nat) as [Hi | Hi].
      * rewrite lookup_rotate_r by exact Hi. rewrite rotate_nat_add_mod.
        assert (Hj : ((c + i) mod length group < length group)%nat).
        { apply Nat.mod_upper_bound. lia. }
        rewrite lookup_seq_lt by exact Hi. cbn.
        destruct (lookup_lt_is_Some_2 group _ Hj) as [v Hv].
        rewrite Hv. cbn. do 2 f_equal.
        now apply nth_lookup_Some with (d := EmptyString) in Hv.
      * rewrite (lookup_ge_None_2 (rotate c group)) by (rewrite length_rotate; lia).
        rewrite (lookup_ge_None_2 (seq 0 (length group))) by (rewrite length_seq; lia).
        reflexivity.
    + unfold rotate. rewrite Permutation_app_comm. now rewrite take_drop.
Qed.

Lemma C5_rotation_is_cyclic_witness :
  ApiManager.acquire_many [0; 0]%Q "completion" Props.sample_pool
  = ([Some "A"; Some "B"], Props.with_cursor 2 Props.sample_pool).
Proof.
  assert (Hwf : Props.well_formed Props.sample_pool).
  { split; cbn.
    - repeat constructor; cbn; intuition discriminate.
    - repeat constructor. }
  assert (Hgroup : Props.members Props.sample_pool <> []) by discriminate.
  destruct (C5_rotation_is_cyclic Props.sample_pool [0; 0]%Q Hwf Hgroup)
    as (_ & _ & _ & Hcycle).
  destruct Hcycle as [Hmany _]; [reflexivity | reflexivity |].
  exact Hmany.
Defined.

(** C5, as the spec words it, fails once a member is throttled: with the
    first completion key throttled and the second one available, the
    acquire returns the voice key, which is no member of the group. *)
Lemma C5_counterexample :
  ApiManager.is_key_available 1 "B" Props.throttled_pool = true
  /\ In "B" (Props.members Props.throttled_pool)
  /\ fst (fst (ApiManager.get_available_key 1 "completion" Props.throttled_pool))
     = Some "V"
  /\ ~ In "V" (Props.members Props.throttled_pool).
Proof.
  split; [reflexivity |]. split; [cbn; tauto |]. split; [reflexivity |].
  cbn. intuition discriminate.
Qed.

(** *** Pointer trail *)

Section Trail.
Import Harvey.

Lemma fade_existing_snoc (points : list trail_point) (newest : trail_point) :
  fade_existing (points ++ [newest]) = map fade points ++ [newest].
Proof.
  induction points as [| p points IH]; [reflexivity |].
  cbn [app map]. rewrite <- IH. cbn [fade_existing].
  now destruct (points ++ [newest]) eqn:Hsnoc; [destruct points; discriminate |].
Qed.

Lemma last_n_snoc (points : list trail_point) (newest : trail_point) :
  (if (_MAX_TRAIL_POINTS <? length (points ++ [newest]))%nat
   then last_n _MAX_TRAIL_POINTS (points ++ [newest])
   else points ++ [newest])
  = last_n 14 points ++ [newest].
Proof.
  unfold last_n, _MAX_TRAIL_POINTS. rewrite length_app. cbn [length].
  destruct (Nat.ltb_spec 15 (length points + 1)) as [Hlong | Hshort].
  - rewrite skipn_app.
    replace (length points + 1 - 15)%nat with (length points - 14)%nat by lia.
    replace (length points - 14 - length points)%nat with 0%nat by lia.
    reflexivity.
  - replace (length points - 14)%nat with 0%nat by lia. reflexivity.
Qed.

(** The insertion, in closed form: floor filter, the newest fourteen of
    what passes, each faded once, then the fresh point. *)
Lemma insert_trail_point_closed (px py : Z) (points : list trail_point) :
  insert_trail_point px py points
  = map fade (last_n 14 (List.filter Props.above_floor points))
    ++ [Props.fresh_point px py].
Proof.
  unfold insert_trail_point. rewrite List.filter_app. cbn [List.filter].
  change (flt (1 # 10) (opacity {| x := px; y := py; opacity := 1; size := 8 |}))
    with true. cbv iota.
  rewrite (last_n_snoc (List.filter _ points)). apply fade_existing_snoc.
Qed.






End Trail.



(** *** Reply parser *)

Section Parser.
Import Harvey.

Lemma occurs_truthy (c : ascii) (s : string) : Props.occurs c s -> truthy s = true.
Proof. destruct s; [intros [] | reflexivity]. Qed.

Lemma prefix_occurs (c : ascii) (word s : string) :
  startswith (String c word) s = true -> Props.occurs c s.
Proof.
  unfold startswith. destruct s as [| d s]; cbn; [discriminate |].
  destruct (ascii_dec c d) as [-> | Hne]; [now left | discriminate].
Qed.

Lemma contains_occurs (c : ascii) (word s : string) :
  contains (String c word) s = true -> Props.occurs c s.
Proof.
  induction s as [| d s IH]; intros Hin.
  - cbn in Hin. discriminate.
  - cbn [contains] in Hin. apply orb_true_iff in Hin as [Hhere | Hlater].
    + now apply prefix_occurs in Hhere.
    + right. now apply IH.
Qed.

Lemma remove_char_occurs (c d : ascii) (s : string) :
  c <> d -> Props.occurs c s -> Props.occurs c (remove_char d s).
Proof.
  intros Hne. induction s as [| e s IH]; [intros [] |].
  intros [-> | Hlater]; cbn [remove_char].
  - destruct (Ascii.eqb_spec d e) as [<- | _]; [congruence | now left].
  - destruct (Ascii.eqb d e); [now apply IH | right; now apply IH].
Qed.

Lemma lstrip_occurs (c : ascii) (s : string) :
  isspace c = false -> Props.occurs c s -> Props.occurs c (lstrip s).
Proof.
  intros Hc. induction s as [| d s IH]; [intros [] |].
  intros Hin. cbn [lstrip]. destruct (isspace d) eqn:Hd; [| exact Hin].
  destruct Hin as [-> | Hlater]; [congruence | now apply IH].
Qed.

Lemma rstrip_occurs (c : ascii) (s : string) :
  isspace c = false -> Props.occurs c s -> Props.occurs c (rstrip s).
Proof.
  intros Hc. induction s as [| d s IH]; [intros [] |].
  intros Hin. cbn [rstrip]. destruct Hin as [-> | Hlater].
  - destruct (rstrip s); [rewrite Hc |]; now left.
  - specialize (IH Hlater). destruct (rstrip s); [destruct IH | now right].
Qed.

Lemma strip_occurs (c : ascii) (s : string) :
  isspace c = false -> Props.occurs c s -> Props.occurs c (strip s).
Proof. intros Hc Hin. unfold strip. now apply rstrip_occurs, lstrip_occurs. Qed.

(** A line that contains a command name is not emptied by the removal of
    backticks and surrounding blanks. *)
Lemma cleaned_command_line_truthy (line : string) :
  Props.names_command line = true ->
  truthy (strip (remove_char "`"%char line)) = true.
Proof.
  unfold Props.names_command, fallback_commands. cbn [existsb].
  rewrite !orb_true_iff. intros Hnamed.
  assert (Hletter : exists c, isspace c = false /\ c <> "`"%char /\ Props.occurs c line).
  { repeat destruct Hnamed as [Hnamed | Hnamed]; try discriminate;
      apply contains_occurs in Hnamed;
      eexists; (split; [| split; [| exact Hnamed]]);
      first [reflexivity | intros Heq; discriminate Heq]. }
  destruct Hletter as (c & Hspace & Htick & Hin).
  apply (occurs_truthy c). apply strip_occurs; [exact Hspace |].
  now apply remove_char_occurs.
Qed.

(** Without a labelled action line the loop of [think] is the fallback
    alone. *)
Lemma scan_lines_without_label (lines : list string) (see : string) :
  Forall (fun raw => Props.labelled_action (strip raw) = false) lines ->
  snd (scan_lines lines see EmptyString)
  = match Props.fallback_choice lines see with
    | Some line => line
    | None => EmptyString
    end.
Proof.
  intros Hnone. revert see.
  induction Hnone as [| raw later Hraw _ IH]; intros see; [reflexivity |].
  cbn [scan_lines Props.fallback_choice]. unfold Props.observation.
  unfold Props.labelled_action in Hraw.
  apply orb_false_iff in Hraw as [Hplain Hbold].
  destruct (startswith "See:" (strip raw)); [apply IH |].
  rewrite Hplain.
  destruct (startswith "**See:**" (strip raw)); [apply IH |].
  rewrite Hbold. cbn [truthy negb]. rewrite andb_true_r.
  unfold Props.names_command.
  destruct (negb (truthy see)), (truthy (strip raw)),
    (negb (startswith "**" (strip raw))); cbn [andb]; try apply IH.
  destruct (existsb _ fallback_commands); [reflexivity | apply IH].
Qed.

Lemma fallback_choice_named (lines : list string) (see line : string) :
  Props.fallback_choice lines see = Some line -> Props.names_command line = true.
Proof.
  revert see. induction lines as [| raw later IH]; intros see; [discriminate |].
  cbn [Props.fallback_choice].
  destruct (Props.observation (strip raw)); [apply IH |].
  destruct (negb (truthy see) && truthy (strip raw)
            && negb (startswith "**" (strip raw))); cbn [andb]; [| apply IH].
  destruct (Props.names_command (strip raw)) eqn:Hnamed; [| apply IH].
  now intros [= <-].
Qed.

Lemma parse_reply_truthy (reply : string) : truthy (snd (parse_reply reply)) = true.
Proof.
  unfold parse_reply.
  destruct (scan_lines _ _ _) as [see action]. cbn [snd].
  destruct (truthy action) eqn:Haction.
  - now destruct (truthy (strip (remove_char "`"%char action))) eqn:Hclean.
  - now rewrite Haction.
Qed.

Lemma parse_reply_without_label (reply : string) :
  Props.no_labelled_action reply ->
  snd (parse_reply reply)
  = match Props.fallback_choice (split_lines (strip reply)) EmptyString with
    | Some line => strip (remove_char "`"%char line)
    | None => "wait(1000)"
    end.
Proof.
  intros Hnone. unfold parse_reply.
  pose proof (scan_lines_without_label _ EmptyString Hnone) as Hscan.
  destruct (scan_lines _ _ _) as [see action]. cbn [snd] in *. subst action.
  destruct (Props.fallback_choice _ _) as [line |] eqn:Hchoice; [| reflexivity].
  pose proof (fallback_choice_named _ _ _ Hchoice) as Hnamed.
  pose proof (cleaned_command_line_truthy line Hnamed) as Hclean.
  assert (Hline : truthy line = true).
  { unfold Props.names_command, fallback_commands in Hnamed. cbn [existsb] in Hnamed.
    destruct line; [cbn in Hnamed; discriminate | reflexivity]. }
  now rewrite Hline, Hclean.
Qed.

(** A reply none of whose lines contains a command name offers the
    fallback nothing. *)
Lemma no_command_no_fallback (reply : string) :
  Props.first_command_line reply = None ->
  forall see, Props.fallback_choice (split_lines (strip reply)) see = None.
Proof.
  unfold Props.first_command_line. intros Hfind.
  assert (Hnone : forall raw, In raw (split_lines (strip reply)) ->
                              Props.names_command (strip raw) = false).
  { intros raw Hin. apply (find_none _ _ Hfind). now apply in_map. }
  clear Hfind. induction (split_lines (strip reply)) as [| raw later IH];
    intros see; [reflexivity |].
  cbn [Props.fallback_choice].
  rewrite (Hnone raw) by now left. rewrite andb_false_r.
  destruct (Props.observation (strip raw)); apply IH;
    intros raw' Hin; apply Hnone; now right.
Qed.

End Parser.

(** C6, as the code has it: in a reply without a labelled action line the
    fallback accepts the first line that is non-empty, does not start
    with two asterisks and contains one of the names left_click,
    type_text, bulk_type, hotkey, done, wait, scroll, among the lines read
    while no observation text is in force; the action is that line
    without backticks and surrounding blanks.  When no line qualifies the
    action is wait(1000). *)
Theorem C6_fallback_accepts_guarded_line (reply : string) :
  Props.no_labelled_action reply ->
  match Props.fallback_choice (split_lines (strip reply)) EmptyString with
  | Some line =>
      Props.names_command line = true
      /\ snd (Harvey.parse_reply reply) = strip (remove_char "`"%char line)
  | None => snd (Harvey.parse_reply reply) = "wait(1000)"
  end.
Proof.
  intros Hnone. pose proof (parse_reply_without_label reply Hnone) as Hparse.
  destruct (Props.fallback_choice _ _) as [line |] eqn:Hchoice; [| exact Hparse].
  split; [| exact Hparse]. now apply fallback_choice_named in Hchoice.
Qed.

Lemma C6_fallback_accepts_guarded_line_witness :
  Props.names_command "I will left_click(0.5, 0.5) `now`" = true
  /\ snd (Harvey.parse_reply "I will left_click(0.5, 0.5) `now`")
     = "I will left_click(0.5, 0.5) now".
Proof.
  apply (C6_fallback_accepts_guarded_line "I will left_click(0.5, 0.5) `now`").
  repeat constructor.
Defined.

(** C6, as the spec words it, fails after an observation line: the second
    line of this reply contains left_click, no line is a labelled action,
    and the parser answers wait(1000). *)
Lemma C6_counterexample :
  let reply := ("See: Safari open" ++ newline ++ "left_click(0.5, 0.5)")%string in
  Props.no_labelled_action reply
  /\ Props.first_command_line reply = Some "left_click(0.5, 0.5)"
  /\ snd (Harvey.parse_reply reply) = "wait(1000)"
  /\ snd (Harvey.parse_reply reply) <> "left_click(0.5, 0.5)".
Proof.
  cbv zeta. split; [repeat constructor |]. split; [reflexivity |].
  split; [reflexivity |]. vm_compute. discriminate.
Qed.

Section Executor.
Import Harvey.
Variable H : host.

Lemma after_events_app (first second : list event) (w : world) :
  Props.after_events second (Props.after_events first w)
  = Props.after_events (first ++ second) w.
Proof. unfold Props.after_events. cbn. now rewrite app_assoc. Qed.

Lemma emit_after (e : event) (w : world) :
  emit e w = (tt, Props.after_events [e] w).
Proof. reflexivity. Qed.

Lemma execute_wait_1000 (w : world) :
  execute H "wait(1000)" w
  = (false, Props.after_events [Print (Executing "wait(1000)"); Sleep 1] w).
Proof.
  unfold execute, bind, print, sleep. rewrite emit_after. cbn.
  change (_extract_number "wait(1000)") with (Some 1000%Z). cbn.
  unfold Props.after_events. cbn. now rewrite <- app_assoc.
Qed.

Lemma execute_done (w : world) :
  execute H "done()" w
  = (true, Props.after_events
             [Print (Executing "done()"); Print TaskCompletedSuccessfully] w).
Proof.
  unfold execute, bind, print. rewrite emit_after. cbn.
  unfold Props.after_events. cbn. now rewrite <- app_assoc.
Qed.

End Executor.

(** C7: when the model returns a reply with no labelled action line and
    no line the fallback accepts, [think] returns the directive
    wait(1000); executing it sleeps one second and does not end the task.
    ([parse_reply_truthy]: no reply at all parses to an empty
    directive.) *)
Theorem C7_unmatched_reply_waits (H : Harvey.host) (C : Harvey.collaborators)
    (task image reply : string) (w : Harvey.world) :
  Harvey.generate_content C (Harvey.model_calls w) task image = Returns reply ->
  Props.no_labelled_action reply ->
  Props.fallback_choice (split_lines (strip reply)) EmptyString = None ->
  fst (Harvey.think C task image w) = "wait(1000)"
  /\ forall w',
       Harvey.execute H (fst (Harvey.think C task image w)) w'
       = (false,
          Props.after_events
            [Harvey.Print (Harvey.Executing "wait(1000)"); Harvey.Sleep 1] w').
Proof.
  intros Hmodel Hnone Hchoice.
  assert (Hthink : fst (Harvey.think C task image w) = "wait(1000)").
  { pose proof (parse_reply_without_label reply Hnone) as Hparse.
    rewrite Hchoice in Hparse.
    unfold Harvey.think, Harvey.bind, Harvey.call_model. rewrite Hmodel.
    destruct (Harvey.parse_reply reply) as [see action]. cbn [snd] in Hparse.
    subst action. now destruct (truthy see). }
  split; [exact Hthink |]. intros w'. rewrite Hthink. apply execute_wait_1000.
Qed.

Lemma C7_unmatched_reply_waits_witness :
  let C := {| Harvey.capture_to_bytes := fun _ => Some "image";
              Harvey.generate_content :=
                fun _ _ _ => Returns "I am not sure what to do next." |} in
  fst (Harvey.think C "open notes" "image" (Harvey.initial_world (0, 0)%Z))
  = "wait(1000)".
Proof.
  cbv zeta.
  apply (C7_unmatched_reply_waits (Props.full_hd 0 0) _ "open notes" "image"
           "I am not sure what to do next." (Harvey.initial_world (0, 0)%Z)).
  - reflexivity.
  - repeat constructor.
  - reflexivity.
Defined.

(** *** Argument extraction *)

Section Extraction.
Import Harvey.

Lemma append_empty (s : string) : (EmptyString ++ s)%string = s.
Proof. reflexivity. Qed.

Lemma append_String (c : ascii) (a b : string) :
  (String c a ++ b)%string = String c (a ++ b).
Proof. reflexivity. Qed.

Lemma span_app (p : ascii -> bool) (a b : string) :
  Props.all_chars p a = true -> Props.stops p b = true ->
  span p (a ++ b) = (a, b).
Proof.
  intros Ha Hb. induction a as [| c a IH].
  - rewrite append_empty. destruct b as [| d b]; [reflexivity |].
    cbn in *. now destruct (p d).
  - cbn in Ha. apply andb_true_iff in Ha as [Hc Ha].
    rewrite append_String. cbn [span]. now rewrite Hc, (IH Ha).
Qed.

Lemma span_all (p : ascii -> bool) (s : string) :
  Props.all_chars p (fst (span p s)) = true.
Proof.
  induction s as [| c s IH]; [reflexivity |].
  cbn. destruct (p c) eqn:Hc; [| reflexivity].
  destruct (span p s) as [a b]. cbn in *. now rewrite Hc.
Qed.

Lemma span_stops (p : ascii -> bool) (s : string) :
  Props.stops p (snd (span p s)) = true.
Proof.
  induction s as [| c s IH]; [reflexivity |].
  cbn. destruct (p c) eqn:Hc.
  - now destruct (span p s) as [a b].
  - cbn. now rewrite Hc.
Qed.

Lemma all_chars_app (p : ascii -> bool) (a b : string) :
  Props.all_chars p (a ++ b) = Props.all_chars p a && Props.all_chars p b.
Proof.
  induction a as [| c a IH]; [reflexivity |].
  rewrite append_String. cbn. now rewrite IH, andb_assoc.
Qed.

Lemma all_chars_impl (p q : ascii -> bool) (s : string) :
  (forall c, p c = true -> q c = true) ->
  Props.all_chars p s = true -> Props.all_chars q s = true.
Proof.
  intros Hpq. induction s as [| c s IH]; [reflexivity |].
  cbn. rewrite !andb_true_iff. intros [Hc Hs]. split; [now apply Hpq | now apply IH].
Qed.

Lemma append_assoc (a b c : string) : ((a ++ b) ++ c = a ++ (b ++ c))%string.
Proof.
  induction a as [| d a IH]; [reflexivity |].
  now rewrite !append_String, IH.
Qed.

(** *** Parsed decimals are not negative *)





(** A matched value above one is clamped to one, the other is kept. *)
Example extract_coords_above_one :
  _extract_coords "left_click(0.2, 1.4)" = Returns (Some (2 # 10, 1)%Q).
Proof. reflexivity. Qed.

Example extract_coords_two_dots :
  _extract_coords "left_click(1.2.3, 4)" = Raises "ValueError".
Proof. reflexivity. Qed.

(** *** The retry delay *)

Lemma append_empty_r (s : string) : (s ++ EmptyString)%string = s.
Proof. induction s as [| c s IH]; [reflexivity |]. now rewrite append_String, IH. Qed.

Lemma span_stopped (p : ascii -> bool) (s : string) :
  Props.stops p s = true -> span p s = (EmptyString, s).
Proof.
  destruct s as [| c s]; [reflexivity |]. cbn. intros Hc.
  apply negb_true_iff in Hc. now rewrite Hc.
Qed.

Lemma span_digits_only (s : string) :
  Props.all_chars isdigit s = true -> span isdigit s = (s, EmptyString).
Proof.
  intros Hs. rewrite <- (append_empty_r s) at 1. now apply span_app.
Qed.

Lemma nonempty_truthy (s t : string) : nonempty s = Some t -> truthy s = true.
Proof. unfold nonempty. now destruct (truthy s). Qed.

(** The group of the retry pattern is always a decimal [float] accepts. *)
Lemma retry_here_decimal (s group : string) :
  retry_here s = Some group -> exists delay, float_of_decimal group = Returns delay.
Proof.
  unfold retry_here.
  destruct (expect_word "Please retry in " s) as [s1 |]; [| discriminate].
  pose proof (span_all isdigit s1) as Hwhole.
  pose proof (span_stops isdigit s1) as Hstop.
  destruct (span isdigit s1) as [whole s2]. cbn [fst snd] in *.
  destruct (nonempty whole) as [w' |] eqn:Hnonempty; [| discriminate].
  apply nonempty_truthy in Hnonempty.
  destruct (expect "."%char s2) as [s3 |] eqn:Hdot.
  - pose proof (span_all isdigit s3) as Hfraction.
    destruct (span isdigit s3) as [fraction s4]. cbn [fst] in Hfraction.
    destruct (expect "s"%char s4); [| discriminate]. intros [= <-].
    unfold float_of_decimal.
    rewrite (span_app isdigit whole); [| exact Hwhole | reflexivity].
    rewrite append_String, append_empty.
    rewrite (span_digits_only fraction Hfraction).
    cbn [truthy negb andb]. rewrite Hnonempty. cbn. eauto.
  - rewrite (span_stopped isdigit s2 Hstop).
    destruct (expect "s"%char s2); [| discriminate]. intros [= <-].
    rewrite !append_empty_r.
    unfold float_of_decimal. rewrite (span_digits_only whole Hwhole).
    rewrite Hnonempty. eauto.
Qed.

Lemma search_some {A : Type} (match_here : string -> option A) (s : string) (a : A) :
  search match_here s = Some a -> exists suffix, match_here suffix = Some a.
Proof.
  induction s as [| c s IH]; cbn [search].
  - destruct (match_here EmptyString) eqn:Hhere; [| discriminate].
    intros [= <-]. eauto.
  - destruct (match_here (String c s)) eqn:Hhere; [intros [= <-]; eauto | exact IH].
Qed.

End Extraction.

Section NegativePairs.
Import Harvey.











Lemma startswith_app (name rest : string) : startswith name (name ++ rest) = true.
Proof.
  unfold startswith. induction name as [| c name IH].
  - rewrite append_empty. now destruct rest.
  - rewrite append_String. cbn. now destruct (ascii_dec c c).
Qed.

End NegativePairs.



(** *** Rate limiting *)

(** C2 at a failing input.  The task is open notes and every model call
    fails with a rate-limit error that suggests 12.5 seconds: the loop
    sleeps 13.5 seconds and then ends the task as if it were complete,
    after a single model call. *)
Theorem C2_rate_limit_ends_the_task :
  let w := snd (Harvey.run (Props.full_hd 0 0) Props.rate_limited_model
                  "open notes" (Harvey.initial_world (0, 0)%Z)) in
  Harvey.model_calls w = 1%nat
  /\ Harvey.trace w
     = [ Harvey.Print (Harvey.Starting "open notes");
         Harvey.Print Harvey.TakingScreenshot;
         Harvey.SaveDebugScreenshot;
         Harvey.Print (Harvey.LLMError "429 RESOURCE_EXHAUSTED. Please retry in 12.5s.");
         Harvey.Print Harvey.RateLimitHit;
         Harvey.Print (Harvey.Waiting (125 # 10));
         Harvey.Sleep (27 # 2);
         Harvey.SpeakRationale "done()" EmptyString "open notes";
         Harvey.Print (Harvey.Executing "done()");
         Harvey.Print Harvey.TaskCompletedSuccessfully;
         Harvey.Print Harvey.TaskComplete;
         Harvey.Print Harvey.Finished ].
Proof. vm_compute. split; reflexivity. Qed.

(** Whatever the failure, a task that is no browser search gets the
    directive done(). *)
Lemma failure_gives_up (task error_str : string) (w : Harvey.world) :
  (contains "safari" (lower task) || contains "browser" (lower task))
  && contains "search" (lower task) = false ->
  fst (Harvey.on_model_failure task error_str w) = "done()".
Proof.
  intros Htask. unfold Harvey.on_model_failure, Harvey.bind.
  rewrite Htask.
  destruct (Harvey.print (Harvey.LLMError error_str) w) as [[] w1].
  destruct (contains "429" error_str || contains "RESOURCE_EXHAUSTED" error_str);
    [| reflexivity].
  destruct (Harvey.print Harvey.RateLimitHit w1) as [[] w2].
  destruct (search Harvey.retry_here error_str) as [group |].
  - destruct (float_of_decimal group) as [delay | exc]; [| reflexivity].
    destruct (Harvey.print (Harvey.Waiting delay) w2) as [[] w3].
    now destruct (Harvey.sleep (delay + 1) w3) as [[] w4].
  - now destruct (Harvey.sleep 10 w2) as [[] w3].
Qed.

(** What a rate-limited failure does before it answers: two lines, then
    the suggested delay plus one second, or ten seconds. *)
Lemma rate_limit_backoff (task error_str : string) (w : Harvey.world) :
  contains "429" error_str || contains "RESOURCE_EXHAUSTED" error_str = true ->
  exists backoff,
    snd (Harvey.on_model_failure task error_str w)
    = Props.after_events
        ([Harvey.Print (Harvey.LLMError error_str); Harvey.Print Harvey.RateLimitHit]
         ++ backoff) w
    /\ match search Harvey.retry_here error_str with
       | Some group =>
           exists delay,
             float_of_decimal group = Returns delay
             /\ backoff = [Harvey.Print (Harvey.Waiting delay);
                           Harvey.Sleep (Qred (delay + 1))]
       | None => backoff = [Harvey.Sleep 10]
       end.
Proof.
  intros Hlimited. unfold Harvey.on_model_failure, Harvey.bind, Harvey.print, Harvey.sleep.
  rewrite Hlimited, !emit_after.
  destruct (search Harvey.retry_here error_str) as [group |] eqn:Hsearch.
  - destruct (search_some _ _ _ Hsearch) as (suffix & Hhere).
    destruct (retry_here_decimal _ _ Hhere) as (delay & Hdelay).
    rewrite Hdelay, !emit_after, !after_events_app.
    eexists. split; [| exists delay; split; [reflexivity | reflexivity]].
    now destruct (_ && _).
  - rewrite emit_after, !after_events_app.
    eexists. split; [| reflexivity]. now destruct (_ && _).
Qed.

(** *** The step budget *)

Section Loop.
Import Harvey.
Variable H : host.
Variable C : collaborators.

Lemma think_returns (task image reply : string) (w : world) :
  generate_content C (model_calls w) task image = Returns reply ->
  think C task image w
  = (snd (parse_reply reply), Props.thought (fst (parse_reply reply)) w).
Proof.
  intros Hmodel. unfold think, bind, call_model. rewrite Hmodel.
  destruct (parse_reply reply) as [see action]. cbn [fst snd].
  unfold Props.thought. now destruct (truthy see).
Qed.

Lemma iterations_app (first second : list event) :
  Props.iterations (first ++ second)
  = (Props.iterations first + Props.iterations second)%nat.
Proof. unfold Props.iterations. now rewrite List.filter_app, length_app. Qed.

Lemma idle_progress_refl (w : world) : Props.idle_progress 0 w w.
Proof.
  unfold Props.idle_progress. rewrite !Nat.add_0_r. repeat split.
  exists []. now rewrite app_nil_r.
Qed.

Lemma idle_progress_trans (n k : nat) (w w' w'' : world) :
  Props.idle_progress n w w' -> Props.idle_progress k w' w'' ->
  Props.idle_progress (n + k) w w''.
Proof.
  intros (Hc & Hm & added & Ht & Hi & Hq) (Hc' & Hm' & added' & Ht' & Hi' & Hq').
  unfold Props.idle_progress. repeat split; [lia | lia |].
  exists (added ++ added'). repeat split.
  - now rewrite Ht', Ht, app_assoc.
  - now rewrite iterations_app, Hi, Hi'.
  - now rewrite existsb_app, Hq, Hq'.
Qed.

(** One iteration on an unparsable reply: the loop goes on, one capture
    and one model call later. *)
Lemma idle_iteration (step : nat) (later : list nat) (task : string) (w : world) :
  Props.always_captures C -> Props.always_unparsable C ->
  exists w',
    run_steps H C (step :: later) task w = run_steps H C later task w'
    /\ Props.idle_progress 1 w w'.
Proof.
  intros Hcapture Hmodel.
  destruct (Hcapture (captures w)) as (image & Himage & Htruthy).
  destruct (Hmodel (model_calls w) task image) as (reply & Hreply & Hnone & Hchoice).
  pose proof (parse_reply_without_label reply Hnone) as Haction.
  rewrite Hchoice in Haction.
  cbn [run_steps]. unfold bind at 1. unfold print at 1. rewrite emit_after.
  unfold bind at 1. unfold capture_screenshot at 1.
  cbn [Props.after_events captures]. rewrite Himage, Htruthy. cbn [negb].
  set (w1 := {| TRAIL_POINTS := _; cursor := _; last_see := _;
               captures := S (captures w); model_calls := _; trace := _ |}).
  set (w2 := if (step =? 0)%nat then Props.after_events [SaveDebugScreenshot] w1
             else w1).
  assert (Hmc : model_calls w2 = model_calls w).
  { subst w2 w1. now destruct (step =? 0)%nat. }
  assert (Hsaved : ((if (step =? 0)%nat then emit SaveDebugScreenshot else ret tt) w1)
                   = (tt, w2)).
  { subst w2. now destruct (step =? 0)%nat. }
  unfold bind at 1. rewrite Hsaved.
  unfold bind at 1. rewrite (think_returns task image reply w2).
  2:{ now rewrite Hmc. }
  rewrite Haction.
  set (see := fst (parse_reply reply)).
  unfold bind at 1. unfold get_last_see at 1. cbn [Props.thought last_see].
  unfold bind at 1. unfold _speak_rationale at 1. rewrite emit_after.
  unfold bind at 1. rewrite execute_wait_1000.
  unfold bind at 1. unfold sleep at 1. rewrite emit_after.
  rewrite !after_events_app.
  eexists. split; [reflexivity |].
  unfold Props.idle_progress, Props.after_events, Props.thought.
  cbn [captures model_calls trace].
  subst w2 w1. repeat split.
  - destruct (step =? 0)%nat; cbn; lia.
  - destruct (step =? 0)%nat; cbn; lia.
  - destruct (step =? 0)%nat, (truthy see); cbn [captures model_calls trace Props.after_events];
      rewrite <- ?app_assoc; cbn [app]; eexists; (split; [reflexivity | split; reflexivity]).
Qed.

Lemma run_steps_idle (steps : list nat) (task : string) (w : world) :
  Props.always_captures C -> Props.always_unparsable C ->
  exists w',
    run_steps H C steps task w = (tt, w')
    /\ Props.idle_progress (length steps) w w'.
Proof.
  intros Hcapture Hmodel. revert w.
  induction steps as [| step later IH]; intros w.
  - exists w. split; [reflexivity | apply idle_progress_refl].
  - destruct (idle_iteration step later task w Hcapture Hmodel) as (w1 & Hstep & Hone).
    destruct (IH w1) as (w' & Hrest & Hmany).
    exists w'. split; [now rewrite Hstep |].
    change (length (step :: later)) with (1 + length later)%nat.
    now apply (idle_progress_trans 1 (length later) w w1 w').
Qed.

(** An iteration whose reply asks for Done ends the loop and announces
    completion. *)
Lemma done_iteration (step : nat) (later : list nat)
    (task image reply : string) (w : world) :
  capture_to_bytes C (captures w) = Some image -> truthy image = true ->
  generate_content C (model_calls w) task image = Returns reply ->
  snd (parse_reply reply) = "done()" ->
  exists w',
    run_steps H C (step :: later) task w = (tt, w')
    /\ model_calls w' = S (model_calls w)
    /\ exists added,
         trace w' = trace w ++ added
         /\ existsb Props.announces_completion added = true.
Proof.
  intros Himage Htruthy Hreply Haction.
  cbn [run_steps]. unfold bind at 1. unfold print at 1. rewrite emit_after.
  unfold bind at 1. unfold capture_screenshot at 1.
  cbn [Props.after_events captures]. rewrite Himage, Htruthy. cbn [negb].
  set (w1 := {| TRAIL_POINTS := _; cursor := _; last_see := _;
               captures := S (captures w); model_calls := _; trace := _ |}).
  set (w2 := if (step =? 0)%nat then Props.after_events [SaveDebugScreenshot] w1
             else w1).
  assert (Hmc : model_calls w2 = model_calls w).
  { subst w2 w1. now destruct (step =? 0)%nat. }
  assert (Hsaved : ((if (step =? 0)%nat then emit SaveDebugScreenshot else ret tt) w1)
                   = (tt, w2)).
  { subst w2. now destruct (step =? 0)%nat. }
  unfold bind at 1. rewrite Hsaved.
  unfold bind at 1. rewrite (think_returns task image reply w2).
  2:{ now rewrite Hmc. }
  rewrite Haction.
  set (see := fst (parse_reply reply)).
  unfold bind at 1. unfold get_last_see at 1. cbn [Props.thought last_see].
  unfold bind at 1. unfold _speak_rationale at 1. rewrite emit_after.
  unfold bind at 1. rewrite execute_done.
  unfold print. rewrite emit_after, !after_events_app.
  eexists. split; [reflexivity |].
  unfold Props.after_events, Props.thought. cbn [captures model_calls trace].
  subst w2 w1. split.
  - destruct (step =? 0)%nat; cbn; lia.
  - destruct (step =? 0)%nat, (truthy see); cbn [captures model_calls trace Props.after_events];
      rewrite <- ?app_assoc; cbn [app]; eexists; (split; [reflexivity | reflexivity]).
Qed.

End Loop.

(** C8, as the code has it: with a screen capture that always succeeds
    and a model whose replies never yield an action, [run] performs
    exactly 20 iterations, each with one capture and one model call, and
    returns after printing the finishing line without the completion
    line.  It returns no value, on this path as on the Done path: the
    budget exhaustion shows in what is printed only. *)
Theorem C8_budget_of_20_iterations (H : Harvey.host) (C : Harvey.collaborators)
    (task : string) (w : Harvey.world) :
  Props.always_captures C ->
  Props.always_unparsable C ->
  exists w',
    Harvey.run H C task w = (tt, w')
    /\ Harvey.captures w' = (Harvey.captures w + 20)%nat
    /\ Harvey.model_calls w' = (Harvey.model_calls w + 20)%nat
    /\ exists added,
         Harvey.trace w'
         = Harvey.trace w ++ [Harvey.Print (Harvey.Starting task)] ++ added
                          ++ [Harvey.Print Harvey.Finished]
         /\ Props.iterations added = 20%nat
         /\ existsb Props.announces_completion added = false.
Proof.
  intros Hcapture Hmodel.
  unfold Harvey.run, Harvey.bind, Harvey.print. rewrite emit_after.
  destruct (run_steps_idle H C (seq 0 20) task
              (Props.after_events [Harvey.Print (Harvey.Starting task)] w)
              Hcapture Hmodel)
    as (w1 & Hsteps & Hc & Hm & added & Htrace & Hiterations & Hquiet).
  rewrite Hsteps, emit_after.
  eexists. split; [reflexivity |].
  cbn [Props.after_events Harvey.captures Harvey.model_calls Harvey.trace] in *.
  rewrite Hc, Hm, Htrace. repeat split.
  exists added. repeat split; [| exact Hiterations | exact Hquiet].
  now rewrite <- !app_assoc.
Qed.

Lemma C8_budget_of_20_iterations_witness :
  exists w',
    Harvey.run (Props.full_hd 0 0) Props.puzzled_model "open notes"
               (Harvey.initial_world (0, 0)%Z) = (tt, w')
    /\ Harvey.captures w' = 20%nat
    /\ Harvey.model_calls w' = 20%nat.
Proof.
  destruct (C8_budget_of_20_iterations (Props.full_hd 0 0) Props.puzzled_model
              "open notes" (Harvey.initial_world (0, 0)%Z))
    as (w' & Hrun & Hcaptures & Hcalls & _).
  - intros n. exists "image". split; reflexivity.
  - intros n task image. exists "I am not sure what to do next.".
    split; [reflexivity |]. split; [repeat constructor | reflexivity].
  - exists w'. repeat split; assumption.
Defined.

(** C8, as the spec words it, fails on the distinction: a run that
    exhausts the budget and a run that ends on Done hand the same value
    to the caller, so nothing computed from the returned value tells them
    apart; only the printed completion line differs. *)
Lemma C8_counterexample :
  let w := Harvey.initial_world (0, 0)%Z in
  let exhausted := Harvey.run (Props.full_hd 0 0) Props.puzzled_model "open notes" w in
  let completed := Harvey.run (Props.full_hd 0 0) Props.done_model "open notes" w in
  Harvey.model_calls (snd exhausted) = 20%nat
  /\ Harvey.model_calls (snd completed) = 1%nat
  /\ existsb Props.announces_completion (Harvey.trace (snd exhausted)) = false
  /\ existsb Props.announces_completion (Harvey.trace (snd completed)) = true
  /\ ~ exists observe : unit -> bool,
         observe (fst exhausted) <> observe (fst completed).
Proof.
  cbv zeta. repeat split; try (vm_compute; reflexivity).
  intros [observe Hdiffer]. apply Hdiffer.
  now destruct (fst (Harvey.run _ Props.puzzled_model _ _)),
               (fst (Harvey.run _ Props.done_model _ _)).
Qed.


(** * Further properties of the code *)

(** ** The credential pool *)

Section PoolMore.
Import ApiManager.

Lemma is_key_available_tracker (now : Q) (k : string) (m m' : APIKeyManager) :
  usage_tracker m' = usage_tracker m ->
  is_key_available now k m' = is_key_available now k m.
Proof. intros Heq. unfold is_key_available. now rewrite Heq. Qed.

Lemma dict_get_in_values (k v : string) (d : list (string * string)) :
  dict_get k d = Some v -> In v (dict_values d).
Proof.
  induction d as [| [k' v'] d IH]; [discriminate |]. cbn.
  destruct (String.eqb k k'); [intros [= ->]; now left | right; now apply IH].
Qed.

Lemma first_available_spec (now : Q) (m : APIKeyManager) (values : list string) :
  match first_available now m values with
  | Some k => In k values /\ is_key_available now k m = true
  | None => forall v, In v values -> is_key_available now v m = false
  end.
Proof.
  induction values as [| v values IH]; cbn; [intros v [] |].
  destruct (is_key_available now v m) eqn:Hv.
  - split; [now left | exact Hv].
  - destruct (first_available now m values) as [k |].
    + destruct IH as [Hin Hk]. split; [now right | exact Hk].
    + intros v' [<- | Hin]; [exact Hv | now apply IH].
Qed.

Lemma get_key_for_service_in_pool (service_type k : string) (m : APIKeyManager) :
  fst (get_key_for_service service_type m) = Some k ->
  In k (dict_values (api_keys m)).
Proof.
  unfold get_key_for_service, fallback_key.
  destruct (String.eqb service_type "voice"),
    (dict_get "voice" (api_keys m)) eqn:Hvoice,
    (String.eqb service_type "flash"),
    (dict_get "flash" (api_keys m)) eqn:Hflash,
    (String.eqb service_type "completion"); cbn [fst];
    try (intros [= <-]; eapply dict_get_in_values; eassumption);
    try (destruct (dict_values (api_keys m)); [discriminate | intros [= <-]; now left]);
    destruct (completion_keys m) as [| name names];
    try (destruct (dict_values (api_keys m)); [discriminate | intros [= <-]; now left]);
    (destruct (nth_error _ _) as [key_name |]; [| discriminate]);
    cbn [fst]; apply dict_get_in_values.
Qed.

End PoolMore.

(** X1.  A key reported throttled at time [now] for [retry] seconds is
    unavailable exactly at the times before [now + retry]: with a retry
    of zero it is available again at once.  The report touches no other
    key, nor the dict, nor the cursor. *)
Theorem throttle_lasts_until_retry_after (now retry t : Q) (k : string)
    (m : ApiManager.APIKeyManager) :
  let m' := fst (ApiManager.mark_rate_limited now k retry m) in
  ApiManager.is_key_available t k m' = negb (flt t (now + retry))
  /\ ApiManager.is_key_available now k
       (fst (ApiManager.mark_rate_limited now k 0 m)) = true
  /\ (forall other, other <> k ->
        ApiManager.is_key_available t other m'
        = ApiManager.is_key_available t other m)
  /\ ApiManager.api_keys m' = ApiManager.api_keys m
  /\ ApiManager.current_key_index m' = ApiManager.current_key_index m.
Proof.
  cbv zeta. unfold ApiManager.mark_rate_limited, ApiManager.is_key_available.
  cbn [fst ApiManager.usage_tracker ApiManager.api_keys ApiManager.current_key_index].
  repeat split.
  - rewrite lookup_insert_eq. cbn. now destruct (flt t (now + retry)).
  - rewrite lookup_insert_eq. cbn. unfold flt.
    assert (Hle : Qle_bool (now + 0) now = true) by (apply Qle_bool_iff; lra).
    now rewrite Hle.
  - intros other Hother. now rewrite lookup_insert_ne by congruence.
Qed.

(** X2.  An acquire answers with a value of the pool that is available
    at that time, whatever the role asked for; it answers [None] only when
    every value of the pool is throttled at that time (an empty pool
    included). *)
Theorem acquire_is_sound_and_complete (now : Q) (service_type : string)
    (m : ApiManager.APIKeyManager) :
  match fst (fst (ApiManager.get_available_key now service_type m)) with
  | Some k =>
      In k (ApiManager.dict_values (ApiManager.api_keys m))
      /\ ApiManager.is_key_available now k m = true
  | None =>
      forall v, In v (ApiManager.dict_values (ApiManager.api_keys m)) ->
                ApiManager.is_key_available now v m = false
  end.
Proof.
  unfold ApiManager.get_available_key.
  pose proof (get_key_for_service_in_pool service_type) as Hpool.
  assert (Hkeep : ApiManager.api_keys (snd (ApiManager.get_key_for_service service_type m))
                  = ApiManager.api_keys m
                  /\ ApiManager.usage_tracker (snd (ApiManager.get_key_for_service service_type m))
                     = ApiManager.usage_tracker m).
  { unfold ApiManager.get_key_for_service.
    destruct (String.eqb service_type "voice"),
      (ApiManager.dict_get "voice" (ApiManager.api_keys m)),
      (String.eqb service_type "flash"),
      (ApiManager.dict_get "flash" (ApiManager.api_keys m)),
      (String.eqb service_type "completion"); try (now split);
      destruct (ApiManager.completion_keys m) as [| name names]; try (now split);
      now destruct (nth_error _ _). }
  specialize (Hpool) with (m := m).
  destruct (ApiManager.get_key_for_service service_type m) as [preferred m'].
  cbn [fst snd] in *. destruct Hkeep as [Hkeys Htracker].
  assert (Hscan : match ApiManager.first_available now m'
                          (ApiManager.dict_values (ApiManager.api_keys m')) with
                  | Some k => In k (ApiManager.dict_values (ApiManager.api_keys m))
                              /\ ApiManager.is_key_available now k m = true
                  | None => forall v, In v (ApiManager.dict_values (ApiManager.api_keys m)) ->
                                      ApiManager.is_key_available now v m = false
                  end).
  { pose proof (first_available_spec now m'
                  (ApiManager.dict_values (ApiManager.api_keys m'))) as Hspec.
    rewrite Hkeys in *.
    destruct (ApiManager.first_available now m' _) as [k |].
    - now rewrite <- (is_key_available_tracker now k m m' Htracker).
    - intros v Hin. rewrite <- (is_key_available_tracker now v m m' Htracker).
      now apply Hspec. }
  destruct preferred as [k |].
  - destruct (truthy k && ApiManager.is_key_available now k m') eqn:Hok.
    + cbn [fst]. apply andb_true_iff in Hok as [_ Hok]. split.
      * now apply Hpool.
      * now rewrite <- (is_key_available_tracker now k m m' Htracker).
    + destruct (ApiManager.first_available now m' _); exact Hscan.
  - destruct (ApiManager.first_available now m' _); exact Hscan.
Qed.

Section PoolRoles.
Import ApiManager.

Lemma dict_get_absent (k : string) (d : list (string * string)) :
  ~ In k (dict_keys d) -> dict_get k d = None.
Proof.
  induction d as [| [k' v] d IH]; [reflexivity |]. cbn. intros Hnot.
  destruct (String.eqb_spec k k') as [-> | _]; [tauto | apply IH; tauto].
Qed.

Lemma dict_get_filter_set (k : string) (d : list (string * option string)) :
  List.NoDup (map fst d) ->
  dict_get k (filter_set d)
  = match Keyboard.table_get k d with
    | Some value => More.usable value
    | None => None
    end.
Proof.
  induction d as [| [k' value] d IH]; [reflexivity |].
  cbn [map fst]. intros Hnodup. apply NoDup_cons_iff in Hnodup as [Hfresh Hnodup].
  cbn [Keyboard.table_get].
  destruct (String.eqb_spec k k') as [-> | Hne].
  - assert (Hrest : dict_get k' (filter_set d) = None).
    { apply dict_get_absent. intros Hin. apply Hfresh. now apply filter_set_keys. }
    destruct value as [v |]; cbn; [| exact Hrest].
    destruct (truthy v); cbn; [now rewrite String.eqb_refl | exact Hrest].
  - destruct value as [v |]; cbn; [| now apply IH].
    destruct (truthy v); cbn; [| now apply IH].
    destruct (String.eqb_spec k k'); [congruence | now apply IH].
Qed.


End PoolRoles.



(** X4.  The pool the constructor builds holds, under each of the five
    role names, exactly the value of its variable when that variable is
    set and not empty, and nothing under that name otherwise; its names
    are distinct and none of its values is empty. *)
Theorem loaded_pool_mirrors_environment (getenv : ApiManager.environ)
    (m : ApiManager.APIKeyManager) (out : list ApiManager.diagnostic) :
  ApiManager.init getenv = (Returns m, out) ->
  Props.well_formed m
  /\ ApiManager.usage_tracker m = ∅
  /\ ApiManager.current_key_index m = 0%nat
  /\ forall name variable,
       In (name, variable) More.role_variables ->
       ApiManager.dict_get name (ApiManager.api_keys m)
       = More.usable (getenv variable).
Proof.
  intros Hinit. split; [now apply (loaded_pool_well_formed getenv m out) |].
  unfold ApiManager.init, ApiManager.load_api_keys in Hinit.
  assert (Hm : m = {| ApiManager.api_keys := ApiManager.filter_set (ApiManager.configured getenv);
                      ApiManager.usage_tracker := ∅;
                      ApiManager.current_key_index := 0 |}).
  { now destruct (ApiManager.filter_set (ApiManager.configured getenv));
      injection Hinit as <- _. }
  subst m. cbn [ApiManager.usage_tracker ApiManager.current_key_index ApiManager.api_keys].
  split; [reflexivity |]. split; [reflexivity |].
  intros name variable Hin. rewrite dict_get_filter_set.
  2:{ cbn. repeat constructor; cbn; intuition discriminate. }
  unfold More.role_variables in Hin. cbn [In] in Hin.
  destruct Hin as [Heq | [Heq | [Heq | [Heq | [Heq | []]]]]];
    injection Heq as <- <-; reflexivity.
Qed.

Lemma loaded_pool_mirrors_environment_witness :
  exists m,
    ApiManager.dict_get "voice" (ApiManager.api_keys m) = Some "V"
    /\ ApiManager.dict_get "completion1" (ApiManager.api_keys m) = Some "A"
    /\ ApiManager.dict_get "completion2" (ApiManager.api_keys m) = None.
Proof.
  destruct (ApiManager.init More.sample_environ) as [[m | exc] out] eqn:Hinit;
    [| discriminate Hinit].
  destruct (loaded_pool_mirrors_environment More.sample_environ m out Hinit)
    as (_ & _ & _ & Hlookup).
  exists m. repeat split.
  - apply (Hlookup "voice" "GOOGLE_API_KEY_VOICE"). now left.
  - apply (Hlookup "completion1" "GOOGLE_API_KEY_1"). right. right. now left.
  - apply (Hlookup "completion2" "GOOGLE_API_KEY_2"). do 3 right. now left.
Defined.

(** ** Coordinates *)

Section CoordinatesMore.
Import Harvey.

Lemma clamp_between (r : Q) :
  (0 <= py_max 0 (py_min 1 r) <= 1)%Q.
Proof.
  unfold py_max, py_min, flt.
  destruct (Qle_bool 1 r) eqn:Hone; cbn [negb].
  - cbn. split; discriminate.
  - destruct (Qle_bool r 0) eqn:Hzero; cbn [negb].
    + split; [apply Qle_refl | discriminate].
    + split.
      * apply Qnot_lt_le. intros Hneg.
        assert (Hle : (r <= 0)%Q) by lra.
        apply Qle_bool_iff in Hle. congruence.
      * apply Qnot_lt_le. intros Hbig.
        assert (Hle : (1 <= r)%Q) by lra.
        apply Qle_bool_iff in Hle. congruence.
Qed.

Lemma clamp_low (r : Q) : (r <= 0)%Q -> (py_max 0 (py_min 1 r) == 0)%Q.
Proof.
  intros Hr. unfold py_max, py_min, flt.
  destruct (Qle_bool 1 r) eqn:Hone; cbn [negb].
  - apply Qle_bool_iff in Hone. lra.
  - destruct (Qle_bool r 0) eqn:Hzero; cbn [negb]; [reflexivity |].
    apply Qle_bool_iff in Hr. congruence.
Qed.

Lemma clamp_high (r : Q) : (1 <= r)%Q -> (py_max 0 (py_min 1 r) == 1)%Q.
Proof.
  intros Hr. unfold py_max, py_min, flt.
  apply Qle_bool_iff in Hr. rewrite Hr. reflexivity.
Qed.

Lemma py_round_between (q : Q) (n : Z) :
  (0 <= q)%Q -> (q <= inject_Z n)%Q -> (0 <= py_round q <= n)%Z.
Proof.
  intros Hlow Hhigh. unfold py_round.
  pose proof (Qfloor_le q) as Hfloor.
  assert (Hf0 : (0 <= Qfloor q)%Z).
  { change 0%Z with (Qfloor 0). now apply Qfloor_resp_le. }
  assert (Hfn : (Qfloor q <= n)%Z).
  { rewrite <- (Qfloor_Z n). now apply Qfloor_resp_le. }
  assert (Hup : (0 < q - inject_Z (Qfloor q))%Q -> (Qfloor q + 1 <= n)%Z).
  { intros Hfrac.
    assert (Hlt : (inject_Z (Qfloor q) < inject_Z n)%Q) by lra.
    rewrite <- Zlt_Qlt in Hlt. lia. }
  destruct (Qcompare (q - inject_Z (Qfloor q)) (1 # 2)) eqn:Hcmp.
  - apply Qeq_alt in Hcmp.
    destruct (Z.even (Qfloor q)); [lia |].
    split; [lia | apply Hup; lra].
  - lia.
  - apply Qgt_alt in Hcmp. split; [lia | apply Hup; lra].
Qed.

Lemma py_round_of_integer (q : Q) (z : Z) : (q == inject_Z z)%Q -> py_round q = z.
Proof.
  intros Hq. unfold py_round.
  assert (Hfloor : Qfloor q = z).
  { rewrite (Qfloor_comp q (inject_Z z) Hq). apply Qfloor_Z. }
  rewrite Hfloor.
  assert (Hcmp : Qcompare (q - inject_Z z) (1 # 2) = Lt).
  { rewrite <- Qlt_alt. lra. }
  now rewrite Hcmp.
Qed.

End CoordinatesMore.

(** X5.  On a display at least one point wide and high, every ratio
    pair, in range or not, is converted to a point of the screen; a ratio
    at or below zero gives coordinate 0 and a ratio at or above one gives
    the last coordinate of its axis. *)
Theorem transform_coords_lands_on_screen (H : Harvey.host) (x_ratio y_ratio : Q) :
  let '(width, height, _) := Harvey.get_screen_info H in
  (1 <= width)%Z -> (1 <= height)%Z ->
  let '(px, py) := Harvey._transform_coords H x_ratio y_ratio in
  (0 <= px <= width - 1)%Z /\ (0 <= py <= height - 1)%Z
  /\ ((x_ratio <= 0)%Q -> px = 0%Z) /\ ((1 <= x_ratio)%Q -> px = (width - 1)%Z)
  /\ ((y_ratio <= 0)%Q -> py = 0%Z) /\ ((1 <= y_ratio)%Q -> py = (height - 1)%Z).
Proof.
  unfold Harvey._transform_coords.
  destruct (Harvey.get_screen_info H) as [[width height] scale].
  intros Hwidth Hheight.
  assert (Hbound : forall r n, (1 <= n)%Z ->
            (0 <= py_round (py_max 0 (py_min 1 r) * inject_Z (n - 1)) <= n - 1)%Z).
  { intros r n Hn. destruct (clamp_between r) as [Hlow Hhigh].
    assert (Hn0 : (0 <= inject_Z (n - 1))%Q).
    { change 0%Q with (inject_Z 0). rewrite <- Zle_Qle. lia. }
    apply py_round_between; nra. }
  assert (Hzero : forall r n, (r <= 0)%Q ->
            py_round (py_max 0 (py_min 1 r) * inject_Z (n - 1)) = 0%Z).
  { intros r n Hr. apply py_round_of_integer. rewrite (clamp_low r Hr). ring. }
  assert (Hlast : forall r n, (1 <= r)%Q ->
            py_round (py_max 0 (py_min 1 r) * inject_Z (n - 1)) = (n - 1)%Z).
  { intros r n Hr. apply py_round_of_integer. rewrite (clamp_high r Hr). ring. }
  repeat split; try (now apply Hbound); try (now apply Hzero); try (now apply Hlast);
    apply Hbound; assumption.
Qed.

Lemma transform_coords_lands_on_screen_witness :
  Harvey._transform_coords (Props.full_hd 0 0) (-2 # 10) (14 # 10) = (0, 1079)%Z.
Proof.
  pose proof (transform_coords_lands_on_screen (Props.full_hd 0 0) (-2 # 10) (14 # 10))
    as Hscreen.
  cbn [Harvey.get_screen_info Props.full_hd Harvey.QUARTZ_AVAILABLE
       Harvey.display_bounds] in Hscreen.
  destruct (Harvey._transform_coords (Props.full_hd 0 0) (-2 # 10) (14 # 10))
    as [px py].
  destruct Hscreen as (_ & _ & Hx & _ & _ & Hy); [lia | lia |].
  rewrite Hx, Hy; [reflexivity | | ]; unfold Qle; cbn; lia.
Defined.

(** X6.  When the text of either offset variable is rejected by
    [float], both offsets are dropped: calibration returns the point as
    it is, even if the other variable holds a valid offset. *)
Theorem malformed_offset_disables_calibration (H : Harvey.host) (px py : Z) :
  (exists exc, Harvey.HARVEY_X_OFFSET H = Raises exc)
  \/ (exists exc, Harvey.HARVEY_Y_OFFSET H = Raises exc) ->
  Harvey.calibrate_click_position H px py = (px, py).
Proof.
  assert (Hid : forall z, py_int (inject_Z z + 0) = z).
  { intros z. apply py_int_of_integer. ring. }
  intros [[exc Hx] | [exc Hy]]; unfold Harvey.calibrate_click_position.
  - rewrite Hx. now rewrite !Hid.
  - rewrite Hy. destruct (Harvey.HARVEY_X_OFFSET H); now rewrite !Hid.
Qed.

Lemma malformed_offset_disables_calibration_witness :
  Harvey.calibrate_click_position
    (Props.with_offsets (Returns 25%Q) (Raises "ValueError") (Props.full_hd 0 0))
    960 540
  = (960, 540)%Z.
Proof.
  apply malformed_offset_disables_calibration.
  right. exists "ValueError". reflexivity.
Defined.

(** ** Frames: what a statement leaves alone *)

Section Frames.
Import Harvey.

Variable R : world -> world -> Prop.
Hypothesis R_refl : forall w, R w w.
Hypothesis R_trans : forall w1 w2 w3, R w1 w2 -> R w2 w3 -> R w1 w3.

Lemma preserves_ret {A : Type} (a : A) : More.preserves R (ret a).
Proof. intros w. apply R_refl. Qed.

Lemma preserves_bind {A B : Type} (m : M A) (k : A -> M B) :
  More.preserves R m -> (forall a, More.preserves R (k a)) ->
  More.preserves R (bind m k).
Proof.
  intros Hm Hk w. unfold bind. specialize (Hm w).
  destruct (m w) as [a w1]. cbn [snd] in Hm.
  eapply R_trans; [exact Hm | apply Hk].
Qed.

Lemma preserves_for_each (indices : list nat) (body : Z -> M unit) :
  (forall i, More.preserves R (body i)) -> More.preserves R (for_each indices body).
Proof.
  intros Hbody. induction indices as [| i later IH]; cbn [for_each].
  - apply preserves_ret.
  - apply preserves_bind; [apply Hbody | intros _; exact IH].
Qed.

End Frames.

Section Steady.
Import Harvey.
Variable H : host.

Lemma steady_refl (w : world) : More.steady w w.
Proof. repeat split. exists []. now rewrite app_nil_r. Qed.

Lemma steady_trans (w1 w2 w3 : world) :
  More.steady w1 w2 -> More.steady w2 w3 -> More.steady w1 w3.
Proof.
  intros (Hc & Hm & first & Hfirst) (Hc' & Hm' & second & Hsecond).
  repeat split; [congruence | congruence |].
  exists (first ++ second). now rewrite Hsecond, Hfirst, app_assoc.
Qed.

Lemma steady_emit (e : event) : More.preserves More.steady (emit e).
Proof. intros w. repeat split. now exists [e]. Qed.

Lemma steady_add_trail_point (px py : Z) :
  More.preserves More.steady (_add_trail_point H px py).
Proof.
  intros w. unfold _add_trail_point.
  destruct (negb (MOUSE_TRAIL_ENABLED H) || negb (QUARTZ_AVAILABLE H));
    repeat split; exists []; cbn; now rewrite app_nil_r.
Qed.

Lemma steady_post_mouse_moved (px py : Z) :
  More.preserves More.steady (post_mouse_moved px py).
Proof. intros w. repeat split. now exists [MouseMoved px py]. Qed.

Lemma steady_get_current_mouse_position :
  More.preserves More.steady (get_current_mouse_position H).
Proof.
  intros w. unfold get_current_mouse_position.
  destruct (QUARTZ_AVAILABLE H); [| apply steady_refl].
  destruct (cursor w) as [px py].
  pose proof (steady_add_trail_point px py w) as Htrail.
  now destruct (_add_trail_point H px py w) as [[] w1].
Qed.

End Steady.

Create HintDb steady.
#[local] Hint Resolve steady_refl steady_emit steady_add_trail_point
  steady_post_mouse_moved steady_get_current_mouse_position : steady.

(** Splits a statement along its binds and branches, leaving the leaves
    to the hint base. *)
Ltac steady_step :=
  lazymatch goal with
  | |- More.preserves _ (Harvey.ret _) =>
      apply (preserves_ret More.steady steady_refl)
  | |- More.preserves _ (Harvey.bind _ _) =>
      apply (preserves_bind More.steady steady_trans); [| intros ?]
  | |- More.preserves _ (Harvey.for_each _ _) =>
      apply (preserves_for_each More.steady steady_refl steady_trans); intros ?
  | |- More.preserves _ (Harvey.print _) => apply steady_emit
  | |- More.preserves _ (Harvey.sleep _) => apply steady_emit
  | |- More.preserves _ (Harvey.hotkey _) => apply steady_emit
  | |- More.preserves _ (Harvey.type_text _) => apply steady_emit
  | |- More.preserves _ (if ?b then _ else _) => destruct b
  | |- More.preserves _ (match ?x with _ => _ end) => destruct x
  | |- _ => solve [eauto with steady]
  end.

Section SteadyOperations.
Import Harvey.
Variable H : host.

Lemma steady_smooth_step (sx sy ex ey steps i : Z) :
  More.preserves More.steady (smooth_step H sx sy ex ey steps i).
Proof.
  unfold smooth_step. cbv zeta.
  apply (preserves_bind More.steady steady_trans);
    [apply steady_add_trail_point | intros _].
  apply (preserves_bind More.steady steady_trans);
    [apply steady_post_mouse_moved | intros _].
  apply steady_emit.
Qed.

Lemma steady_smooth_move_mouse (sx sy ex ey : Z) :
  More.preserves More.steady (smooth_move_mouse H sx sy ex ey).
Proof.
  pose proof steady_smooth_step.
  unfold smooth_move_mouse. repeat steady_step.
Qed.

Lemma steady_move_mouse (x_ratio y_ratio : Q) :
  More.preserves More.steady (move_mouse H x_ratio y_ratio).
Proof.
  pose proof steady_smooth_move_mouse.
  unfold move_mouse. repeat steady_step.
Qed.

Lemma steady_hover (x_ratio y_ratio : Q) :
  More.preserves More.steady (hover H x_ratio y_ratio).
Proof.
  pose proof steady_smooth_move_mouse.
  unfold hover. repeat steady_step.
Qed.

Lemma steady_left_click (x_ratio y_ratio : Q) :
  More.preserves More.steady (left_click H x_ratio y_ratio).
Proof.
  pose proof steady_smooth_move_mouse.
  unfold left_click, ultra_precise_click. repeat steady_step.
Qed.

Lemma steady_double_click (x_ratio y_ratio : Q) :
  More.preserves More.steady (double_click H x_ratio y_ratio).
Proof.
  pose proof steady_smooth_move_mouse.
  unfold double_click, press_twice. repeat steady_step.
Qed.

Lemma steady_scroll (direction : string) : More.preserves More.steady (scroll H direction).
Proof. unfold scroll. repeat steady_step. Qed.

Lemma steady_bulk_type_text (text : string) :
  More.preserves More.steady (_bulk_type_text text).
Proof.
  unfold _bulk_type_text. induction (split_lines text) as [| line later IH];
    cbn [bulk_type_lines]; repeat steady_step; exact IH.
Qed.

Lemma steady_execute (action_text : string) :
  More.preserves More.steady (execute H action_text).
Proof.
  pose proof steady_move_mouse. pose proof steady_left_click.
  pose proof steady_double_click. pose proof steady_hover.
  pose proof steady_scroll. pose proof steady_bulk_type_text.
  unfold execute, with_coords, with_text. repeat steady_step.
Qed.

End SteadyOperations.

(** ** The control loop: what a run can spend *)

Section Budget.
Import Harvey.
Variable H : host.
Variable C : collaborators.

Lemma steady_on_model_failure (task error_str : string) :
  More.preserves More.steady (on_model_failure task error_str).
Proof. unfold on_model_failure. repeat steady_step. Qed.

Lemma think_counts (task image : string) (w : world) :
  captures (snd (think C task image w)) = captures w
  /\ model_calls (snd (think C task image w)) = S (model_calls w).
Proof.
  unfold think, bind, call_model.
  destruct (generate_content C (model_calls w) task image) as [reply | e].
  - destruct (parse_reply reply) as [see action].
    destruct (truthy see); cbn; auto.
  - match goal with |- context [on_model_failure task e ?w1] =>
      destruct (steady_on_model_failure task e w1) as (Hc & Hm & _) end.
    rewrite Hc, Hm. cbn. auto.
Qed.

Lemma run_steps_spends (steps : list nat) (task : string) (w : world) :
  More.spends (length steps) w (snd (run_steps H C steps task w)).
Proof.
  revert w. induction steps as [| step later IH]; intros w.
  - exists 0%nat, 0%nat. cbn. repeat split; lia.
  - cbn [run_steps length]. unfold bind at 1. cbn [print emit].
    unfold bind at 1, capture_screenshot. cbn [captures model_calls].
    destruct (capture_to_bytes C (captures w)) as [image |].
    2:{ exists 1%nat, 0%nat. cbn. repeat split; lia. }
    destruct (truthy image); cbn [negb].
    2:{ exists 1%nat, 0%nat. cbn. repeat split; lia. }
    unfold bind at 1.
    match goal with |- context [(if (step =? 0)%nat then _ else _) ?w0] =>
      set (w1 := w0);
      assert (Hfirst : captures (snd ((if (step =? 0)%nat then emit SaveDebugScreenshot else ret tt) w1)) = captures w1
                       /\ model_calls (snd ((if (step =? 0)%nat then emit SaveDebugScreenshot else ret tt) w1)) = model_calls w1)
        by (destruct (step =? 0)%nat; split; reflexivity)
    end.
    destruct ((if (step =? 0)%nat then emit SaveDebugScreenshot else ret tt) w1) as [[] w2].
    cbn [snd] in Hfirst. destruct Hfirst as [Hc2 Hm2].
    unfold bind at 1. pose proof (think_counts task image w2) as [Hc3 Hm3].
    destruct (think C task image w2) as [action w3]. cbn [snd] in Hc3, Hm3.
    unfold bind at 1, get_last_see. unfold bind at 1, _speak_rationale. cbn [emit].
    unfold bind at 1.
    match goal with |- context [execute H action ?w0] =>
      pose proof (steady_execute H action w0) as (Hc4 & Hm4 & _);
      destruct (execute H action w0) as [done w4] end.
    cbn [snd captures model_calls] in Hc4, Hm4.
    destruct done.
    + exists 1%nat, 1%nat. cbn. subst w1. cbn in *. repeat split; lia.
    + unfold bind at 1. cbn [sleep emit].
      match goal with |- context [run_steps H C later task ?w0] =>
        destruct (IH w0) as (c & m & Hc & Hm & Hle1 & Hle2) end.
      exists (S c), (S m). rewrite Hc, Hm. subst w1. cbn in *. repeat split; lia.
Qed.

End Budget.

(** X7.  Whatever the host, the screen capture and the model do, a run
    takes at most 20 screen captures and never more model calls than
    captures: each model call follows a capture of its own. *)
Theorem run_stays_within_budget (H : Harvey.host) (C : Harvey.collaborators)
    (task : string) (w : Harvey.world) :
  More.spends 20 w (snd (Harvey.run H C task w)).
Proof.
  unfold Harvey.run, Harvey.bind at 1. cbn [Harvey.print Harvey.emit].
  unfold Harvey.bind.
  match goal with |- context [Harvey.run_steps H C (seq 0 20) task ?w0] =>
    destruct (run_steps_spends H C (seq 0 20) task w0) as (c & m & Hc & Hm & Hle);
    destruct (Harvey.run_steps H C (seq 0 20) task w0) as [[] w1] end.
  exists c, m. cbn in *. auto.
Qed.

(** ** The executor: when it reports completion *)

Section Completion.
Import Harvey.
Variable H : host.

Lemma startswith_split (p s : string) :
  startswith p s = true -> exists rest, s = (p ++ rest)%string.
Proof.
  unfold startswith. revert s. induction p as [| c p IH]; intros s Hs.
  - exists s. reflexivity.
  - destruct s as [| d s]; [discriminate |]. cbn in Hs.
    destruct (ascii_dec c d) as [-> |]; [| discriminate].
    destruct (IH s Hs) as [rest ->]. now exists rest.
Qed.

Lemma with_coords_returns_false (action_text : string) (act : Q -> Q -> M unit)
    (w : world) :
  fst (with_coords action_text act w) = false.
Proof.
  unfold with_coords, bind.
  destruct (_extract_coords action_text) as [[[ratio_x ratio_y] |] | e]; cbn.
  - now destruct (act ratio_x ratio_y w).
  - reflexivity.
  - reflexivity.
Qed.

Lemma with_text_returns_false (action_text : string) (act : string -> M unit)
    (w : world) :
  fst (with_text action_text act w) = false.
Proof.
  unfold with_text, bind.
  destruct (_extract_text action_text) as [text |]; [| reflexivity].
  destruct (truthy text); [| reflexivity].
  now destruct (act text w).
Qed.

Lemma execute_done_prefix (rest : string) (w : world) :
  execute H ("done" ++ rest) w
  = (true,
     Props.after_events
       [Print (Executing ("done" ++ rest)); Print TaskCompletedSuccessfully] w).
Proof.
  rewrite !append_String, append_empty.
  unfold execute, bind, print. rewrite emit_after.
  destruct rest;
    repeat match goal with
    | |- context [startswith ?p (String ?c ?s)] =>
        let b := eval vm_compute in (startswith p (String c s)) in
        change (startswith p (String c s)) with b
    end;
    cbn; unfold Props.after_events; cbn; now rewrite <- app_assoc.
Qed.

Lemma execute_returns_done_prefix (action_text : string) (w : world) :
  fst (execute H action_text w) = startswith "done" action_text.
Proof.
  destruct (startswith "done" action_text) eqn:Hdone.
  - apply startswith_split in Hdone as [rest ->].
    now rewrite execute_done_prefix.
  - unfold execute, bind at 1. cbn [print emit].
    repeat match goal with
    | |- fst ((if ?b then _ else _) _) = false =>
        let Hb := fresh "Hb" in destruct b eqn:Hb
    end;
    try apply with_coords_returns_false;
    try apply with_text_returns_false;
    try reflexivity.
    + destruct (_extract_number action_text) as [ms |]; [| reflexivity].
      destruct (ms =? 0)%Z; reflexivity.
    + congruence.
Qed.

End Completion.

(** X8.  [execute] returns [True] exactly for the action texts that
    begin with the four letters of done, whatever follows them; every
    other text, and every action that raises, gives [False]. *)
Theorem execute_reports_done (H : Harvey.host) (action_text : string)
    (w : Harvey.world) :
  fst (Harvey.execute H action_text w) = startswith "done" action_text.
Proof. apply execute_returns_done_prefix. Qed.

(** ** The pointer trail: the cap is out of reach *)

Section TrailMore.
Import Harvey.

Lemma fade_power_pos (n : nat) : (0 < More.fade_power n)%Q.
Proof.
  induction n as [| n IH]; cbn; [reflexivity |].
  unfold _TRAIL_FADE_SPEED. apply Qmult_lt_0_compat; [exact IH | reflexivity].
Qed.

Lemma fade_power_antitone (m n : nat) :
  (m <= n)%nat -> (More.fade_power n <= More.fade_power m)%Q.
Proof.
  induction 1 as [| n Hle IH]; [apply Qle_refl |].
  cbn. pose proof (fade_power_pos n). unfold _TRAIL_FADE_SPEED. lra.
Qed.

(** Eleven fadings take a point below the floor: 0.8 ^ 11 < 0.1. *)
Lemma fade_power_small (n : nat) :
  (11 <= n)%nat -> (More.fade_power n < 1 # 10)%Q.
Proof.
  intros Hn. apply Qle_lt_trans with (More.fade_power 11).
  - now apply fade_power_antitone.
  - reflexivity.
Qed.

Lemma above_floor_lt (p : trail_point) :
  Props.above_floor p = true -> (1 # 10 < opacity p)%Q.
Proof.
  unfold Props.above_floor, flt. intros Hp. apply negb_true_iff in Hp.
  apply Qnot_le_lt. intros Hle. apply Qle_bool_iff in Hle. congruence.
Qed.

Lemma filter_aged (points : list trail_point) :
  More.aged points ->
  More.aged (List.filter Props.above_floor points)
  /\ (length (List.filter Props.above_floor points) <= 11)%nat.
Proof.
  induction points as [| p rest IH]; [cbn; split; [exact I | lia] |].
  intros [Hp Hrest]. destruct (IH Hrest) as [Haged Hlength].
  cbn [List.filter]. destruct (Props.above_floor p) eqn:Hfloor; [| now split].
  assert (Hshorter : (length (List.filter Props.above_floor rest) <= length rest)%nat)
    by apply List.filter_length_le.
  pose proof (fade_power_antitone _ _ Hshorter) as Hpower.
  apply above_floor_lt in Hfloor.
  split.
  - cbn. split; [lra | exact Haged].
  - cbn [length].
    destruct (Nat.le_gt_cases 11 (length (List.filter Props.above_floor rest)))
      as [Hlong | Hshort]; [| lia].
    pose proof (fade_power_small _ Hlong). lra.
Qed.

Lemma aged_fade_snoc (points : list trail_point) (newest : trail_point) :
  (opacity newest <= 1)%Q ->
  More.aged points -> More.aged (map fade points ++ [newest]).
Proof.
  intros Hnewest. induction points as [| p rest IH]; intros Haged.
  - cbn. split; [exact Hnewest | exact I].
  - destruct Haged as [Hp Hrest]. cbn [map app More.aged]. split; [| now apply IH].
    rewrite length_app, length_map, Nat.add_1_r. cbn.
    unfold _TRAIL_FADE_SPEED in *. lra.
Qed.

Lemma insert_trail_point_aged (px py : Z) (points : list trail_point) :
  More.aged points ->
  More.aged (insert_trail_point px py points)
  /\ (length (insert_trail_point px py points) <= 12)%nat
  /\ insert_trail_point px py points
     = map fade (List.filter Props.above_floor points)
       ++ [Props.fresh_point px py].
Proof.
  intros Haged. destruct (filter_aged points Haged) as [Hkept Hlength].
  rewrite insert_trail_point_closed.
  assert (Hall : last_n 14 (List.filter Props.above_floor points)
                 = List.filter Props.above_floor points).
  { unfold last_n.
    now replace (length (List.filter Props.above_floor points) - 14)%nat
      with 0%nat by lia. }
  rewrite Hall. repeat split.
  - apply aged_fade_snoc; [apply Qle_refl | exact Hkept].
  - rewrite length_app, length_map. cbn. lia.
Qed.

Lemma insert_all_aged (H : host) (visits : list (Z * Z)) (w : world) :
  More.aged (TRAIL_POINTS w) -> (length (TRAIL_POINTS w) <= 12)%nat ->
  More.aged (TRAIL_POINTS (Props.insert_all H visits w))
  /\ (length (TRAIL_POINTS (Props.insert_all H visits w)) <= 12)%nat.
Proof.
  revert w. induction visits as [| [px py] later IH]; intros w Haged Hlength.
  - now split.
  - cbn [Props.insert_all]. unfold _add_trail_point.
    destruct (negb (MOUSE_TRAIL_ENABLED H) || negb (QUARTZ_AVAILABLE H)).
    + now apply IH.
    + destruct (insert_trail_point_aged px py _ Haged) as (Haged' & Hlength' & _).
      now apply IH.
Qed.

End TrailMore.

(** X9.  Starting from the empty trail, however many points are
    recorded and wherever they lie, the trail never holds more than 12
    points: a point is faded by 0.8 at each later insertion and dropped
    once at or below 0.1, which eleven fadings ensure.  The cap of 15
    points is therefore never applied: an insertion keeps every point
    above the floor. *)
Theorem trail_never_reaches_its_cap (H : Harvey.host) (visits : list (Z * Z))
    (pointer : Z * Z) (px py : Z) :
  let trail :=
    Harvey.TRAIL_POINTS (Props.insert_all H visits (Harvey.initial_world pointer)) in
  (length trail <= 12)%nat
  /\ Harvey.insert_trail_point px py trail
     = map Harvey.fade (List.filter Props.above_floor trail)
       ++ [Props.fresh_point px py].
Proof.
  cbv zeta.
  destruct (insert_all_aged H visits (Harvey.initial_world pointer)) as [Haged Hlength];
    [exact I | cbn; lia |].
  split; [exact Hlength |].
  now apply insert_trail_point_aged.
Qed.

(** ** A host without the Quartz bindings *)

Section Simulated.
Import Harvey.
Variable mask : Z.
Variable H : host.
Hypothesis Hsimulated : More.no_quartz H.

Lemma after_no_events (w : world) : Props.after_events [] w = w.
Proof. destruct w. unfold Props.after_events. cbn. now rewrite app_nil_r. Qed.

Lemma silent_refl (w : world) : More.silent_extension mask H w w.
Proof. exists []. split; [now rewrite after_no_events | constructor]. Qed.

Lemma silent_trans (w1 w2 w3 : world) :
  More.silent_extension mask H w1 w2 -> More.silent_extension mask H w2 w3 ->
  More.silent_extension mask H w1 w3.
Proof.
  intros (first & -> & Hfirst) (second & -> & Hsecond).
  exists (first ++ second). split; [apply after_events_app |].
  apply List.Forall_app. now split.
Qed.

Lemma silent_emit (e : event) :
  More.is_pointer_event e = false ->
  More.preserves (More.silent_extension mask H) (emit e).
Proof.
  intros Hpointer w. exists [e]. split; [reflexivity |].
  constructor; [| constructor]. split; [exact Hpointer |].
  unfold More.no_quartz in Hsimulated.
  destruct e; cbn; try reflexivity; now rewrite Hsimulated.
Qed.

Ltac silent_step :=
  lazymatch goal with
  | |- More.preserves _ (ret _) =>
      apply (preserves_ret _ silent_refl)
  | |- More.preserves _ (bind _ _) =>
      apply (preserves_bind _ silent_trans); [| intros ?]
  | |- More.preserves _ (print _) => apply silent_emit; reflexivity
  | |- More.preserves _ (sleep _) => apply silent_emit; reflexivity
  | |- More.preserves _ (hotkey _) => apply silent_emit; reflexivity
  | |- More.preserves _ (type_text _) => apply silent_emit; reflexivity
  | |- More.preserves _ (if ?b then _ else _) => destruct b
  | |- More.preserves _ (match ?x with _ => _ end) => destruct x
  | |- _ => solve [auto]
  end.

Lemma silent_bulk_type_text (text : string) :
  More.preserves (More.silent_extension mask H) (_bulk_type_text text).
Proof.
  unfold _bulk_type_text. induction (split_lines text) as [| line later IH];
    cbn [bulk_type_lines]; repeat silent_step.
Qed.

Lemma silent_execute (action_text : string) :
  More.preserves (More.silent_extension mask H) (execute H action_text).
Proof.
  pose proof silent_bulk_type_text.
  unfold More.no_quartz in Hsimulated.
  unfold execute, with_coords, with_text, move_mouse, left_click,
    ultra_precise_click, double_click, hover, scroll.
  rewrite Hsimulated. cbn [negb].
  repeat silent_step.
Qed.

End Simulated.

(** X10.  On a host without the Quartz bindings [execute] reaches the
    host with nothing, whatever the action text: it only appends events
    to the trace, none of them a pointer event, and [hotkey] and
    [type_text] post no keystroke for any of them; pointer, trail and
    counters are as before. *)
Theorem simulated_host_is_never_touched (mask : Z) (H : Harvey.host)
    (action_text : string) (w : Harvey.world) :
  More.no_quartz H ->
  More.silent_extension mask H w (snd (Harvey.execute H action_text w)).
Proof. intros Hsimulated. now apply silent_execute. Qed.

Lemma simulated_host_is_never_touched_witness :
  More.no_quartz More.simulated_host
  /\ More.silent_extension 1048576 More.simulated_host
       (Harvey.initial_world (0, 0)%Z)
       (snd (Harvey.execute More.simulated_host "left_click(0.5, 0.5)"
                            (Harvey.initial_world (0, 0)%Z))).
Proof.
  split; [reflexivity |].
  apply (simulated_host_is_never_touched 1048576 More.simulated_host
           "left_click(0.5, 0.5)" (Harvey.initial_world (0, 0)%Z)).
  reflexivity.
Defined.

(** ** Trajectories and clicks *)

Section Trajectory.
Import Harvey.
Variable H : host.

Lemma smooth_step_trace (start_x start_y end_x end_y steps i : Z) (w : world) :
  trace (snd (smooth_step H start_x start_y end_x end_y steps i w))
  = trace w ++ More.move_to (More.waypoint start_x start_y end_x end_y steps i).
Proof.
  unfold smooth_step, bind, _add_trail_point, post_mouse_moved, sleep, emit.
  destruct (negb (MOUSE_TRAIL_ENABLED H) || negb (QUARTZ_AVAILABLE H));
    cbn; now rewrite <- app_assoc.
Qed.

Lemma for_each_trace (indices : list nat) (body : Z -> M unit)
    (posted : Z -> list event) (w : world) :
  (forall i w, trace (snd (body i w)) = trace w ++ posted i) ->
  trace (snd (for_each indices body w))
  = trace w ++ flat_map (fun i => posted (Z.of_nat i)) indices.
Proof.
  intros Hbody. revert w. induction indices as [| i later IH]; intros w.
  - cbn. now rewrite app_nil_r.
  - cbn [for_each flat_map]. unfold bind.
    specialize (Hbody (Z.of_nat i) w).
    destruct (body (Z.of_nat i) w) as [[] w1]. cbn [snd] in Hbody.
    now rewrite IH, Hbody, app_assoc.
Qed.



Lemma smooth_move_mouse_near (start_x start_y end_x end_y : Z) (w : world) :
  More.nearby (start_x, start_y) (end_x, end_y) = true ->
  smooth_move_mouse H start_x start_y end_x end_y w = (tt, w).
Proof.
  unfold More.nearby, smooth_move_mouse. cbn [fst snd]. intros ->.
  now destruct (negb (QUARTZ_AVAILABLE H)).
Qed.

Lemma smooth_move_mouse_trace (start_x start_y end_x end_y : Z) (w : world) :
  QUARTZ_AVAILABLE H = true ->
  More.nearby (start_x, start_y) (end_x, end_y) = false ->
  trace (snd (smooth_move_mouse H start_x start_y end_x end_y w))
  = trace w
    ++ More.trajectory start_x start_y end_x end_y
         (More.steps_between start_x start_y end_x end_y).
Proof.
  intros Hquartz Hfar. unfold smooth_move_mouse. rewrite Hquartz. cbn [negb].
  unfold More.nearby in Hfar. cbn [fst snd] in Hfar. rewrite Hfar.
  apply (for_each_trace _ _
           (fun i => More.move_to
                       (More.waypoint start_x start_y end_x end_y
                          (More.steps_between start_x start_y end_x end_y) i))).
  intros i w0. apply smooth_step_trace.
Qed.

Lemma trajectory_without_press (start_x start_y end_x end_y steps : Z) :
  Forall (fun e => More.is_press e = false)
         (More.trajectory start_x start_y end_x end_y steps).
Proof.
  unfold More.trajectory. apply List.Forall_flat_map, List.Forall_forall.
  intros i _. repeat constructor.
Qed.


Hypothesis Hquartz : QUARTZ_AVAILABLE H = true.

Lemma get_current_mouse_position_reads (w : world) :
  fst (get_current_mouse_position H w) = cursor w
  /\ cursor (snd (get_current_mouse_position H w)) = cursor w
  /\ trace (snd (get_current_mouse_position H w)) = trace w.
Proof.
  unfold get_current_mouse_position, _add_trail_point. rewrite Hquartz.
  destruct (cursor w) as [px py] eqn:Hcursor.
  destruct (negb (MOUSE_TRAIL_ENABLED H) || negb true); cbn; auto.
Qed.

Lemma smooth_move_mouse_arrives (start_x start_y end_x end_y : Z) (w : world) :
  cursor w = (start_x, start_y) ->
  cursor (snd (smooth_move_mouse H start_x start_y end_x end_y w))
  = if More.nearby (start_x, start_y) (end_x, end_y)
    then (start_x, start_y) else (end_x, end_y).
Proof.
  intros Hcursor.
  destruct (More.nearby (start_x, start_y) (end_x, end_y)) eqn:Hnear.
  - now rewrite smooth_move_mouse_near.
  - apply smooth_move_mouse_reaches; [exact Hquartz |].
    unfold More.nearby in Hnear. cbn [fst snd] in Hnear.
    apply Z.ltb_ge in Hnear. exact Hnear.
Qed.

Lemma smooth_move_mouse_extends (start_x start_y end_x end_y : Z) (w : world) :
  exists moved,
    trace (snd (smooth_move_mouse H start_x start_y end_x end_y w))
    = trace w ++ moved
    /\ Forall (fun e => More.is_press e = false) moved.
Proof.
  destruct (More.nearby (start_x, start_y) (end_x, end_y)) eqn:Hnear.
  - exists []. rewrite smooth_move_mouse_near by exact Hnear.
    cbn. rewrite app_nil_r. split; [reflexivity | constructor].
  - eexists. split; [now apply smooth_move_mouse_trace |].
    apply trajectory_without_press.
Qed.

Lemma nearby_within_tolerance (a b : Z * Z) :
  More.nearby a b = true ->
  (5 <? Z.abs (fst a - fst b))%Z || (5 <? Z.abs (snd a - snd b))%Z = false.
Proof.
  unfold More.nearby. intros Hnear. apply Z.ltb_lt in Hnear.
  apply orb_false_iff. split; apply Z.ltb_ge; nia.
Qed.

End Trajectory.



(** X12.  With the Quartz bindings and Spotlight not frontmost,
    [left_click] posts one press and one release, both at the point where
    the pointer is when the motion is over.  That is the calibrated
    target when the pointer started five points or more away from it; a
    pointer that started nearer is not moved at all, and the click lands
    on the pointer, not on the target.  (The pointer is taken to follow
    every posted move.) *)
Theorem left_click_presses_where_the_pointer_is (H : Harvey.host)
    (x_ratio y_ratio : Q) (w : Harvey.world) :
  More.clickable H ->
  let target := Props.calibrated_point H x_ratio y_ratio in
  let landing := if More.nearby (Harvey.cursor w) target
                 then Harvey.cursor w else target in
  let w' := snd (Harvey.left_click H x_ratio y_ratio w) in
  Harvey.cursor w' = landing
  /\ exists earlier,
       Harvey.trace w' = Harvey.trace w ++ earlier ++ More.click_at landing
       /\ Forall (fun e => More.is_press e = false) earlier.
Proof.
  intros [Hquartz Hspotlight] target landing w'.
  assert (Hrun : w' = snd (Harvey.left_click H x_ratio y_ratio w)) by reflexivity.
  clearbody w'. subst target landing.
  unfold Harvey.left_click, Harvey.ultra_precise_click in Hrun.
  unfold Props.calibrated_point.
  rewrite Hquartz, Hspotlight in Hrun. cbn [negb] in Hrun.
  destruct (Harvey._transform_coords H x_ratio y_ratio) as [px0 py0].
  destruct (Harvey.calibrate_click_position H px0 py0) as [px py].
  unfold Harvey.bind at 1 in Hrun.
  destruct (get_current_mouse_position_reads H Hquartz w) as (Hread1 & Hcursor1 & Htrace1).
  destruct (Harvey.get_current_mouse_position H w) as [[cx cy] w1].
  cbn [fst snd] in Hread1, Hcursor1, Htrace1.
  unfold Harvey.bind at 1 in Hrun.
  pose proof (smooth_move_mouse_arrives H Hquartz cx cy px py w1) as Hcursor2.
  rewrite Hcursor1, <- Hread1 in Hcursor2. specialize (Hcursor2 eq_refl).
  destruct (smooth_move_mouse_extends H Hquartz cx cy px py w1)
    as (moved & Htrace2 & Hmoved).
  destruct (Harvey.smooth_move_mouse H cx cy px py w1) as [[] w2].
  cbn [snd] in Hcursor2, Htrace2.
  unfold Harvey.bind at 1 in Hrun. cbn [Harvey.sleep Harvey.emit] in Hrun.
  set (w3 := {| Harvey.TRAIL_POINTS := Harvey.TRAIL_POINTS w2 |}) in Hrun.
  unfold Harvey.bind at 1 in Hrun.
  destruct (get_current_mouse_position_reads H Hquartz w3) as (Hread4 & Hcursor4 & Htrace4).
  destruct (Harvey.get_current_mouse_position H w3) as [[fx fy] w4].
  cbn [fst snd] in Hread4, Hcursor4, Htrace4.
  assert (Hfinal : (fx, fy) = if More.nearby (cx, cy) (px, py) then (cx, cy) else (px, py)).
  { rewrite Hread4. subst w3. cbn [Harvey.cursor]. exact Hcursor2. }
  assert (Hclose : (5 <? Z.abs (fx - px))%Z || (5 <? Z.abs (fy - py))%Z = false).
  { destruct (More.nearby (cx, cy) (px, py)) eqn:Hnear.
    - injection Hfinal as -> ->.
      exact (nearby_within_tolerance (cx, cy) (px, py) Hnear).
    - injection Hfinal as -> ->. rewrite !Z.sub_diag. reflexivity. }
  rewrite Hclose in Hrun. unfold Harvey.bind at 1 in Hrun. cbn [Harvey.ret] in Hrun.
  unfold Harvey.bind at 1 in Hrun.
  destruct (get_current_mouse_position_reads H Hquartz w4) as (Hread5 & Hcursor5 & Htrace5).
  destruct (Harvey.get_current_mouse_position H w4) as [[kx ky] w5].
  cbn [fst snd] in Hread5, Hcursor5, Htrace5.
  assert (Hclick : (kx, ky) = (fx, fy)) by congruence.
  injection Hclick as -> ->.
  rewrite <- Hread1. rewrite <- Hfinal.
  unfold Harvey.bind, Harvey.sleep, Harvey.emit in Hrun. cbn in Hrun.
  subst w'. cbn [Harvey.cursor Harvey.trace].
  split; [congruence |].
  exists (moved ++ [Harvey.Sleep (Qred (15 # 100))]). split.
  - rewrite Htrace5, Htrace4. subst w3. cbn [Harvey.trace].
    rewrite Htrace2, Htrace1. unfold More.click_at. cbn [fst snd].
    now rewrite <- !app_assoc.
  - apply List.Forall_app. split; [exact Hmoved | repeat constructor].
Qed.

Lemma left_click_presses_where_the_pointer_is_witness :
  let H := Props.full_hd 10 (-3) in
  let w := Harvey.initial_world (968, 540)%Z in
  let w' := snd (Harvey.left_click H (1 # 2) (1 # 2) w) in
  More.clickable H
  /\ Props.calibrated_point H (1 # 2) (1 # 2) = (970, 537)%Z
  /\ Harvey.cursor w' = (968, 540)%Z
  /\ exists earlier,
       Harvey.trace w' = Harvey.trace w ++ earlier ++ More.click_at (968, 540)%Z
       /\ Forall (fun e => More.is_press e = false) earlier.
Proof.
  cbv zeta. split; [split; reflexivity |]. split; [reflexivity |].
  apply (left_click_presses_where_the_pointer_is (Props.full_hd 10 (-3))
           (1 # 2) (1 # 2) (Harvey.initial_world (968, 540)%Z)).
  split; reflexivity.
Defined.

(** ** The keyboard *)

Section KeyboardMore.
Variable mask : Z.

Lemma split_char_without (c : ascii) (s : string) :
  Keyboard.has_char c s = false -> Keyboard.split_char c s = [s].
Proof.
  induction s as [| d s IH]; [reflexivity |].
  cbn. destruct (Ascii.eqb c d); [discriminate |]. cbn.
  intros Hs. now rewrite (IH Hs).
Qed.




End KeyboardMore.

(** X13.  With the Quartz bindings [hotkey] looks up one key name, the
    part of the combination after its last plus sign, in lower case
    (the whole text when it has no plus sign: the two branches of the
    code agree).  A name outside the table of 40 posts nothing.  A name
    of the table posts one press and one release of its key code, 20 ms
    apart; the modifier names before it decide the flags of the press,
    and the release clears them. *)
Theorem hotkey_presses_one_known_key (mask : Z) (key_combo : string) :
  Keyboard.hotkey mask true key_combo
  = match Keyboard.table_get (More.key_of key_combo) Keyboard.key_codes with
    | Some key_code =>
        More.stroke key_code
          (Keyboard.modifier_flags mask (More.modifiers_of key_combo))
    | None => []
    end.
Proof.
  unfold Keyboard.hotkey, More.key_of, More.modifiers_of, More.stroke.
  cbn [negb].
  destruct (Keyboard.has_char "+"%char key_combo) eqn:Hplus; [reflexivity |].
  rewrite (split_char_without _ _ Hplus). reflexivity.
Qed.




(** ** Waiting *)

Section Decimals.
Import Harvey.



Lemma string_of_uint_digits (d : Decimal.uint) :
  Props.all_chars isdigit (NilEmpty.string_of_uint d) = true.
Proof. induction d; cbn; auto. Qed.



End Decimals.


(** ** Directives: from the reply to the executor *)

Section Directives.
Import Harvey.

Lemma lstrip_all (p : ascii -> bool) (s : string) :
  Props.all_chars p s = true -> Props.all_chars p (lstrip s) = true.
Proof.
  induction s as [| c s IH]; [reflexivity |].
  intros Hs. cbn [lstrip]. destruct (isspace c); [| exact Hs].
  cbn in Hs. apply andb_true_iff in Hs as [_ Hs]. now apply IH.
Qed.

Lemma rstrip_all (p : ascii -> bool) (s : string) :
  Props.all_chars p s = true -> Props.all_chars p (rstrip s) = true.
Proof.
  induction s as [| c s IH]; [reflexivity |].
  intros Hs. cbn in Hs. apply andb_true_iff in Hs as [Hc Hs].
  cbn [rstrip]. specialize (IH Hs). destruct (rstrip s) as [| d r].
  - destruct (isspace c); [reflexivity | cbn; now rewrite Hc].
  - change (Props.all_chars p (String c (String d r)))
      with (p c && Props.all_chars p (String d r)).
    now rewrite Hc, IH.
Qed.

Lemma strip_all (p : ascii -> bool) (s : string) :
  Props.all_chars p s = true -> Props.all_chars p (strip s) = true.
Proof. intros Hs. unfold strip. now apply rstrip_all, lstrip_all. Qed.

Lemma drop_all (p : ascii -> bool) (n : nat) (s : string) :
  Props.all_chars p s = true -> Props.all_chars p (drop n s) = true.
Proof.
  revert s. induction n as [| n IH]; intros s Hs; [now destruct s |].
  destruct s as [| c s]; [reflexivity |].
  cbn in Hs. apply andb_true_iff in Hs as [_ Hs]. cbn [drop]. now apply IH.
Qed.

Lemma remove_char_all (p : ascii -> bool) (c : ascii) (s : string) :
  Props.all_chars p s = true -> Props.all_chars p (remove_char c s) = true.
Proof.
  induction s as [| d s IH]; [reflexivity |].
  intros Hs. cbn in Hs. apply andb_true_iff in Hs as [Hd Hs].
  cbn [remove_char]. destruct (Ascii.eqb c d); [now apply IH |].
  cbn. now rewrite Hd, IH.
Qed.

Lemma remove_char_gone (c : ascii) (s : string) :
  Props.all_chars (fun d => negb (Ascii.eqb c d)) (remove_char c s) = true.
Proof.
  induction s as [| d s IH]; [reflexivity |].
  cbn [remove_char]. destruct (Ascii.eqb c d) eqn:Hcd; [exact IH |].
  cbn. now rewrite Hcd, IH.
Qed.

Lemma split_lines_all (s : string) :
  Forall (fun line => Props.all_chars More.notnewline line = true) (split_lines s).
Proof.
  induction s as [| c s IH]; [repeat constructor |].
  cbn [split_lines]. destruct (Ascii.eqb c "010"%char) eqn:Hc.
  - constructor; [reflexivity | exact IH].
  - destruct (split_lines s) as [| h t].
    + repeat constructor. cbn. unfold More.notnewline. now rewrite Hc.
    + inversion IH as [| ? ? Hh Ht]; subst. constructor; [| exact Ht].
      cbn. unfold More.notnewline at 1. now rewrite Hc, Hh.
Qed.

Lemma split_lines_single (s : string) :
  Props.all_chars More.notnewline s = true -> split_lines s = [s].
Proof.
  induction s as [| c s IH]; [reflexivity |].
  cbn. unfold More.notnewline at 1. intros Hs.
  apply andb_true_iff in Hs as [Hc Hs]. apply negb_true_iff in Hc.
  now rewrite Hc, (IH Hs).
Qed.

Lemma scan_lines_all (p : ascii -> bool) (lines : list string)
    (see_line action : string) :
  Forall (fun line => Props.all_chars p line = true) lines ->
  Props.all_chars p action = true ->
  Props.all_chars p (snd (scan_lines lines see_line action)) = true.
Proof.
  intros Hlines. revert see_line action.
  induction Hlines as [| line later Hline Hlater IH]; intros see_line action Haction;
    [exact Haction |].
  cbn [scan_lines].
  pose proof (strip_all p line Hline) as Hstripped.
  repeat match goal with
  | |- context [if ?b then _ else _] => destruct b
  end; cbn [snd]; auto using strip_all, drop_all.
Qed.

(** Stripping twice is stripping once. *)
Lemma lstrip_stops (s : string) : Props.stops isspace (lstrip s) = true.
Proof.
  induction s as [| c s IH]; [reflexivity |].
  cbn [lstrip]. destruct (isspace c) eqn:Hc; [exact IH |]. cbn. now rewrite Hc.
Qed.

Lemma rstrip_stops (s : string) :
  Props.stops isspace s = true -> Props.stops isspace (rstrip s) = true.
Proof.
  destruct s as [| c s]; [reflexivity |]. cbn [Props.stops rstrip]. intros Hc.
  destruct (rstrip s); [| exact Hc].
  apply negb_true_iff in Hc. rewrite Hc. cbn. now rewrite Hc.
Qed.

Lemma lstrip_stopped (s : string) : Props.stops isspace s = true -> lstrip s = s.
Proof.
  destruct s as [| c s]; [reflexivity |]. cbn. intros Hc.
  apply negb_true_iff in Hc. now rewrite Hc.
Qed.

Lemma rstrip_idempotent (s : string) : rstrip (rstrip s) = rstrip s.
Proof.
  induction s as [| c s IH]; [reflexivity |].
  cbn [rstrip]. destruct (rstrip s) as [| d r] eqn:Hr.
  - destruct (isspace c) eqn:Hc; [reflexivity |]. cbn. now rewrite Hc.
  - cbn [rstrip] in IH |- *. now rewrite IH.
Qed.

Lemma strip_idempotent (s : string) : strip (strip s) = strip s.
Proof.
  unfold strip.
  rewrite (lstrip_stopped (rstrip (lstrip s))) by apply rstrip_stops, lstrip_stops.
  apply rstrip_idempotent.
Qed.

Lemma span_fst_all (p q : ascii -> bool) (s : string) :
  Props.all_chars p s = true -> Props.all_chars p (fst (span q s)) = true.
Proof.
  induction s as [| c s IH]; [reflexivity |].
  intros Hs. cbn in Hs. apply andb_true_iff in Hs as [Hc Hs]. cbn [span].
  destruct (q c); [| reflexivity].
  specialize (IH Hs). destruct (span q s) as [a b]. cbn in *. now rewrite Hc.
Qed.

Lemma extract_text_all (p : ascii -> bool) (s text : string) :
  Props.all_chars p s = true -> _extract_text s = Some text ->
  Props.all_chars p text = true.
Proof.
  unfold _extract_text. induction s as [| c s IH]; intros Hs; cbn [search].
  - cbn. discriminate.
  - pose proof Hs as Hall. cbn in Hs. apply andb_true_iff in Hs as [Hc Hs].
    destruct (text_here (String c s)) as [group |] eqn:Hhere.
    + intros [= <-]. unfold text_here in Hhere. cbn [expect] in Hhere.
      destruct (Ascii.eqb "034"%char c); [| discriminate].
      pose proof (span_fst_all p (fun c => negb (Ascii.eqb c "034"%char)) s Hs) as Hgroup.
      destruct (span _ s) as [g rest]. cbn [fst] in Hgroup.
      destruct (expect "034"%char rest); [| discriminate].
      now injection Hhere as <-.
    + now apply IH.
Qed.

Lemma parse_reply_one_line (reply : string) :
  Props.all_chars More.notnewline (snd (parse_reply reply)) = true.
Proof.
  unfold parse_reply.
  pose proof (scan_lines_all More.notnewline (split_lines (strip reply))
                EmptyString EmptyString (split_lines_all _) eq_refl) as Hscan.
  destruct (scan_lines _ _ _) as [see action]. cbn [snd] in *.
  destruct (truthy action) eqn:Haction.
  - destruct (truthy (strip (remove_char "`"%char action))); [| reflexivity].
    now apply strip_all, remove_char_all.
  - now rewrite Haction.
Qed.

Lemma startswith_first (c d : ascii) (p q s : string) :
  c <> d -> startswith (String c p) s = true -> startswith (String d q) s = false.
Proof.
  intros Hcd. unfold startswith. destruct s as [| e s]; [discriminate |]. cbn.
  destruct (ascii_dec c e) as [<- |]; [| discriminate].
  intros _. destruct (ascii_dec d c) as [-> |]; [congruence | reflexivity].
Qed.

End Directives.

(** X17.  Whatever the model replies, the directive [think] returns is
    one clean line: not empty, without a line feed, without a backtick,
    and with no blank at either end. *)
Theorem directive_is_one_clean_line (reply : string) :
  More.clean_line (snd (Harvey.parse_reply reply)).
Proof.
  unfold More.clean_line. split; [apply parse_reply_truthy |].
  split; [| split; [apply parse_reply_one_line |]].
  - unfold Harvey.parse_reply.
    destruct (Harvey.scan_lines _ _ _) as [see action]. cbn [snd].
    destruct (truthy action) eqn:Haction.
    + destruct (truthy (strip (remove_char "`"%char action))); [| reflexivity].
      apply strip_idempotent.
    + now rewrite Haction.
  - unfold Harvey.parse_reply.
    destruct (Harvey.scan_lines _ _ _) as [see action]. cbn [snd].
    destruct (truthy action) eqn:Haction.
    + destruct (truthy (strip (remove_char "`"%char action))); [| reflexivity].
      apply strip_all. apply remove_char_gone.
    + now rewrite Haction.
Qed.

(** X18.  A bulk_type directive that comes out of [think] never types
    more than one line: the directive is a single line of the reply, so
    the quoted text holds no line feed, and [_bulk_type_text] calls
    [type_text] once (not at all for a blank text) and never presses
    enter. *)
Theorem bulk_type_from_think_is_one_line (H : Harvey.host) (reply : string)
    (w : Harvey.world) :
  let action := snd (Harvey.parse_reply reply) in
  startswith "bulk_type" action = true ->
  Harvey.execute H action w
  = (false,
     Props.after_events
       (Harvey.Print (Harvey.Executing action)
        :: match Harvey._extract_text action with
           | Some text =>
               if truthy (strip text) then [Harvey.CallTypeText text] else []
           | None => []
           end)
       w).
Proof.
  cbv zeta. intros Hbulk.
  pose proof (parse_reply_one_line reply) as Hline.
  set (action := snd (Harvey.parse_reply reply)) in *. clearbody action.
  unfold Harvey.execute, Harvey.bind at 1. cbn [Harvey.print Harvey.emit].
  rewrite (startswith_first "b" "m" _ _ _ ltac:(discriminate) Hbulk).
  rewrite (startswith_first "b" "l" _ _ _ ltac:(discriminate) Hbulk).
  rewrite (startswith_first "b" "d" _ _ _ ltac:(discriminate) Hbulk).
  rewrite (startswith_first "b" "h" _ _ _ ltac:(discriminate) Hbulk).
  rewrite Hbulk. unfold Harvey.with_text.
  destruct (Harvey._extract_text action) as [text |] eqn:Htext.
  - pose proof (extract_text_all More.notnewline action text Hline Htext) as Hone.
    unfold Harvey._bulk_type_text. rewrite (split_lines_single text Hone).
    cbn [Harvey.bulk_type_lines].
    destruct (truthy text) eqn:Hnonempty.
    + destruct (truthy (strip text)).
      * unfold Harvey.bind, Harvey.type_text, Harvey.emit, Harvey.ret,
          Props.after_events. cbn. now rewrite <- app_assoc.
      * reflexivity.
    + destruct text; [reflexivity | discriminate].
  - reflexivity.
Qed.

Lemma bulk_type_from_think_is_one_line_witness :
  let reply :=
    ("See: a blank document" ++ newline
     ++ "Action: bulk_type(" ++ dquote ++ "Roses are red," ++ newline
     ++ "violets are blue" ++ dquote ++ ")")%string in
  let action := snd (Harvey.parse_reply reply) in
  startswith "bulk_type" action = true
  /\ Harvey._extract_text action = None
  /\ Harvey.execute (Props.full_hd 0 0) action (Harvey.initial_world (0, 0)%Z)
     = (false,
        Props.after_events
          (Harvey.Print (Harvey.Executing action)
           :: match Harvey._extract_text action with
              | Some text =>
                  if truthy (strip text) then [Harvey.CallTypeText text] else []
              | None => []
              end)
          (Harvey.initial_world (0, 0)%Z)).
Proof.
  cbv zeta. split; [reflexivity |]. split; [reflexivity |].
  apply (bulk_type_from_think_is_one_line (Props.full_hd 0 0)).
  reflexivity.
Defined.

(** X19.  An action text that begins with none of the eleven names
    [execute] dispatches on only prints its line: no input event, no
    sleep, result [False].  right_click, which the prompt of [think]
    offers to the model, is such a text. *)
Theorem undispatched_action_is_ignored (H : Harvey.host) (action_text : string)
    (w : Harvey.world) :
  Forall (fun name => startswith name action_text = false) More.dispatched ->
  Harvey.execute H action_text w
  = (false, Props.after_events [Harvey.Print (Harvey.Executing action_text)] w).
Proof.
  unfold More.dispatched. intros Hnames. rewrite List.Forall_forall in Hnames.
  unfold Harvey.execute, Harvey.bind. cbn [Harvey.print Harvey.emit].
  repeat match goal with
  | |- context [startswith ?name action_text] =>
      rewrite (Hnames name) by (cbn; tauto)
  end.
  reflexivity.
Qed.

Lemma undispatched_action_is_ignored_witness :
  Harvey.execute (Props.full_hd 0 0) "right_click(0.5, 0.5)"
                 (Harvey.initial_world (0, 0)%Z)
  = (false,
     Props.after_events
       [Harvey.Print (Harvey.Executing "right_click(0.5, 0.5)")]
       (Harvey.initial_world (0, 0)%Z)).
Proof.
  apply (undispatched_action_is_ignored (Props.full_hd 0 0) "right_click(0.5, 0.5)").
  repeat constructor.
Defined.

(** ** The control loop: where a run ends *)

Section Runs.
Import Harvey.
Variable H : host.
Variable C : collaborators.
Hypothesis Hcaptures : Props.always_captures C.

Lemma advanced_refl (w : world) : More.advanced 0 w w.
Proof. repeat split; try lia. exists []. now rewrite app_nil_r. Qed.

Lemma advanced_trans (a b : nat) (w1 w2 w3 : world) :
  More.advanced a w1 w2 -> More.advanced b w2 w3 -> More.advanced (a + b) w1 w3.
Proof.
  intros (Hc & Hm & first & Hfirst) (Hc' & Hm' & second & Hsecond).
  repeat split; [lia | lia |].
  exists (first ++ second). now rewrite Hsecond, Hfirst, app_assoc.
Qed.

(** An iteration up to the call of [execute]. *)
Lemma iteration_opens (step : nat) (later : list nat) (task : string)
    (ends : bool) (w : world) :
  More.answers C (model_calls w) task ends ->
  exists action w1,
    startswith "done" action = ends
    /\ More.advanced 1 w w1
    /\ run_steps H C (step :: later) task w
       = (done <- execute H action ;;
          if done then print TaskComplete
          else sleep 1 ;; run_steps H C later task)%stmt w1.
Proof.
  intros Hanswers.
  destruct (Hcaptures (captures w)) as (image & Himage & Htruthy).
  destruct (Hanswers image) as (reply & Hreply & Hends).
  exists (snd (parse_reply reply)).
  cbn [run_steps]. unfold bind at 1. unfold print at 1. cbn [emit].
  unfold bind at 1. unfold capture_screenshot at 1. cbn [captures].
  rewrite Himage, Htruthy. cbn [negb].
  unfold bind at 1.
  match goal with
  | |- context [(if (step =? 0)%nat then _ else _) ?w'] => set (w0 := w')
  end.
  assert (Hsaved : exists w',
             (if (step =? 0)%nat then emit SaveDebugScreenshot else ret tt) w0 = (tt, w')
             /\ captures w' = S (captures w) /\ model_calls w' = model_calls w
             /\ exists added, trace w' = trace w ++ added).
  { destruct (step =? 0)%nat; eexists; (split; [reflexivity |]);
      cbn; repeat split; eauto. now rewrite <- app_assoc; eauto. }
  destruct Hsaved as (w' & -> & Hc & Hm & saved & Hsaved).
  unfold bind at 1. rewrite (think_returns C task image reply w')
    by (rewrite Hm; exact Hreply).
  unfold bind at 1, get_last_see. unfold bind at 1, _speak_rationale. cbn [emit].
  eexists. split; [exact Hends |]. split; [| reflexivity].
  unfold More.advanced, Props.thought. cbn [captures model_calls trace].
  rewrite Hc, Hm, Hsaved. repeat split; try lia.
  destruct (truthy (fst (parse_reply reply))); rewrite <- ?app_assoc; eauto.
Qed.

Lemma iteration_goes_on (step : nat) (later : list nat) (task : string) (w : world) :
  More.answers C (model_calls w) task false ->
  exists w1,
    More.advanced 1 w w1
    /\ run_steps H C (step :: later) task w = run_steps H C later task w1.
Proof.
  intros Hanswers.
  destruct (iteration_opens step later task false w Hanswers)
    as (action & w1 & Hdone & Hone & ->).
  unfold bind at 1.
  pose proof (execute_returns_done_prefix H action w1) as Hresult.
  pose proof (steady_execute H action w1) as (Hc & Hm & added & Hadded).
  destruct (execute H action w1) as [done w2]. cbn [fst snd] in *.
  rewrite Hresult, Hdone. unfold bind at 1. cbn [sleep emit].
  eexists. split; [| reflexivity].
  replace 1%nat with (1 + 0)%nat by lia.
  apply (advanced_trans 1 0 w w1); [exact Hone |].
  unfold More.advanced. cbn [captures model_calls trace].
  rewrite Hc, Hm, Hadded. repeat split; try lia.
  rewrite <- app_assoc. eauto.
Qed.

Lemma iteration_stops (step : nat) (later : list nat) (task : string) (w : world) :
  More.answers C (model_calls w) task true ->
  exists w1 earlier,
    run_steps H C (step :: later) task w = (tt, w1)
    /\ captures w1 = S (captures w) /\ model_calls w1 = S (model_calls w)
    /\ trace w1
       = trace w ++ earlier ++ [Print TaskCompletedSuccessfully; Print TaskComplete].
Proof.
  intros Hanswers.
  destruct (iteration_opens step later task true w Hanswers)
    as (action & w1 & Hdone & (Hc & Hm & opened & Hopened) & ->).
  apply startswith_split in Hdone as [rest ->].
  unfold bind at 1. rewrite execute_done_prefix.
  exists (snd (print TaskComplete
                 (Props.after_events
                    [Print (Executing ("done" ++ rest)); Print TaskCompletedSuccessfully]
                    w1))),
    (opened ++ [Print (Executing ("done" ++ rest))]).
  split; [reflexivity |].
  unfold Props.after_events. cbn. rewrite Hc, Hm, Hopened.
  repeat split; try lia. now rewrite <- !app_assoc.
Qed.

Lemma run_steps_stop_at (k : nat) (steps : list nat) (task : string) (w : world) :
  (k < length steps)%nat ->
  (forall n, (n < k)%nat -> More.answers C (model_calls w + n) task false) ->
  More.answers C (model_calls w + k) task true ->
  exists w1 earlier,
    run_steps H C steps task w = (tt, w1)
    /\ captures w1 = (captures w + k + 1)%nat
    /\ model_calls w1 = (model_calls w + k + 1)%nat
    /\ trace w1
       = trace w ++ earlier ++ [Print TaskCompletedSuccessfully; Print TaskComplete].
Proof.
  revert steps w. induction k as [| k IH]; intros steps w Hlength Hbefore Hat;
    destruct steps as [| step later]; cbn [length] in Hlength; try lia.
  - rewrite Nat.add_0_r in Hat.
    destruct (iteration_stops step later task w Hat) as (w1 & earlier & Hrun & Hc & Hm & Ht).
    exists w1, earlier. repeat split; [exact Hrun | lia | lia | exact Ht].
  - assert (Hfirst : More.answers C (model_calls w) task false).
    { rewrite <- (Nat.add_0_r (model_calls w)). apply Hbefore. lia. }
    destruct (iteration_goes_on step later task w Hfirst)
      as (w1 & (Hc & Hm & added & Hadded) & ->).
    destruct (IH later w1) as (w2 & earlier & Hrun & Hc2 & Hm2 & Ht2).
    + lia.
    + intros n Hn. rewrite Hm.
      replace (model_calls w + 1 + n)%nat with (model_calls w + S n)%nat by lia.
      apply Hbefore. lia.
    + rewrite Hm.
      now replace (model_calls w + 1 + k)%nat with (model_calls w + S k)%nat by lia.
    + exists w2, (added ++ earlier).
      repeat split; [exact Hrun | lia | lia |].
      now rewrite Ht2, Hadded, <- !app_assoc.
Qed.

Lemma run_steps_go_on (steps : list nat) (task : string) (w : world) :
  (forall n, More.answers C n task false) ->
  exists w1,
    run_steps H C steps task w = (tt, w1) /\ More.advanced (length steps) w w1.
Proof.
  intros Hnever. revert w. induction steps as [| step later IH]; intros w.
  - exists w. split; [reflexivity | apply advanced_refl].
  - destruct (iteration_goes_on step later task w (Hnever _)) as (w1 & Hone & ->).
    destruct (IH w1) as (w2 & Hrun & Hmany).
    exists w2. split; [exact Hrun |].
    change (length (step :: later)) with (1 + length later)%nat.
    now apply (advanced_trans _ _ w w1).
Qed.

Lemma run_result (task : string) (w w1 : world) :
  run_steps H C (seq 0 20) task (Props.after_events [Print (Starting task)] w)
  = (tt, w1) ->
  run H C task w = (tt, Props.after_events [Print Finished] w1).
Proof.
  intros Hrun. unfold run, bind, print. rewrite emit_after, Hrun. reflexivity.
Qed.

End Runs.

(** X20.  When every screen capture succeeds and the model answers its
    calls with replies, the run ends at the first directive that begins
    with done: if that is the directive of call number [k] (counted from
    0, [k < 20]), the run makes exactly [k + 1] captures and [k + 1]
    model calls, and the last lines it prints are those of completion. *)
Theorem run_stops_at_first_done (H : Harvey.host) (C : Harvey.collaborators)
    (task : string) (w : Harvey.world) (k : nat) :
  Props.always_captures C ->
  (k < 20)%nat ->
  (forall n, (n < k)%nat -> More.answers C (Harvey.model_calls w + n) task false) ->
  More.answers C (Harvey.model_calls w + k) task true ->
  let w' := snd (Harvey.run H C task w) in
  Harvey.captures w' = (Harvey.captures w + k + 1)%nat
  /\ Harvey.model_calls w' = (Harvey.model_calls w + k + 1)%nat
  /\ exists earlier,
       Harvey.trace w'
       = Harvey.trace w ++ earlier
         ++ [ Harvey.Print Harvey.TaskCompletedSuccessfully;
              Harvey.Print Harvey.TaskComplete; Harvey.Print Harvey.Finished ].
Proof.
  intros Hcaptures Hk Hbefore Hat. cbv zeta.
  destruct (run_steps_stop_at H C Hcaptures k (seq 0 20) task
              (Props.after_events [Harvey.Print (Harvey.Starting task)] w))
    as (w1 & earlier & Hrun & Hc & Hm & Ht);
    [rewrite length_seq; lia | exact Hbefore | exact Hat |].
  rewrite (run_result H C task w w1 Hrun). cbn.
  rewrite Hc, Hm, Ht. cbn. repeat split.
  exists (Harvey.Print (Harvey.Starting task) :: earlier).
  now rewrite <- !app_assoc.
Qed.

Lemma run_stops_at_first_done_witness :
  let w := Harvey.initial_world (0, 0)%Z in
  let w' := snd (Harvey.run (Props.full_hd 0 0) More.third_time_done "open notes" w) in
  Harvey.captures w' = 3%nat
  /\ Harvey.model_calls w' = 3%nat
  /\ exists earlier,
       Harvey.trace w'
       = Harvey.trace w ++ earlier
         ++ [ Harvey.Print Harvey.TaskCompletedSuccessfully;
              Harvey.Print Harvey.TaskComplete; Harvey.Print Harvey.Finished ].
Proof.
  apply (run_stops_at_first_done (Props.full_hd 0 0) More.third_time_done
           "open notes" (Harvey.initial_world (0, 0)%Z) 2).
  - intros n. exists "image". split; reflexivity.
  - lia.
  - intros n Hn image. exists "Action: wait(10)".
    destruct n as [| [| n]]; [split; reflexivity | split; reflexivity | lia].
  - intros image. exists "Action: done()". split; reflexivity.
Defined.

(** X21.  When every screen capture succeeds and no directive of the
    model begins with done, the run spends its whole budget, whatever
    the directives make [execute] do: exactly 20 captures and 20 model
    calls. *)
Theorem run_without_done_spends_the_budget (H : Harvey.host)
    (C : Harvey.collaborators) (task : string) (w : Harvey.world) :
  Props.always_captures C ->
  (forall n, More.answers C n task false) ->
  More.advanced 20 w (snd (Harvey.run H C task w)).
Proof.
  intros Hcaptures Hnever.
  destruct (run_steps_go_on H C Hcaptures (seq 0 20) task
              (Props.after_events [Harvey.Print (Harvey.Starting task)] w) Hnever)
    as (w1 & Hrun & Hc & Hm & added & Hadded).
  rewrite (run_result H C task w w1 Hrun). rewrite length_seq in Hc, Hm.
  unfold More.advanced. cbn. rewrite Hc, Hm, Hadded. cbn.
  repeat split. rewrite <- !app_assoc. eauto.
Qed.

Lemma run_without_done_spends_the_budget_witness :
  More.advanced 20 (Harvey.initial_world (0, 0)%Z)
    (snd (Harvey.run (Props.full_hd 0 0) Props.puzzled_model "open notes"
                     (Harvey.initial_world (0, 0)%Z))).
Proof.
  apply (run_without_done_spends_the_budget (Props.full_hd 0 0) Props.puzzled_model).
  - intros n. exists "image". split; reflexivity.
  - intros n image. exists "I am not sure what to do next.". split; reflexivity.
Defined.

(** X22.  A screen capture that fails, with no data or with empty data,
    ends the loop in the iteration it occurs in, before any model call
    of that iteration: only the failure line is printed. *)
Theorem failed_capture_ends_the_loop (H : Harvey.host) (C : Harvey.collaborators)
    (step : nat) (later : list nat) (task : string) (w : Harvey.world) :
  More.capture_fails C (Harvey.captures w) ->
  let w' := snd (Harvey.run_steps H C (step :: later) task w) in
  Harvey.model_calls w' = Harvey.model_calls w
  /\ Harvey.captures w' = S (Harvey.captures w)
  /\ Harvey.trace w'
     = Harvey.trace w
       ++ [Harvey.Print Harvey.TakingScreenshot; Harvey.Print Harvey.CaptureFailed].
Proof.
  intros Hfails. cbv zeta. cbn [Harvey.run_steps].
  unfold Harvey.bind, Harvey.capture_screenshot, Harvey.print, Harvey.emit.
  cbn [Harvey.captures].
  destruct Hfails as [-> | ->]; cbn; now rewrite <- app_assoc.
Qed.

Lemma failed_capture_ends_the_loop_witness :
  let w := Harvey.initial_world (0, 0)%Z in
  let w' := snd (Harvey.run_steps (Props.full_hd 0 0) More.blind (seq 0 20)
                                  "open notes" w) in
  Harvey.model_calls w' = 0%nat
  /\ Harvey.captures w' = 1%nat
  /\ Harvey.trace w'
     = Harvey.trace w
       ++ [Harvey.Print Harvey.TakingScreenshot; Harvey.Print Harvey.CaptureFailed].
Proof.
  apply (failed_capture_ends_the_loop (Props.full_hd 0 0) More.blind 0 (seq 1 19)
           "open notes" (Harvey.initial_world (0, 0)%Z)).
  now left.
Defined.

(** ** The offsets file *)

Section EnvFileMore.
Import EnvFile.

Lemma rstrip_keeps_prefix (a : string) (c : ascii) (b : string) :
  isspace c = false -> exists b', rstrip (a ++ String c b) = (a ++ String c b')%string.
Proof.
  intros Hc. induction a as [| d a IH].
  - rewrite append_empty. cbn [rstrip]. destruct (rstrip b) as [| e r].
    + rewrite Hc. now exists EmptyString.
    + now exists (String e r).
  - destruct IH as [b' IH]. exists b'. rewrite !append_String. cbn [rstrip].
    rewrite IH. now destruct a.
Qed.

Lemma stops_app (p : ascii -> bool) (a : string) (c : ascii) (b : string) :
  Props.stops p a = true -> p c = false ->
  Props.stops p (a ++ String c b) = true.
Proof.
  destruct a as [| d a]; [| now rewrite append_String].
  rewrite append_empty. cbn. now intros _ ->.
Qed.

(** The line written for a key defines that key, when the key does not
    begin with a blank. *)
Lemma defines_own_line (key value : string) :
  Props.stops isspace key = true ->
  defines key (More.definition_line key value) = true.
Proof.
  intros Hkey. unfold defines, More.definition_line, strip.
  change ("=" ++ value)%string with (String "=" value).
  rewrite lstrip_stopped by now apply stops_app.
  destruct (rstrip_keeps_prefix key "="%char value eq_refl) as [b' ->].
  change (String "=" b') with ("=" ++ b')%string.
  rewrite <- append_assoc. apply startswith_app.
Qed.

Variable key : string.
Hypothesis Hkey : Props.stops isspace key = true.

Lemma set_or_replace_first (lines : list string) (value : string) :
  List.find (defines key) (set_or_replace lines key value)
  = Some (More.definition_line key value).
Proof.
  pose proof (defines_own_line key value Hkey) as Hown.
  unfold More.definition_line in *.
  induction lines as [| line rest IH]; cbn [set_or_replace List.find].
  - now rewrite Hown.
  - destruct (defines key line) eqn:Hline; cbn [List.find];
      rewrite ?Hown, ?Hline; auto.
Qed.

Lemma set_or_replace_others (lines : list string) (value : string) :
  More.others key (set_or_replace lines key value) = More.others key lines.
Proof.
  pose proof (defines_own_line key value Hkey) as Hown.
  unfold More.definition_line, More.others in *.
  induction lines as [| line rest IH]; cbn [set_or_replace List.filter].
  - now rewrite Hown.
  - destruct (defines key line) eqn:Hline; cbn [List.filter negb];
      rewrite ?Hown, ?Hline, ?IH; reflexivity.
Qed.

Lemma set_or_replace_length (lines : list string) (value : string) :
  length (set_or_replace lines key value)
  = if existsb (defines key) lines then length lines else S (length lines).
Proof.
  induction lines as [| line rest IH]; [reflexivity |].
  cbn [set_or_replace existsb]. destruct (defines key line); [reflexivity |].
  cbn [orb length]. rewrite IH. now destruct (existsb (defines key) rest).
Qed.

Lemma set_or_replace_fixed (lines : list string) (value : string) :
  List.find (defines key) lines = Some (More.definition_line key value) ->
  set_or_replace lines key value = lines.
Proof.
  unfold More.definition_line.
  induction lines as [| line rest IH]; [discriminate |].
  cbn [set_or_replace List.find]. destruct (defines key line).
  - now intros [= ->].
  - intros Hrest. now rewrite IH.
Qed.

End EnvFileMore.

(** X23.  For a key that does not begin with a blank, [set_or_replace]
    is an upsert on the first definition: afterwards the first line that
    defines the key is [key=value]; every line that does not define the
    key is kept, in order; the list grows by one line exactly when no
    line defined the key before.  Later definitions of the same key are
    left as they are. *)
Theorem set_or_replace_upserts (key value : string) (lines : list string) :
  Props.stops isspace key = true ->
  List.find (EnvFile.defines key) (EnvFile.set_or_replace lines key value)
  = Some (More.definition_line key value)
  /\ More.others key (EnvFile.set_or_replace lines key value)
     = More.others key lines
  /\ length (EnvFile.set_or_replace lines key value)
     = (if existsb (EnvFile.defines key) lines
        then length lines else S (length lines))
  /\ forall before line after,
       lines = before ++ line :: after ->
       EnvFile.defines key line = true ->
       exists before',
         EnvFile.set_or_replace lines key value = before' ++ after.
Proof.
  intros Hkey. repeat split.
  - now apply set_or_replace_first.
  - now apply set_or_replace_others.
  - apply set_or_replace_length.
  - intros before line after -> Hline.
    induction before as [| head before IH]; cbn [app EnvFile.set_or_replace].
    + rewrite Hline. now exists [More.definition_line key value].
    + destruct (EnvFile.defines key head).
      * exists (More.definition_line key value :: before ++ [line]).
        cbn. now rewrite <- app_assoc.
      * destruct IH as [before' ->]. now exists (head :: before').
Qed.

Lemma set_or_replace_upserts_witness :
  let lines := ["A=1"; " HARVEY_X_OFFSET=3"; "B=2"; "HARVEY_X_OFFSET=4"] in
  EnvFile.set_or_replace lines "HARVEY_X_OFFSET" "12"
  = ["A=1"; "HARVEY_X_OFFSET=12"; "B=2"; "HARVEY_X_OFFSET=4"]
  /\ List.find (EnvFile.defines "HARVEY_X_OFFSET")
               (EnvFile.set_or_replace lines "HARVEY_X_OFFSET" "12")
     = Some (More.definition_line "HARVEY_X_OFFSET" "12")
  /\ More.others "HARVEY_X_OFFSET"
                 (EnvFile.set_or_replace lines "HARVEY_X_OFFSET" "12")
     = More.others "HARVEY_X_OFFSET" lines
  /\ length (EnvFile.set_or_replace lines "HARVEY_X_OFFSET" "12")
     = (if existsb (EnvFile.defines "HARVEY_X_OFFSET") lines
        then length lines else S (length lines))
  /\ forall before line after,
       lines = before ++ line :: after ->
       EnvFile.defines "HARVEY_X_OFFSET" line = true ->
       exists before',
         EnvFile.set_or_replace lines "HARVEY_X_OFFSET" "12" = before' ++ after.
Proof.
  cbv zeta. split; [reflexivity |].
  apply (set_or_replace_upserts "HARVEY_X_OFFSET" "12"
           ["A=1"; " HARVEY_X_OFFSET=3"; "B=2"; "HARVEY_X_OFFSET=4"]).
  reflexivity.
Defined.

Section OffsetsFile.
Import EnvFile.

Lemma splitlines_nobreak (s : string) :
  Forall (fun line => Props.all_chars More.nobreak line = true) (splitlines s)
  /\ forall c,
       Forall (fun line => Props.all_chars More.nobreak line = true)
              (splitlines (String c s)).
Proof.
  induction s as [| d s [IHs IHc]].
  - split; [constructor |]. intros c. cbn [splitlines].
    destruct (isbreak c) eqn:Hc; repeat constructor.
    cbn. unfold More.nobreak. now rewrite Hc.
  - split; [apply IHc |]. intros c.
    change (splitlines (String c (String d s)))
      with (if isbreak c then
              EmptyString ::
                (if Ascii.eqb c "013"%char && Ascii.eqb d "010"%char
                 then splitlines s else splitlines (String d s))
            else match splitlines (String d s) with
                 | h :: t => String c h :: t
                 | [] => [String c EmptyString]
                 end).
    destruct (isbreak c) eqn:Hc.
    + constructor; [reflexivity |].
      destruct (Ascii.eqb c "013"%char && Ascii.eqb d "010"%char);
        [exact IHs | apply IHc].
    + specialize (IHc d). destruct (splitlines (String d s)) as [| h t].
      * repeat constructor. cbn. unfold More.nobreak. now rewrite Hc.
      * inversion IHc as [| ? ? Hh Ht]; subst. constructor; [| exact Ht].
        cbn. unfold More.nobreak at 1. now rewrite Hc, Hh.
Qed.

Lemma splitlines_line (line rest : string) :
  Props.all_chars More.nobreak line = true ->
  splitlines (line ++ newline ++ rest) = line :: splitlines rest.
Proof.
  induction line as [| c line IH]; intros Hline.
  - rewrite append_empty. unfold newline. rewrite append_String, append_empty.
    cbn [splitlines]. change (isbreak "010"%char) with true. cbv iota.
    now destruct rest.
  - cbn in Hline. apply andb_true_iff in Hline as [Hc Hline].
    rewrite append_String. cbn [splitlines].
    unfold More.nobreak in Hc. apply negb_true_iff in Hc. rewrite Hc.
    now rewrite (IH Hline).
Qed.

Lemma splitlines_join (lines : list string) :
  lines <> [] ->
  Forall (fun line => Props.all_chars More.nobreak line = true) lines ->
  splitlines (join newline lines ++ newline) = lines.
Proof.
  intros Hlines Hall. induction Hall as [| line rest Hline Hrest IH]; [congruence |].
  destruct rest as [| next rest].
  - cbn [join]. rewrite <- (append_empty_r newline).
    rewrite (splitlines_line line EmptyString Hline). reflexivity.
  - change (join newline (line :: next :: rest))
      with (line ++ newline ++ join newline (next :: rest))%string.
    rewrite !append_assoc. rewrite (splitlines_line _ _ Hline).
    now rewrite IH.
Qed.

Lemma set_or_replace_nonempty (lines : list string) (key value : string) :
  set_or_replace lines key value <> [].
Proof.
  destruct lines as [| line rest]; cbn; [discriminate |].
  now destruct (defines key line).
Qed.

Lemma set_or_replace_all (P : string -> Prop) (lines : list string)
    (key value : string) :
  Forall P lines -> P (key ++ "=" ++ value)%string ->
  Forall P (set_or_replace lines key value).
Proof.
  intros Hlines Hnew. induction Hlines as [| line rest Hline Hrest IH];
    cbn [set_or_replace]; [now repeat constructor |].
  destruct (defines key line); now constructor.
Qed.

Lemma set_or_replace_other_key (k1 k2 value : string) (lines : list string) :
  (forall line, defines k2 line = true -> defines k1 line = false) ->
  defines k1 (More.definition_line k2 value) = false ->
  List.find (defines k1) (set_or_replace lines k2 value)
  = List.find (defines k1) lines.
Proof.
  unfold More.definition_line. intros Hexclusive Hnew.
  induction lines as [| line rest IH]; cbn [set_or_replace List.find].
  - now rewrite Hnew.
  - destruct (defines k2 line) eqn:Hline; cbn [List.find].
    + now rewrite Hnew, (Hexclusive line Hline).
    + now rewrite IH.
Qed.

Lemma digit_nobreak (c : ascii) : isdigit c = true -> More.nobreak c = true.
Proof. destruct c as [[] [] [] [] [] [] [] []]; vm_compute; congruence. Qed.

Lemma str_of_int_nobreak (z : Z) :
  Props.all_chars More.nobreak (str_of_int z) = true.
Proof.
  unfold str_of_int. destruct (Z.to_int z) as [d | d]; cbn [NilEmpty.string_of_int].
  - apply (all_chars_impl isdigit); [apply digit_nobreak | apply string_of_uint_digits].
  - cbn [Props.all_chars]. change (More.nobreak "-"%char) with true. cbn [andb].
    apply (all_chars_impl isdigit); [apply digit_nobreak | apply string_of_uint_digits].
Qed.

Lemma x_excludes_y (line : string) :
  defines "HARVEY_X_OFFSET" line = true -> defines "HARVEY_Y_OFFSET" line = false.
Proof.
  unfold defines. intros Hx. apply startswith_split in Hx as [rest ->].
  now destruct rest.
Qed.

Lemma y_excludes_x (line : string) :
  defines "HARVEY_Y_OFFSET" line = true -> defines "HARVEY_X_OFFSET" line = false.
Proof.
  unfold defines. intros Hy. apply startswith_split in Hy as [rest ->].
  now destruct rest.
Qed.

(** The lines [_write_env_offsets] joins. *)
Lemma written_lines (lines : list string) (offset_x offset_y : Z) :
  Forall (fun line => Props.all_chars More.nobreak line = true) lines ->
  let written :=
    set_or_replace (set_or_replace lines "HARVEY_X_OFFSET" (str_of_int offset_x))
                   "HARVEY_Y_OFFSET" (str_of_int offset_y) in
  splitlines (join newline written ++ newline) = written
  /\ List.find (defines "HARVEY_X_OFFSET") written
     = Some (More.definition_line "HARVEY_X_OFFSET" (str_of_int offset_x))
  /\ List.find (defines "HARVEY_Y_OFFSET") written
     = Some (More.definition_line "HARVEY_Y_OFFSET" (str_of_int offset_y)).
Proof.
  intros Hlines written. subst written. repeat split.
  - apply splitlines_join; [apply set_or_replace_nonempty |].
    apply set_or_replace_all; [apply set_or_replace_all; [exact Hlines |] |].
    + rewrite !all_chars_app, str_of_int_nobreak. reflexivity.
    + rewrite !all_chars_app, str_of_int_nobreak. reflexivity.
  - rewrite set_or_replace_other_key.
    + now apply set_or_replace_first.
    + apply y_excludes_x.
    + apply y_excludes_x. now apply defines_own_line.
  - now apply set_or_replace_first.
Qed.

End OffsetsFile.

(** X24.  Writing the offsets is idempotent: writing the same two
    offsets into the file just written leaves it as it is, whatever the
    file held before and whether it existed.  In the written file the
    first line that defines each of the two variables carries the new
    value, and the text ends with a line feed. *)
Theorem write_env_offsets_is_idempotent (existing : option string)
    (offset_x offset_y : Z) :
  let written := EnvFile._write_env_offsets existing offset_x offset_y in
  EnvFile._write_env_offsets (Some written) offset_x offset_y = written
  /\ List.find (EnvFile.defines "HARVEY_X_OFFSET") (EnvFile.splitlines written)
     = Some (More.definition_line "HARVEY_X_OFFSET" (EnvFile.str_of_int offset_x))
  /\ List.find (EnvFile.defines "HARVEY_Y_OFFSET") (EnvFile.splitlines written)
     = Some (More.definition_line "HARVEY_Y_OFFSET" (EnvFile.str_of_int offset_y))
  /\ exists body, written = (body ++ newline)%string.
Proof.
  cbv zeta. unfold EnvFile._write_env_offsets.
  set (lines := match existing with
                | Some text => EnvFile.splitlines text
                | None => []
                end).
  assert (Hlines : Forall (fun line => Props.all_chars More.nobreak line = true) lines).
  { subst lines. destruct existing as [text |]; [apply splitlines_nobreak | constructor]. }
  destruct (written_lines lines offset_x offset_y Hlines) as (Hsplit & Hx & Hy).
  rewrite Hsplit. repeat split.
  - rewrite (set_or_replace_fixed "HARVEY_X_OFFSET" _ _ Hx).
    now rewrite (set_or_replace_fixed "HARVEY_Y_OFFSET" _ _ Hy).
  - exact Hx.
  - exact Hy.
  - eauto.
Qed.

(** ** From a reply in the format of the prompt to the keyboard *)

Section PromptFormat.
Import Harvey.












End PromptFormat.



(** ** Ratios out of an action text *)

Section Ratios.
Import Harvey.

Lemma clamp_idempotent (ratio : Q) : More.clamp (More.clamp ratio) = More.clamp ratio.
Proof.
  unfold More.clamp, py_max, py_min, flt.
  destruct (Qle_bool 1 ratio) eqn:Hone; cbn [negb]; [reflexivity |].
  destruct (Qle_bool ratio 0) eqn:Hzero; cbn [negb]; [reflexivity |].
  rewrite Hone. cbn [negb]. now rewrite Hzero.
Qed.

End Ratios.

(** X26.  Whatever the action text, the ratios [_extract_coords] returns
    lie between 0 and 1, and the second clamp, the one of
    [_transform_coords], leaves them as they are. *)
Theorem extracted_ratios_are_within_bounds (text : string) (ratio_x ratio_y : Q) :
  Harvey._extract_coords text = Returns (Some (ratio_x, ratio_y)) ->
  (0 <= ratio_x <= 1)%Q /\ (0 <= ratio_y <= 1)%Q
  /\ More.clamp ratio_x = ratio_x /\ More.clamp ratio_y = ratio_y.
Proof.
  unfold Harvey._extract_coords.
  destruct (search Harvey.coords_here text) as [[group1 group2] |]; [| discriminate].
  destruct (float_of_decimal group1) as [value_x | e]; [| discriminate].
  destruct (float_of_decimal group2) as [value_y | e]; [| discriminate].
  intros [= <- <-]. fold (More.clamp value_x) (More.clamp value_y).
  repeat split; try apply clamp_between; apply clamp_idempotent.
Qed.

Lemma extracted_ratios_are_within_bounds_witness :
  Harvey._extract_coords "left_click(1.5, 0.25)" = Returns (Some (1, 25 # 100)%Q)
  /\ (0 <= 1 <= 1)%Q /\ (0 <= 25 # 100 <= 1)%Q
  /\ More.clamp 1 = 1%Q /\ More.clamp (25 # 100) = (25 # 100)%Q.
Proof.
  split; [reflexivity |].
  apply (extracted_ratios_are_within_bounds "left_click(1.5, 0.25)" 1 (25 # 100)).
  reflexivity.
Defined.

(** ** The stored observation *)

Section Observation.
Import Harvey.

Lemma on_model_failure_keeps_observation (task error_str : string) :
  More.preserves (fun w w' => last_see w' = last_see w)
                 (on_model_failure task error_str).
Proof.
  set (R := fun w w' : world => last_see w' = last_see w).
  assert (Hrefl : forall w, R w w) by reflexivity.
  assert (Htrans : forall w1 w2 w3, R w1 w2 -> R w2 w3 -> R w1 w3)
    by (unfold R; congruence).
  assert (Hemit : forall e, More.preserves R (emit e)) by (intros e w; reflexivity).
  unfold on_model_failure.
  repeat lazymatch goal with
  | |- More.preserves _ (ret _) => apply (preserves_ret R Hrefl)
  | |- More.preserves _ (bind _ _) => apply (preserves_bind R Htrans); [| intros ?]
  | |- More.preserves _ (print _) => apply Hemit
  | |- More.preserves _ (sleep _) => apply Hemit
  | |- More.preserves _ (if ?b then _ else _) => destruct b
  | |- More.preserves _ (match ?x with _ => _ end) => destruct x
  end.
Qed.

End Observation.

(** X27.  A model call that raises leaves the stored observation as it
    was: the narration of that step repeats the observation of the last
    call that answered (the empty text before any did).  A call that
    answers stores the observation of its reply, an empty one included. *)
Theorem failed_call_keeps_the_observation (C : Harvey.collaborators)
    (task image : string) (w : Harvey.world) :
  Harvey.last_see (snd (Harvey.think C task image w))
  = match Harvey.generate_content C (Harvey.model_calls w) task image with
    | Returns reply => fst (Harvey.parse_reply reply)
    | Raises _ => Harvey.last_see w
    end.
Proof.
  unfold Harvey.think, Harvey.bind, Harvey.call_model.
  destruct (Harvey.generate_content C (Harvey.model_calls w) task image)
    as [reply | error_str].
  - destruct (Harvey.parse_reply reply) as [see action]. cbn [fst].
    now destruct (truthy see).
  - match goal with
    | |- context [Harvey.on_model_failure task error_str ?w1] =>
        now rewrite (on_model_failure_keeps_observation task error_str w1)
    end.
Qed.
